(** * PythonPowerTools: the line-oriented diff/patch engine

    A shallow embedding of [src/python/diff.py] and [src/python/patch.py]
    and the properties of the engine: the LCS comparator, the grouping of
    changes into blocks and hunks, the renderers, and the patch applier.

    Python values are modelled as follows: [int] is [Z] (unbounded), list
    indices that the code keeps non-negative are [nat], [str] is [string],
    a list is [list], the [options] dictionary of [patch.py] is a
    [gmap string pyval], an exception is a value of [exn] carried by
    [result], and the module globals of [diff.py] together with standard
    output form an explicit [world] threaded through a state-and-exception
    monad. *)

From Stdlib Require Import ZArith Lia Bool Ascii String Sorted.
From stdpp Require Import base option list strings gmap pretty.

Set Default Proof Using "Type".

(** ** Python primitives *)

Module Py.

(** The exceptions the two programs can raise.  [Hang] is not a Python
    exception: it marks a loop that would not finish within the fuel its
    model is given. *)
Inductive exn :=
| NameError (name : string)
| AttributeError (attr : string)
| KeyError (key : string)
| IndexError
| SystemExit (code : Z)
| Hang.

Inductive result (A : Type) :=
| Ok (a : A)
| Raise (e : exn).
Arguments Ok {A} a.
Arguments Raise {A} e.

Definition rbind {A B} (r : result A) (k : A -> result B) : result B :=
  match r with
  | Ok a => k a
  | Raise e => Raise e
  end.

(** Computations over a state [S] that may raise; the state reached at the
    raise is kept (text already printed stays printed). *)
Definition M (S A : Type) : Type := S -> result A * S.

Definition ret {S A} (a : A) : M S A := fun s => (Ok a, s).

Definition bind {S A B} (m : M S A) (k : A -> M S B) : M S B :=
  fun s => match m s with
           | (Ok a, s') => k a s'
           | (Raise e, s') => (Raise e, s')
           end.

Definition raise {S A} (e : exn) : M S A := fun s => (Raise e, s).

Definition lift {S A} (r : result A) : M S A := fun s => (r, s).

Definition gets {S A} (f : S -> A) : M S A := fun s => (Ok (f s), s).

Definition modify {S} (f : S -> S) : M S unit := fun s => (Ok tt, f s).

(** [for x in l: body x] *)
Fixpoint for_each {S A} (l : list A) (body : A -> M S unit) : M S unit :=
  match l with
  | [] => ret tt
  | x :: l' => bind (body x) (fun _ => for_each l' body)
  end.

(** The newline character and a line of text. *)
Definition nl : string := String (ascii_of_nat 10) EmptyString.

(** [str(n)] for an int. *)
Definition str (n : Z) : string := pretty n.

(** The truth value of a list: [if l:] *)
Definition is_nonempty {A} (l : list A) : bool :=
  match l with
  | [] => false
  | _ :: _ => true
  end.

(** [l[i]] on a list: a negative index counts from the end, an index
    outside the list raises IndexError. *)
Definition index {A} (l : list A) (i : Z) : result A :=
  let n := Z.of_nat (length l) in
  let k := if (i <? 0)%Z then (i + n)%Z else i in
  if (k <? 0)%Z then Raise IndexError
  else match l !! Z.to_nat k with
       | Some x => Ok x
       | None => Raise IndexError
       end.

(** [l[lo:hi]]: negative bounds count from the end, bounds are clamped. *)
Definition slice_bound (n i : Z) : Z :=
  if (i <? 0)%Z then Z.max 0 (i + n) else Z.min i n.

Definition slice {A} (l : list A) (lo hi : Z) : list A :=
  let n := Z.of_nat (length l) in
  let lo' := slice_bound n lo in
  let hi' := slice_bound n hi in
  take (Z.to_nat (hi' - lo')) (drop (Z.to_nat lo') l).

(** [l[i] = x] *)
Definition set_index {A} (l : list A) (i : Z) (x : A) : result (list A) :=
  let n := Z.of_nat (length l) in
  let k := if (i <? 0)%Z then (i + n)%Z else i in
  if ((k <? 0) || (n <=? k))%Z then Raise IndexError
  else Ok (<[Z.to_nat k := x]> l).

(** [range(lo, hi)] *)
Definition range (lo hi : Z) : list Z :=
  map (fun k => (lo + Z.of_nat k)%Z) (seq 0 (Z.to_nat (hi - lo))).

(** [sep.join(l)] *)
Fixpoint join (sep : string) (l : list string) : string :=
  match l with
  | [] => EmptyString
  | [x] => x
  | x :: l' => x +:+ sep +:+ join sep l'
  end.

(** [f.readlines()] on a file that holds [text]: the lines with their
    terminators. *)
Fixpoint readlines (text : string) : list string :=
  match text with
  | EmptyString => []
  | String c rest =>
      if Ascii.eqb c (ascii_of_nat 10) then String c EmptyString :: readlines rest
      else match readlines rest with
           | [] => [String c EmptyString]
           | line :: lines => String c line :: lines
           end
  end.

(** The text of a file made of the given lines, each terminated. *)
Definition unlines (l : list string) : string :=
  String.concat "" (map (fun s => s +:+ nl) l).

(** [s.startswith(p)] and [s[1:]] *)
Definition startswith (p s : string) : bool := String.prefix p s.

Definition tail (s : string) : string :=
  match s with
  | EmptyString => EmptyString
  | String _ s' => s'
  end.

(** [s.replace(',', ' ')] *)
Fixpoint replace_char (old new : ascii) (s : string) : string :=
  match s with
  | EmptyString => EmptyString
  | String c s' =>
      String (if Ascii.eqb c old then new else c) (replace_char old new s')
  end.

(** [str.strip()] with no argument removes leading and trailing white
    space.  On the ASCII range Python's white space is TAB, LF, VT, FF, CR,
    FS, GS, RS, US and SPACE; bytes above 127 are kept. *)
Definition isspace (c : ascii) : bool :=
  let n := nat_of_ascii c in
  ((9 <=? n) && (n <=? 13)) || ((28 <=? n) && (n <=? 32)).

Fixpoint lstrip (s : string) : string :=
  match s with
  | EmptyString => EmptyString
  | String c s' => if isspace c then lstrip s' else s
  end.

Definition rstrip (s : string) : string := String.rev (lstrip (String.rev s)).

Definition strip (s : string) : string := rstrip (lstrip s).

(** [s.split(sep)] for a separator of one character: the parts between
    the separators, at least one. *)
Fixpoint split (sep : ascii) (s : string) : list string :=
  match s with
  | EmptyString => [EmptyString]
  | String c s' =>
      if Ascii.eqb c sep then EmptyString :: split sep s'
      else match split sep s' with
           | [] => [String c EmptyString]
           | part :: parts => String c part :: parts
           end
  end.

(** [os.path.sep] and [os.path.basename(p)] on a POSIX system: the
    basename is what follows the last separator. *)
Definition os_path_sep : ascii := "/"%char.

Definition os_path_basename (p : string) : string :=
  List.last (split os_path_sep p) EmptyString.

End Py.

Import Py.

Declare Scope py_scope.
Delimit Scope py_scope with py.
Notation "'let*' x := m 'in' k" := (bind m (fun x => k))
  (at level 10, x pattern, m at level 100, k at level 200) : py_scope.
Notation "m ;;; k" := (bind m (fun _ => k))
  (at level 100, k at level 200, right associativity) : py_scope.
Notation "'let?' x := r 'in' k" := (rbind r (fun x => k))
  (at level 10, x pattern, r at level 100, k at level 200) : py_scope.
Open Scope py_scope.

(** ** diff.py *)

Module Diff.

Definition EX_SUCCESS : Z := 0.
Definition EX_DIFFERENT : Z := 1.
Definition EX_FAILURE : Z := 2.

(** The sign of a change: ['+'] or ['-']. *)
Inductive sign := Plus | Minus.

Definition sign_eqb (s t : sign) : bool :=
  match s, t with
  | Plus, Plus | Minus, Minus => true
  | _, _ => false
  end.

(** A change as [diff] returns it: the tuple [(sign, index)]. *)
Definition edit : Type := sign * nat.

(** A change as a [Block] stores it: [{'sign': .., 'item_no': ..}]. *)
Record change := { c_sign : sign; item_no : Z }.

(** *** class Block *)

Record Block := { changes : list change; length_diff : Z }.

Definition remove_count (self : Block) : Z :=
  Z.of_nat (length (List.filter (fun c => sign_eqb (c_sign c) Minus) (changes self))).

Definition insert_count (self : Block) : Z :=
  Z.of_nat (length (List.filter (fun c => sign_eqb (c_sign c) Plus) (changes self))).

Definition removes (self : Block) : list change :=
  List.filter (fun c => sign_eqb (c_sign c) Minus) (changes self).

Definition inserts (self : Block) : list change :=
  List.filter (fun c => sign_eqb (c_sign c) Plus) (changes self).

(** [{'sign': c[0], 'item_no': c[1]}] *)
Definition to_change (c : edit) : change :=
  {| c_sign := fst c; item_no := Z.of_nat (snd c) |}.

(** [Block.__init__] *)
Definition new_Block (chunk : list edit) : Block :=
  let cs := map to_change chunk in
  let self := {| changes := cs; length_diff := 0 |} in
  {| changes := cs; length_diff := insert_count self - remove_count self |}.

Definition op (self : Block) : string :=
  let removals := remove_count self in
  let insertions := insert_count self in
  if negb (removals =? 0)%Z && negb (insertions =? 0)%Z then "!"
  else if negb (removals =? 0)%Z then "-"
  else if negb (insertions =? 0)%Z then "+"
  else "^".

(** [op_hash.get(o, 'u')] with [op_hash = {'+': 'a', '-': 'd', '!': 'c'}] *)
Definition op_hash_get (o : string) : string :=
  if String.eqb o "+" then "a"
  else if String.eqb o "-" then "d"
  else if String.eqb o "!" then "c"
  else "u".

(** *** class Hunk *)

Record Hunk := {
  start1 : Z; end1 : Z;
  start2 : Z; end2 : Z;
  blocks : list Block
}.

(** The module globals that change while the program runs, and the text
    printed so far. *)
Record world := {
  file_length_difference : Z;
  ed_hunks : list Hunk;
  stdout : string
}.

Definition initial_world : world :=
  {| file_length_difference := 0; ed_hunks := []; stdout := "" |}.

Definition print (s : string) : M world unit :=
  modify (fun w => {| file_length_difference := file_length_difference w;
                      ed_hunks := ed_hunks w;
                      stdout := stdout w +:+ s +:+ nl |}).

Definition flag_context (self : Hunk) (context_lines : Z) (f1 f2 : list string) : Hunk :=
  if (context_lines =? 0)%Z then self
  else
    {| start1 := Z.max 0 (start1 self - context_lines);
       start2 := Z.max 0 (start2 self - context_lines);
       end1 := Z.min (Z.of_nat (length f1) - 1) (end1 self + context_lines);
       end2 := Z.min (Z.of_nat (length f2) - 1) (end2 self + context_lines);
       blocks := blocks self |}.

(** [Hunk.__init__]: reads and advances the global
    [file_length_difference]. *)
Definition new_Hunk (chunk : list edit) (context_lines : Z) (f1 f2 : list string)
  : M world Hunk :=
  let block := new_Block chunk in
  let* before_diff := gets file_length_difference in
  modify (fun w => {| file_length_difference := file_length_difference w + length_diff block;
                      ed_hunks := ed_hunks w;
                      stdout := stdout w |}) ;;;
  let* after_diff := gets file_length_difference in
  let removes := removes block in
  let inserts := inserts block in
  let* s1 := lift (if is_nonempty removes
                   then let? c := index removes 0 in Ok (item_no c)
                   else let? c := index inserts 0 in Ok (item_no c - before_diff)%Z) in
  let* e1 := lift (if is_nonempty removes
                   then let? c := index removes (-1) in Ok (item_no c)
                   else let? c := index inserts (-1) in Ok (item_no c - after_diff)%Z) in
  let* s2 := lift (if is_nonempty inserts
                   then let? c := index inserts 0 in Ok (item_no c)
                   else let? c := index removes 0 in Ok (item_no c + before_diff)%Z) in
  let* e2 := lift (if is_nonempty inserts
                   then let? c := index inserts (-1) in Ok (item_no c)
                   else let? c := index removes (-1) in Ok (item_no c + after_diff)%Z) in
  ret (flag_context {| start1 := s1; end1 := e1; start2 := s2; end2 := e2;
                       blocks := [block] |} context_lines f1 f2).

Definition does_overlap (self : Hunk) (other_hunk : option Hunk) : bool :=
  match other_hunk with
  | None => false
  | Some other =>
      ((start1 self - end1 other <=? 1) || (start2 self - end2 other <=? 1))%Z
  end.

Definition prepend_hunk (self other_hunk : Hunk) : Hunk :=
  {| start1 := start1 other_hunk;
     start2 := start2 other_hunk;
     end1 := end1 self;
     end2 := end2 self;
     blocks := blocks other_hunk ++ blocks self |}.

(** The [flag] argument of the two range methods: the literal [1] or [2]. *)
Inductive flag := F1 | F2.

Definition getattr_start (self : Hunk) (f : flag) : Z :=
  match f with F1 => start1 self | F2 => start2 self end.

Definition getattr_end (self : Hunk) (f : flag) : Z :=
  match f with F1 => end1 self | F2 => end2 self end.

Definition context_range (self : Hunk) (f : flag) : string :=
  let start := (getattr_start self f + 1)%Z in
  let end_ := (getattr_end self f + 1)%Z in
  if (start <? end_)%Z then str start +:+ "," +:+ str end_ else str end_.

(** The else branch reads a name, [first], that is bound nowhere. *)
Definition unified_range (self : Hunk) (f : flag) : result string :=
  let start := (getattr_start self f + 1)%Z in
  let end_ := (getattr_end self f + 1)%Z in
  let length := (end_ - start + 1)%Z in
  if (1 <? length)%Z then Ok (str start +:+ "," +:+ str length)
  else Raise (NameError "first").

Definition output_old_diff (self : Hunk) (f1_ref f2_ref : list string) : M world unit :=
  let* block := lift (index (blocks self) 0) in
  let action := op_hash_get (op block) in
  let range1 := context_range self F1 in
  let range2 := context_range self F2 in
  print (range1 +:+ action +:+ range2) ;;;
  (if is_nonempty (removes block)
   then for_each (range (start1 self) (end1 self + 1))
          (fun i => let* l := lift (index f1_ref i) in print ("< " +:+ l))
   else ret tt) ;;;
  (if String.eqb (op block) "!" then print "---" else ret tt) ;;;
  (if is_nonempty (inserts block)
   then for_each (range (start2 self) (end2 self + 1))
          (fun i => let* l := lift (index f2_ref i) in print ("> " +:+ l))
   else ret tt).

(** The [while] loop of [output_unified_diff]; every iteration advances
    [i1] or [i2], so [fuel] bounds the number of iterations. *)
Fixpoint unified_loop (fuel : nat) (self : Hunk) (f1_ref f2_ref : list string)
    (i1 i2 : Z) (outlist : list string) : result (list string) :=
  let high1 := end1 self in
  let high2 := end2 self in
  if ((i1 <=? high1) || (i2 <=? high2))%Z then
    match fuel with
    | O => Raise Hang
    | S fuel' =>
        let is_remove :=
          (i1 <=? high1)%Z &&
          existsb (fun c => (i1 =? item_no c)%Z) (flat_map removes (blocks self)) in
        let is_insert :=
          (i2 <=? high2)%Z &&
          existsb (fun c => (i2 =? item_no c)%Z) (flat_map inserts (blocks self)) in
        if is_remove && is_insert then
          let? l1 := index f1_ref i1 in
          let? l2 := index f2_ref i2 in
          unified_loop fuel' self f1_ref f2_ref (i1 + 1) (i2 + 1)
            (outlist ++ ["-" +:+ l1; "+" +:+ l2])
        else if is_remove then
          let? l1 := index f1_ref i1 in
          unified_loop fuel' self f1_ref f2_ref (i1 + 1) i2 (outlist ++ ["-" +:+ l1])
        else if is_insert then
          let? l2 := index f2_ref i2 in
          unified_loop fuel' self f1_ref f2_ref i1 (i2 + 1) (outlist ++ ["+" +:+ l2])
        else
          let? l1 := index f1_ref i1 in
          unified_loop fuel' self f1_ref f2_ref (i1 + 1) (i2 + 1) (outlist ++ [" " +:+ l1])
    end
  else Ok outlist.

Definition unified_fuel (self : Hunk) : nat :=
  Z.to_nat (end1 self + 1 - start1 self) + Z.to_nat (end2 self + 1 - start2 self).

Definition output_unified_diff (self : Hunk) (f1_ref f2_ref : list string) : M world unit :=
  let* range1 := lift (unified_range self F1) in
  let* range2 := lift (unified_range self F2) in
  print ("@@ -" +:+ range1 +:+ " +" +:+ range2 +:+ " @@") ;;;
  let* outlist := lift (unified_loop (unified_fuel self) self f1_ref f2_ref
                          (start1 self) (start2 self) []) in
  print (join nl outlist).

(** The marking loops of [output_context_diff]: for every block, every
    change of the given direction overwrites its line of [outlist]. *)
Fixpoint mark_items (o : string) (start : Z) (items : list change)
    (outlist : list string) : result (list string) :=
  match items with
  | [] => Ok outlist
  | item :: items' =>
      let k := (item_no item - start)%Z in
      let? cur := index outlist k in
      let? outlist' := set_index outlist k (o +:+ " " +:+ strip cur) in
      mark_items o start items' outlist'
  end.

Fixpoint mark_blocks (select : Block -> list change) (start : Z) (bs : list Block)
    (outlist : list string) : result (list string) :=
  match bs with
  | [] => Ok outlist
  | block :: bs' =>
      let? outlist' := mark_items (op block) start (select block) outlist in
      mark_blocks select start bs' outlist'
  end.

Definition output_context_diff (self : Hunk) (f1_ref f2_ref : list string) : M world unit :=
  print "***************" ;;;
  let range1 := context_range self F1 in
  let range2 := context_range self F2 in
  print ("*** " +:+ range1 +:+ " ****") ;;;
  (if existsb (fun b => is_nonempty (removes b)) (blocks self) then
     let outlist1 := map (fun s => "  " +:+ s) (slice f1_ref (start1 self) (end1 self + 1)) in
     let* outlist1 := lift (mark_blocks removes (start1 self) (blocks self) outlist1) in
     print (join nl outlist1)
   else ret tt) ;;;
  print ("--- " +:+ range2 +:+ " ----") ;;;
  (if existsb (fun b => is_nonempty (inserts b)) (blocks self) then
     let outlist2 := map (fun s => "  " +:+ s) (slice f2_ref (start2 self) (end2 self + 1)) in
     let* outlist2 := lift (mark_blocks inserts (start2 self) (blocks self) outlist2) in
     print (join nl outlist2)
   else ret tt).

Inductive diff_type := OLD | CONTEXT | UNIFIED | ED | REVERSE_ED.

Definition diff_type_eqb (s t : diff_type) : bool :=
  match s, t with
  | OLD, OLD | CONTEXT, CONTEXT | UNIFIED, UNIFIED | ED, ED
  | REVERSE_ED, REVERSE_ED => true
  | _, _ => false
  end.

(** [ed_hunks.appendleft(self)] *)
Definition store_ed_diff (self : Hunk) : M world unit :=
  modify (fun w => {| file_length_difference := file_length_difference w;
                      ed_hunks := self :: ed_hunks w;
                      stdout := stdout w |}).

Definition output_ed_diff (self : Hunk) (f1_ref f2_ref : list string) (ty : diff_type)
  : M world unit :=
  let* block := lift (index (blocks self) 0) in
  let action := op_hash_get (op block) in
  let range1 := context_range self F1 in
  (if diff_type_eqb ty REVERSE_ED
   then print (action +:+ replace_char "," " " range1)
   else print (range1 +:+ action)) ;;;
  (if is_nonempty (inserts block)
   then for_each (range (start2 self) (end2 self + 1))
          (fun i => let* l := lift (index f2_ref i) in print l) ;;;
        print "."
   else ret tt).

(** *** lcs_matrix *)

Abbreviation matrix := (list (list nat)).

(** [m[i][j]] and [m[i][j] = v], at indices inside the table. *)
Definition mget (m : matrix) (i j : nat) : nat := (m !!! i) !!! j.

Definition mset (m : matrix) (i j v : nat) : matrix := <[i := <[j := v]> (m !!! i)]> m.

(** The body of the inner loop of [lcs_matrix]. *)
Definition lcs_cell (a b : list string) (i : nat) (m : matrix) (j : nat) : matrix :=
  if String.eqb (a !!! (i - 1)) (b !!! (j - 1))
  then mset m i j (1 + mget m (i - 1) (j - 1))
  else mset m i j (Nat.max (mget m i (j - 1)) (mget m (i - 1) j)).

(** The body of the outer loop. *)
Definition lcs_row (a b : list string) (m : matrix) (i : nat) : matrix :=
  foldl (lcs_cell a b i) m (seq 1 (length b)).

Definition lcs_matrix (a b : list string) : matrix :=
  foldl (lcs_row a b)
    (replicate (length a + 1) (replicate (length b + 1) 0))
    (seq 1 (length a)).

(** *** diff *)

(** The backtracking [while] loop; [None] when the fuel runs out.  When no
    branch fires the loop goes round with [i] and [j] unchanged. *)
Fixpoint diff_loop (fuel : nat) (a b : list string) (m : matrix) (i j : nat)
    (changes : list edit) : option (list edit) :=
  if (0 <? i) || (0 <? j) then
    match fuel with
    | O => None
    | S fuel' =>
        if (0 <? i) && (0 <? j) && String.eqb (a !!! (i - 1)) (b !!! (j - 1)) then
          diff_loop fuel' a b m (i - 1) (j - 1) changes
        else if (0 <? j) && ((i =? 0) || (mget m (i - 1) j <=? mget m i (j - 1))) then
          diff_loop fuel' a b m i (j - 1) (changes ++ [(Plus, j - 1)])
        else if (0 <? i) && ((j =? 0) || (mget m i (j - 1) <? mget m (i - 1) j)) then
          diff_loop fuel' a b m (i - 1) j (changes ++ [(Minus, i - 1)])
        else
          diff_loop fuel' a b m i j changes
    end
  else Some changes.

(** The continuity test of the grouping loop. *)
Definition continuous (prev curr : edit) : bool :=
  sign_eqb (fst prev) (fst curr) &&
  (Z.abs (Z.of_nat (snd prev) - Z.of_nat (snd curr)) =? 1)%Z.

(** The grouping loop, from [k = 1]; [prev] is [changes[k - 1]]. *)
Fixpoint group_loop (prev : edit) (rest : list edit)
    (blocks : list (list edit)) (current_block : list edit)
  : list (list edit) * list edit :=
  match rest with
  | [] => (blocks, current_block)
  | curr :: rest' =>
      if continuous prev curr
      then group_loop curr rest' blocks (current_block ++ [curr])
      else group_loop curr rest' (blocks ++ [current_block]) [curr]
  end.

Definition group_blocks (changes : list edit) : list (list edit) :=
  let '(blocks, current_block) :=
    match changes with
    | [] => ([], [])
    | c0 :: rest => group_loop c0 rest [] [c0]
    end in
  if is_nonempty current_block then blocks ++ [current_block] else blocks.

Definition diff (a b : list string) : option (list (list edit)) :=
  let m := lcs_matrix a b in
  match diff_loop (length a + length b) a b m (length a) (length b) [] with
  | None => None
  | Some changes => Some (group_blocks (rev changes))
  end.

(** *** The main program *)

(** The attributes of the argparse namespace that the program reads. *)
Record options := {
  opt_C : option Z; opt_c : bool;
  opt_e : bool; opt_f : bool;
  opt_q : bool; opt_s : bool;
  opt_U : option Z; opt_u : bool
}.

(** The two operands: their names, what [readlines()] returns for each, and
    their modification times as the header prints them. *)
Record inputs := {
  file1 : string; file2 : string;
  lines1 : list string; lines2 : list string;
  mtime1 : string; mtime2 : string
}.

(** [usage] is called but defined nowhere in the module. *)
Definition usage {A} : result A := Raise (NameError "usage").

Definition checklen (n : Z) : result Z :=
  if (n <? 0)%Z then usage else Ok n.

Definition set_diff_type (current val : diff_type) : result diff_type :=
  if negb (diff_type_eqb current OLD) && negb (diff_type_eqb current val)
  then usage else Ok val.

(** The option cascade: the context length and the diff type. *)
Definition configure (o : options) : result (Z * diff_type) :=
  let context_lines := 0%Z in
  let ty := OLD in
  match opt_C o with
  | Some n =>
      let? context_lines := checklen n in
      let? ty := set_diff_type ty CONTEXT in Ok (context_lines, ty)
  | None =>
      if opt_c o then
        let? ty := set_diff_type ty CONTEXT in Ok (3%Z, ty)
      else if opt_e o then
        let? ty := set_diff_type ty ED in Ok (context_lines, ty)
      else if opt_f o then
        let? ty := set_diff_type ty REVERSE_ED in Ok (context_lines, ty)
      else match opt_U o with
           | Some n =>
               let? context_lines := checklen n in
               let? ty := set_diff_type ty UNIFIED in Ok (context_lines, ty)
           | None =>
               if opt_u o then
                 let? ty := set_diff_type ty UNIFIED in Ok (3%Z, ty)
               else Ok (context_lines, ty)
           end
  end.

(** [options] is an argparse Namespace, which has no [get] method, so the
    first statement of [identical] raises. *)
Definition identical : M world unit := raise (AttributeError "get").

(** The five-way dispatch on [diff_type] that flushes a finished hunk. *)
Definition output_hunk (ty : diff_type) (old_hunk : Hunk) (f1 f2 : list string)
  : M world unit :=
  match ty with
  | OLD => output_old_diff old_hunk f1 f2
  | CONTEXT => output_context_diff old_hunk f1 f2
  | UNIFIED => output_unified_diff old_hunk f1 f2
  | ED => store_ed_diff old_hunk
  | REVERSE_ED => output_ed_diff old_hunk f1 f2 REVERSE_ED
  end.

(** One round of [for piece in diffs]: the new value of [old_hunk]. *)
Definition hunk_step (ty : diff_type) (context_lines : Z) (f1 f2 : list string)
    (old_hunk : option Hunk) (piece : list edit) : M world (option Hunk) :=
  let* hunk := new_Hunk piece context_lines f1 f2 in
  match old_hunk with
  | Some old =>
      if (0 <? context_lines)%Z && does_overlap hunk old_hunk
      then ret (Some (prepend_hunk hunk old))
      else output_hunk ty old f1 f2 ;;; ret (Some hunk)
  | None => ret (Some hunk)
  end.

Fixpoint hunk_loop (ty : diff_type) (context_lines : Z) (f1 f2 : list string)
    (diffs : list (list edit)) (old_hunk : option Hunk) : M world (option Hunk) :=
  match diffs with
  | [] => ret old_hunk
  | piece :: diffs' =>
      let* old_hunk' := hunk_step ty context_lines f1 f2 old_hunk piece in
      hunk_loop ty context_lines f1 f2 diffs' old_hunk'
  end.

Definition tab : string := String (ascii_of_nat 9) EmptyString.

(** The program from the option cascade to [sys.exit], for two readable
    operands. *)
Definition main (o : options) (inp : inputs) : M world unit :=
  let* (context_lines, ty) := lift (configure o) in
  let f1 := map strip (lines1 inp) in
  let f2 := map strip (lines2 inp) in
  let* diffs := match diff f1 f2 with
                | Some d => ret d
                | None => raise Hang
                end in
  (if is_nonempty diffs then ret tt else identical) ;;;
  (if opt_q o
   then print ("Files " +:+ file1 inp +:+ " and " +:+ file2 inp +:+ " differ") ;;;
        raise (SystemExit EX_DIFFERENT)
   else ret tt) ;;;
  (match ty with
   | CONTEXT =>
       print ("*** " +:+ file1 inp +:+ tab +:+ mtime1 inp) ;;;
       print ("--- " +:+ file2 inp +:+ tab +:+ mtime2 inp)
   | UNIFIED =>
       print ("--- " +:+ file1 inp +:+ tab +:+ mtime1 inp) ;;;
       print ("+++ " +:+ file2 inp +:+ tab +:+ mtime2 inp)
   | _ => ret tt
   end) ;;;
  let* old_hunk := hunk_loop ty context_lines f1 f2 diffs None in
  (match old_hunk with
   | Some old => output_hunk ty old f1 f2
   | None => ret tt
   end) ;;;
  (if diff_type_eqb ty ED
   then let* hs := gets ed_hunks in
        for_each hs (fun hunk => output_ed_diff hunk f1 f2 ED)
   else ret tt) ;;;
  raise (SystemExit EX_DIFFERENT).

End Diff.

(** ** patch.py *)

Module Patch.

Definition EX_SUCCESS : Z := 0.
Definition EX_REJECTS : Z := 1.
Definition EX_FAILURE : Z := 2.

(** A text file open for reading: its lines, each with its terminator, and
    the number of lines already read. *)
Record infile := { in_lines : list string; in_pos : nat }.

(** A text file open for writing: the text written so far. *)
Record outfile := { written : string }.

(** The values the [options] dictionary holds. *)
Inductive pyval :=
| VNone
| VBool (b : bool)
| VInt (n : Z)
| VStr (s : string)
| VList (l : list string)
| VIn (f : infile)
| VOut (f : outfile).

(** Truth value of an object. *)
Definition truthy (v : pyval) : bool :=
  match v with
  | VNone => false
  | VBool b => b
  | VInt n => negb (n =? 0)%Z
  | VStr s => negb (String.eqb s "")
  | VList l => is_nonempty l
  | VIn _ | VOut _ => true
  end.

(** The text an f-string shows for the values [-D] can take. *)
Definition format (v : pyval) : string :=
  match v with
  | VStr s => s
  | VInt n => str n
  | VNone => "None"
  | VBool true => "True"
  | VBool false => "False"
  | _ => ""
  end.

(** The state of [type_conflict] is the text on standard error. *)
Definition type_conflict (opts : gmap string pyval) : M string unit :=
  let types := List.filter (fun t => truthy (default VNone (opts !! t)))
                 ["context"; "ed"; "normal"; "unified"] in
  if (1 <? length types)%nat then
    modify (fun err => err +:+ "patch: incompatible input type specifiers: "
                           +:+ join ", " types +:+ nl) ;;;
    raise (SystemExit EX_FAILURE)
  else ret tt.

(** *** class PushbackFile

    The object: the lines its file [f] still holds, each with its
    terminator, and the queue of the lines pushed back, the leftmost
    first. *)
Module PushbackFile.

Record t := { f : list string; queue : list string }.

Definition readline (self : t) : string * t :=
  if is_nonempty (queue self) then
    match queue self with
    | line :: q => (line, {| f := f self; queue := q |})
    | [] => (EmptyString, self)
    end
  else
    match f self with
    | line :: rest => (line, {| f := rest; queue := queue self |})
    | [] => (EmptyString, self)
    end.

Definition unread (line : string) (self : t) : t :=
  {| f := f self; queue := line :: queue self |}.

End PushbackFile.

(** *** class Patch

    The object's attributes; [stderr] is the text written to the process's
    standard error, kept next to them. *)
Record Patch := {
  options : gmap string pyval;
  garbage : list string;
  rejects : list (list string);
  skip : bool;
  hunk : Z;
  i_pos : Z;
  i_lines : Z;
  o_lines : Z;
  fuzz : pyval;
  ifdef : pyval;
  stderr : string
}.

Definition with_options (f : gmap string pyval -> gmap string pyval) (p : Patch) : Patch :=
  {| options := f (options p); garbage := garbage p; rejects := rejects p;
     skip := skip p; hunk := hunk p; i_pos := i_pos p; i_lines := i_lines p;
     o_lines := o_lines p; fuzz := fuzz p; ifdef := ifdef p; stderr := stderr p |}.

Definition with_rejects (f : list (list string) -> list (list string)) (p : Patch) : Patch :=
  {| options := options p; garbage := garbage p; rejects := f (rejects p);
     skip := skip p; hunk := hunk p; i_pos := i_pos p; i_lines := i_lines p;
     o_lines := o_lines p; fuzz := fuzz p; ifdef := ifdef p; stderr := stderr p |}.

Definition with_hunk (f : Z -> Z) (p : Patch) : Patch :=
  {| options := options p; garbage := garbage p; rejects := rejects p;
     skip := skip p; hunk := f (hunk p); i_pos := i_pos p; i_lines := i_lines p;
     o_lines := o_lines p; fuzz := fuzz p; ifdef := ifdef p; stderr := stderr p |}.

Definition with_i_pos (f : Z -> Z) (p : Patch) : Patch :=
  {| options := options p; garbage := garbage p; rejects := rejects p;
     skip := skip p; hunk := hunk p; i_pos := f (i_pos p); i_lines := i_lines p;
     o_lines := o_lines p; fuzz := fuzz p; ifdef := ifdef p; stderr := stderr p |}.

Definition with_i_lines (f : Z -> Z) (p : Patch) : Patch :=
  {| options := options p; garbage := garbage p; rejects := rejects p;
     skip := skip p; hunk := hunk p; i_pos := i_pos p; i_lines := f (i_lines p);
     o_lines := o_lines p; fuzz := fuzz p; ifdef := ifdef p; stderr := stderr p |}.

Definition with_o_lines (f : Z -> Z) (p : Patch) : Patch :=
  {| options := options p; garbage := garbage p; rejects := rejects p;
     skip := skip p; hunk := hunk p; i_pos := i_pos p; i_lines := i_lines p;
     o_lines := f (o_lines p); fuzz := fuzz p; ifdef := ifdef p; stderr := stderr p |}.

Definition with_stderr (f : string -> string) (p : Patch) : Patch :=
  {| options := options p; garbage := garbage p; rejects := rejects p;
     skip := skip p; hunk := hunk p; i_pos := i_pos p; i_lines := i_lines p;
     o_lines := o_lines p; fuzz := fuzz p; ifdef := ifdef p; stderr := f (stderr p) |}.

(** [options.get(key)] and [options.get(key, default)] *)
Definition options_get (key : string) (dflt : pyval) (p : Patch) : pyval :=
  default dflt (options p !! key).

(** [Patch.__init__]; [err] is the text already on standard error. *)
Definition new_Patch (opts : gmap string pyval) (err : string) : Patch :=
  {| options := opts; garbage := []; rejects := []; skip := false;
     hunk := 1; i_pos := 0; i_lines := 0; o_lines := 0;
     fuzz := default (VInt 2) (opts !! "fuzz");
     ifdef := default (VStr "") (opts !! "ifdef");
     stderr := err |}.

Definition note (message : string) : M Patch unit :=
  let* silent := gets (options_get "silent" VNone) in
  if truthy silent then ret tt
  else modify (with_stderr (fun e => e +:+ message)).

(** [self.options['i_fh']] and [self.options['o_fh']]: a missing key raises
    KeyError. *)
Definition get_in_fh : M Patch infile :=
  let* v := gets (fun p => options p !! "i_fh") in
  match v with
  | Some (VIn f) => ret f
  | Some _ => raise (AttributeError "readline")
  | None => raise (KeyError "i_fh")
  end.

Definition get_out_fh : M Patch outfile :=
  let* v := gets (fun p => options p !! "o_fh") in
  match v with
  | Some (VOut f) => ret f
  | Some _ => raise (AttributeError "write")
  | None => raise (KeyError "o_fh")
  end.

(** The file methods act on the object the dictionary holds. *)
Definition in_seek0 : M Patch unit :=
  let* f := get_in_fh in
  modify (with_options <["i_fh" := VIn {| in_lines := in_lines f; in_pos := 0 |}]>).

Definition in_readline : M Patch string :=
  let* f := get_in_fh in
  match in_lines f !! in_pos f with
  | Some l =>
      modify (with_options
                <["i_fh" := VIn {| in_lines := in_lines f; in_pos := S (in_pos f) |}]>) ;;;
      ret l
  | None => ret ""
  end.

Definition in_tell : M Patch Z :=
  let* f := get_in_fh in
  ret (Z.of_nat (String.length (String.concat "" (take (in_pos f) (in_lines f))))).

Definition out_write (s : string) : M Patch unit :=
  let* f := get_out_fh in
  modify (with_options <["o_fh" := VOut {| written := written f +:+ s |}]>).

(** [self.throw] is called twice but the class defines no such method. *)
Definition throw {A} (message : string) : M Patch A := raise (AttributeError "throw").

(** The comparison loop of [find_match]: [None] at the first context line
    that differs, after stripping, from the line read from the file. *)
Fixpoint match_context (context_lines : list string) : M Patch bool :=
  match context_lines with
  | [] => ret true
  | line :: rest =>
      let* file_line := in_readline in
      if negb (String.eqb (strip line) (strip file_line)) then ret false
      else match_context rest
  end.

Definition find_match (i_start : Z) (hunk : list string) : M Patch (option (list Z)) :=
  let* in_fh := get_in_fh in
  let context_lines := map tail (List.filter (startswith " ") hunk) in
  in_seek0 ;;;
  for_each (range 0 (i_start - 1)) (fun _ => in_readline ;;; ret tt) ;;;
  let* pos := in_tell in
  let* ok := match_context context_lines in
  if ok then ret (Some [i_start - 1; 0]%Z) else ret None.

Definition reverse_hunk (hunk : list string) : list string :=
  map (fun line =>
         if startswith "+" line then "-" +:+ tail line
         else if startswith "-" line then "+" +:+ tail line
         else line) hunk.

Definition reject (args : list string) : M Patch bool :=
  modify (with_rejects (fun r => r ++ [args])) ;;;
  let* h := gets hunk in
  note ("Hunk #" +:+ str h +:+ " ignored." +:+ nl) ;;;
  ret false.

(** The body of [for line in hunk] in [apply]. *)
Definition apply_line (line : string) : M Patch unit :=
  match line with
  | EmptyString => raise IndexError
  | String cmd _ =>
      let* ifdef := gets ifdef in
      if Ascii.eqb cmd "-" then
        (if truthy ifdef then
           out_write ("#ifndef " +:+ format ifdef +:+ nl) ;;;
           out_write (tail line) ;;;
           out_write ("#endif /* " +:+ format ifdef +:+ " */" +:+ nl)
         else ret tt) ;;;
        modify (with_i_lines (fun n => n + 1)%Z)
      else if Ascii.eqb cmd "+" then
        (if truthy ifdef then
           out_write ("#ifdef " +:+ format ifdef +:+ nl) ;;;
           out_write (tail line) ;;;
           out_write ("#endif /* " +:+ format ifdef +:+ " */" +:+ nl)
         else out_write (tail line)) ;;;
        modify (with_o_lines (fun n => n + 1)%Z)
      else if Ascii.eqb cmd " " then
        out_write (tail line) ;;;
        modify (with_i_lines (fun n => n + 1)%Z) ;;;
        modify (with_o_lines (fun n => n + 1)%Z)
      else ret tt
  end.

Definition apply (i_start o_start : Z) (hunk : list string) : M Patch bool :=
  let* skip := gets skip in
  (if skip then throw "SKIP...ignore this patch" else ret tt) ;;;
  let* reverse := gets (options_get "reverse" VNone) in
  let hunk := if truthy reverse then reverse_hunk hunk else hunk in
  let* position := find_match i_start hunk in
  let* position := match position with
                   | None => throw "Couldn't find anywhere to put hunk."
                   | Some position => ret position
                   end in
  let* position0 := lift (index position 0) in
  let* h := gets Patch.hunk in
  let* o := gets o_lines in
  note ("Hunk #" +:+ str h +:+ " succeeded at line " +:+ str (o + position0) +:+ "." +:+ nl) ;;;
  let* in_fh := get_in_fh in
  let* out_fh := get_out_fh in
  for_each (range 0 position0)
    (fun _ => let* l := in_readline in
              out_write l ;;;
              modify (with_o_lines (fun n => n + 1)%Z) ;;;
              modify (with_i_lines (fun n => n + 1)%Z)) ;;;
  for_each hunk apply_line ;;;
  let* pos := in_tell in
  modify (with_i_pos (fun _ => pos)) ;;;
  ret true.

(** [Patch.strip]; [strip_count] is the value of
    [self.options.get('strip')]: [None], or the int that [-p] stores (the
    option is declared with [type=int]). *)
Definition strip (strip_count : option Z) (path : string) : result string :=
  match strip_count with
  | None => Ok (os_path_basename path)
  | Some strip_count =>
      let parts := split os_path_sep path in
      if (Z.of_nat (length parts) <=? strip_count)%Z then index parts (-1)
      else Ok (join (String os_path_sep EmptyString)
                 (slice parts strip_count (Z.of_nat (length parts))))
  end.

(** *** main *)

(** [patch_source.readline()] on the lines still to be read: the empty
    string at the end of the stream. *)
Definition readline (src : list string) : string * list string :=
  match src with
  | [] => ("", [])
  | line :: src' => (line, src')
  end.

(** The inner [while True]: the lines of the hunk and the stream that is
    left; the line that ends the hunk is consumed. *)
Fixpoint read_hunk (src : list string) (hunk : list string) : list string * list string :=
  match src with
  | [] => (hunk, [])
  | line :: src' =>
      if String.eqb line "" ||
         negb (startswith "+" line || startswith "-" line || startswith " " line)
      then (hunk, src')
      else read_hunk src' (hunk ++ [line])
  end.

(** The outer [while True]; every round reads at least one line, so [fuel]
    bounds the number of rounds. *)
Fixpoint main_loop (fuel : nat) (src : list string) (garbage : list string) : M Patch unit :=
  match fuel with
  | O => raise Hang
  | S fuel' =>
      let '(line, src) := readline src in
      if String.eqb line "" then ret tt
      else if startswith "--- " line then
        (if is_nonempty garbage
         then note ("The text leading up to this was:" +:+ nl +:+ String.concat "" garbage)
         else ret tt) ;;;
        let* h := gets hunk in
        note ("Applying unified diff hunk #" +:+ str h +:+ nl) ;;;
        let i_start := 1%Z in
        let o_start := 1%Z in
        let '(hunk, src) := read_hunk src [] in
        apply i_start o_start hunk ;;;
        modify (with_hunk (fun n => n + 1)%Z) ;;;
        main_loop fuel' src []
      else main_loop fuel' src (garbage ++ [line])
  end.

(** [main] from the construction of the Patch object on, run on the first
    set of parsed options and the lines of the patch file.  The result is
    the exception that ends the program and the final state of the
    object. *)
Definition main (parsed_options : gmap string pyval) (patch_source : list string)
  : result unit * Patch :=
  (main_loop (S (length patch_source)) patch_source [] ;;;
   let* rejects := gets rejects in
   (if is_nonempty rejects then raise (SystemExit EX_REJECTS) else ret tt) ;;;
   raise (SystemExit EX_SUCCESS)) (new_Patch parsed_options "").

(** What [vars(parser.parse_args(opts))] holds when no option is given. *)
Definition default_options : gmap string pyval :=
  list_to_map
    [("files", VList []); ("suffix", VNone); ("prefix", VNone);
     ("context", VBool false); ("check", VBool false); ("directory", VNone);
     ("ifdef", VNone); ("ed", VBool false); ("remove_empty_files", VBool false);
     ("force", VBool false); ("batch", VBool false); ("fuzz", VInt 2);
     ("ignore_whitespace", VBool false); ("normal", VBool false);
     ("forward", VBool false); ("output", VNone); ("strip", VNone);
     ("reject_file", VNone); ("reverse", VBool false); ("quiet", VBool false);
     ("skip", VBool false); ("unified", VBool false); ("version", VBool false);
     ("version_control", VNone)].

End Patch.

(** ** Vocabulary of the properties

    What it means to apply an edit script, and the length of a longest
    common subsequence; the programs have no counterpart of either. *)

Module Script.
Import Diff.

(** The state of an application of a script to [a]: how many lines of [a]
    are consumed and the lines of the result produced so far. *)
Definition state : Type := nat * list string.

(** One operation.  [('-', k)] copies the lines of [a] before index [k]
    that are still unread and drops line [k]; [('+', k)] copies lines of
    [a] until the result has [k] lines and then appends line [k] of [b]. *)
Definition exec_op (a b : list string) (st : state) (op : edit) : option state :=
  let '(i, out) := st in
  match op with
  | (Minus, k) =>
      if (i <=? k) && (k <? length a)
      then Some (S k, out ++ take (k - i) (drop i a))
      else None
  | (Plus, k) =>
      let n := length out in
      if (n <=? k) && (i + (k - n) <=? length a)
      then match b !! k with
           | Some x => Some (i + (k - n), out ++ take (k - n) (drop i a) ++ [x])
           | None => None
           end
      else None
  end.

Fixpoint exec (a b : list string) (ops : list edit) (st : state) : option state :=
  match ops with
  | [] => Some st
  | op :: ops' =>
      match exec_op a b st op with
      | Some st' => exec a b ops' st'
      | None => None
      end
  end.

(** Applying a script to [a]: after the last operation the rest of [a] is
    copied. *)
Definition apply_script (a b : list string) (ops : list edit) : option (list string) :=
  match exec a b ops (0, []) with
  | Some (i, out) => Some (out ++ drop i a)
  | None => None
  end.

(** The length of a longest common subsequence of the first [i] lines of
    [a] and the first [j] lines of [b]. *)
Fixpoint lcs_len (a b : list string) (i : nat) {struct i} : nat -> nat :=
  match i with
  | O => fun _ => 0
  | S i' =>
      fix row (j : nat) : nat :=
        match j with
        | O => 0
        | S j' =>
            if String.eqb (a !!! i') (b !!! j')
            then 1 + lcs_len a b i' j'
            else Nat.max (row j') (lcs_len a b i' (S j'))
        end
  end.

(** Counting the operations of each direction. *)
Definition count_sign (s : sign) (ops : list edit) : nat :=
  length (List.filter (fun op : edit => sign_eqb (fst op) s) ops).

(** The scripts the backtracking loop of [diff] can build for the prefixes
    of lengths [i] and [j], in the order of the lines: a step back over an
    equal pair adds nothing, a step back in [b] adds an insert and a step
    back in [a] adds a delete, each where the table allows it. *)
Inductive script (a b : list string) : nat -> nat -> list edit -> Prop :=
| script_nil : script a b 0 0 []
| script_keep i j ops :
    i < length a -> j < length b -> a !!! i = b !!! j ->
    script a b i j ops -> script a b (S i) (S j) ops
| script_ins i j ops :
    j < length b -> lcs_len a b i (S j) = lcs_len a b i j ->
    script a b i j ops -> script a b i (S j) (ops ++ [(Plus, j)])
| script_del i j ops :
    i < length a -> lcs_len a b (S i) j = lcs_len a b i j ->
    script a b i j ops -> script a b (S i) j (ops ++ [(Minus, i)]).

(** The invariant of the two loops of [lcs_matrix]: the table has the
    right shape, the rows below [i] are complete, row [i] is complete up to
    column [j], and every other cell still holds [0]. *)
Definition shaped (a b : list string) (m : matrix) : Prop :=
  length m = S (length a) /\ forall i, i <= length a -> length (m !!! i) = S (length b).

Definition filled (i j i' j' : nat) : bool :=
  (i' <? i) || ((i' =? i) && (j' <=? j)).

Definition table_inv (a b : list string) (m : matrix) (i j : nat) : Prop :=
  shaped a b m /\
  forall i' j', i' <= length a -> j' <= length b ->
    mget m i' j' = if filled i j i' j' then lcs_len a b i' j' else 0.

End Script.

(** The runs of a list of changes: [runs prev rest] splits [prev :: rest]
    wherever two neighbours fail the continuity test, and returns the first
    run and the others. *)
Module Runs.
Import Diff.

Fixpoint runs (prev : edit) (rest : list edit) : list edit * list (list edit) :=
  match rest with
  | [] => ([prev], [])
  | curr :: rest' =>
      let '(blk, bs) := runs curr rest' in
      if continuous prev curr then (prev :: blk, bs) else ([prev], blk :: bs)
  end.

(** Every two neighbours of the list pass the continuity test. *)
Fixpoint chained (prev : edit) (l : list edit) : bool :=
  match l with
  | [] => true
  | curr :: l' => continuous prev curr && chained curr l'
  end.

Fixpoint last_of (prev : edit) (l : list edit) : edit :=
  match l with
  | [] => prev
  | curr :: l' => last_of curr l'
  end.

(** A list of blocks made of maximal runs: every block is a non-empty
    chain, and the last change of a block and the first of the next fail
    the continuity test. *)
Fixpoint maximal_runs (bs : list (list edit)) : Prop :=
  match bs with
  | [] => True
  | blk :: bs' =>
      match blk with
      | [] => False
      | c :: l =>
          chained c l = true /\
          match bs' with
          | (d :: _) :: _ => continuous (last_of c l) d = false
          | _ => True
          end
      end /\ maximal_runs bs'
  end.

End Runs.

(** What [find_match] compares: each context line of the hunk against the
    line of the file at the same distance from the start, both stripped;
    past the end of the file the line read is empty. *)
Module Matching.

Fixpoint context_matches (context_lines file_lines : list string) : bool :=
  match context_lines with
  | [] => true
  | line :: rest =>
      String.eqb (strip line) (strip (hd "" file_lines)) &&
      context_matches rest (tl file_lines)
  end.

End Matching.

(** What the unified renderer reads of a hunk: which lines its blocks
    remove and insert, how many lines of a range they leave unchanged, and
    when the two sides of the hunk agree on that number. *)
Module Unified.
Import Diff.

Definition removed (h : Hunk) (i : Z) : bool :=
  existsb (fun c => (i =? item_no c)%Z) (flat_map removes (blocks h)).

Definition inserted (h : Hunk) (i : Z) : bool :=
  existsb (fun c => (i =? item_no c)%Z) (flat_map inserts (blocks h)).

(** The number of lines from [lo] to [hi] that are not changed. *)
Definition unchanged (changed : Z -> bool) (lo hi : Z) : nat :=
  length (List.filter (fun i => negb (changed i)) (range lo (hi + 1))).

Definition balanced (h : Hunk) : Prop :=
  unchanged (removed h) (start1 h) (end1 h)
  = unchanged (inserted h) (start2 h) (end2 h).

(** Both ranges of the hunk lie inside the files. *)
Definition in_files (h : Hunk) (f1 f2 : list string) : Prop :=
  (0 <= start1 h /\ end1 h < Z.of_nat (length f1) /\
   0 <= start2 h /\ end2 h < Z.of_nat (length f2))%Z.

(** A bound on the rounds the rendering loop still makes from [i1] and
    [i2]. *)
Definition remaining (h : Hunk) (i1 i2 : Z) : nat :=
  Z.to_nat (end1 h + 1 - i1) + Z.to_nat (end2 h + 1 - i2).

(** The header line for a hunk both of whose ranges have a length. *)
Definition header (h : Hunk) : string :=
  "@@ -" +:+ (str (start1 h + 1) +:+ "," +:+ str (end1 h - start1 h + 1)) +:+
  " +" +:+ (str (start2 h + 1) +:+ "," +:+ str (end2 h - start2 h + 1)) +:+ " @@".

End Unified.

(** The order in which hunks are produced and printed.  A block of the
    comparator is described by its sign, its first index and its number of
    changes; [track] follows a script through the two files by numbers
    alone: the lines of [a] consumed and the lines of the result
    produced. *)
Module Order.
Import Diff.

Definition descr : Type := sign * nat * nat.

Definition block_of (d : descr) : list edit :=
  let '(s, k, n) := d in map (fun x => (s, x)) (seq k n).

Definition size (d : descr) : nat := snd d.

(** What the block adds to [file_length_difference]. *)
Definition delta (d : descr) : Z :=
  match d with
  | (Plus, _, n) => Z.of_nat n
  | (Minus, _, n) => - Z.of_nat n
  end.

(** The hunk [Hunk.__init__] builds from the block without context when
    [file_length_difference] is [fld]. *)
Definition hunk_of (fld : Z) (d : descr) : Hunk :=
  match d with
  | (Minus, k, n) =>
      {| start1 := Z.of_nat k; end1 := Z.of_nat (k + n - 1);
         start2 := Z.of_nat k + fld;
         end2 := Z.of_nat (k + n - 1) + (fld - Z.of_nat n);
         blocks := [new_Block (block_of d)] |}
  | (Plus, k, n) =>
      {| start1 := Z.of_nat k - fld;
         end1 := Z.of_nat (k + n - 1) - (fld + Z.of_nat n);
         start2 := Z.of_nat k; end2 := Z.of_nat (k + n - 1);
         blocks := [new_Block (block_of d)] |}
  end.

Fixpoint hunks_of (fld : Z) (ds : list descr) : list Hunk :=
  match ds with
  | [] => []
  | d :: ds' => hunk_of fld d :: hunks_of (fld + delta d) ds'
  end.

Definition track_op (st : nat * nat) (op : edit) : option (nat * nat) :=
  let '(i, n) := st in
  match op with
  | (Minus, k) => if i <=? k then Some (S k, n + (k - i)) else None
  | (Plus, k) => if n <=? k then Some (i + (k - n), S k) else None
  end.

Fixpoint track (ops : list edit) (st : nat * nat) : option (nat * nat) :=
  match ops with
  | [] => Some st
  | op :: ops' =>
      match track_op st op with
      | Some st' => track ops' st'
      | None => None
      end
  end.

(** Hunks in the order of the first file: each starts at or after line
    [lo], ends no earlier than the line before its start, and the next one
    starts after its end. *)
Fixpoint in_file_order (lo : Z) (hs : list Hunk) : Prop :=
  match hs with
  | [] => True
  | h :: hs' =>
      (lo <= start1 h)%Z /\ (start1 h <= end1 h + 1)%Z /\
      in_file_order (end1 h + 1) hs'
  end.

(** The hunks the main loop has flushed, and the one it holds, after it has
    built the hunks [hs] one by one without merging, starting with [old]
    pending. *)
Definition olist (old : option Hunk) : list Hunk :=
  match old with
  | Some h => [h]
  | None => []
  end.

Fixpoint flushed (old : option Hunk) (hs : list Hunk) : list Hunk :=
  match hs with
  | [] => []
  | h :: hs' => olist old ++ flushed (Some h) hs'
  end.

Fixpoint pending (old : option Hunk) (hs : list Hunk) : option Hunk :=
  match hs with
  | [] => old
  | h :: hs' => pending (Some h) hs'
  end.

(** The world after [text] has been printed. *)
Definition append_out (w : world) (text : string) : world :=
  {| file_length_difference := file_length_difference w;
     ed_hunks := ed_hunks w;
     stdout := stdout w +:+ text |}.

(** The value of [file_length_difference] after the blocks. *)
Definition fld_after (fld : Z) (ds : list descr) : Z :=
  fold_left (fun z d => (z + delta d)%Z) ds fld.

(** The world with another value of [file_length_difference]. *)
Definition set_fld (w : world) (fld : Z) : world :=
  {| file_length_difference := fld; ed_hunks := ed_hunks w; stdout := stdout w |}.

(** A computation that only prints, and prints the same whatever the
    world. *)
Definition writes {A} (m : M world A) : Prop :=
  exists r text, forall w, m w = (r, append_out w text).

End Order.

(** ** Concrete runs *)

Module Scenario.
Import Diff.

(** No option: the normal format. *)
Definition plain : options :=
  {| opt_C := None; opt_c := false; opt_e := false; opt_f := false;
     opt_q := false; opt_s := false; opt_U := None; opt_u := false |}.

(** [-u], [-e] and [-f]. *)
Definition with_u : options :=
  {| opt_C := None; opt_c := false; opt_e := false; opt_f := false;
     opt_q := false; opt_s := false; opt_U := None; opt_u := true |}.

Definition with_e : options :=
  {| opt_C := None; opt_c := false; opt_e := true; opt_f := false;
     opt_q := false; opt_s := false; opt_U := None; opt_u := false |}.

Definition with_f : options :=
  {| opt_C := None; opt_c := false; opt_e := false; opt_f := true;
     opt_q := false; opt_s := false; opt_U := None; opt_u := false |}.

(** Two files named [old] and [new] with the given lines. *)
Definition files (a b : list string) : inputs :=
  {| file1 := "old"; file2 := "new";
     lines1 := readlines (unlines a); lines2 := readlines (unlines b);
     mtime1 := "2024-01-01 00:00:00"; mtime2 := "2024-01-02 00:00:00" |}.

(** The text a run prints. *)
Definition printed (r : result unit * world) : string := stdout (snd r).

(** A file of [n] lines [l1], [l2], ... *)
Definition numbered (n : nat) : list string :=
  map (fun k => "l" +:+ pretty k) (seq 1 n).

(** The number of hunks a unified rendering shows. *)
Definition hunk_headers (text : string) : nat :=
  length (List.filter (startswith "@@") (readlines text)).

(** The options of [patch.py] when no option is given, with an input handle
    on a file of the given lines and an output handle on an empty file. *)
Definition with_handles (buffer : list string) : gmap string Patch.pyval :=
  <["o_fh" := Patch.VOut {| Patch.written := "" |}]>
    (<["i_fh" := Patch.VIn {| Patch.in_lines := readlines (unlines buffer);
                              Patch.in_pos := 0 |}]> Patch.default_options).

(** What has been written to the output handle. *)
Definition output (p : Patch.Patch) : option Patch.pyval := Patch.options p !! "o_fh".

End Scenario.

(** ** Vocabulary of the further properties *)

(** The indices of the changes of one sign, in the order of the script,
    and the file a sign indexes: [-] the first, [+] the second. *)
Module Changes.
Import Diff.

Definition indices (s : sign) (ops : list edit) : list nat :=
  map snd (List.filter (fun op : edit => sign_eqb (fst op) s) ops).

Definition side {A} (s : sign) (a b : A) : A :=
  match s with
  | Minus => a
  | Plus => b
  end.

(** The sum of the [length_diff] of the blocks made of the chunks. *)
Definition total_length_diff (chunks : list (list edit)) : Z :=
  foldr Z.add 0%Z (map (fun chunk => length_diff (new_Block chunk)) chunks).

End Changes.

(** What the formats without context print for a block of the comparator.
    A block is stamped with the value of [file_length_difference] at the
    time its hunk is made: the lines inserted less the lines deleted by
    the blocks before it. *)
Module Render.
Import Diff Order.

Fixpoint stamps (fld : Z) (ds : list descr) : list (Z * descr) :=
  match ds with
  | [] => []
  | d :: ds' => (fld, d) :: stamps (fld + delta d) ds'
  end.

(** A range of line numbers: [lo,hi], or [hi] alone when the range holds
    one line or none. *)
Definition range_text (lo hi : Z) : string :=
  if (lo <? hi)%Z then str lo +:+ "," +:+ str hi else str hi.

(** The lines [k] to [k + n - 1] of a file (counted from 0), each after
    [prefix] and ended by a newline. *)
Definition lines_text (prefix : string) (f : list string) (k n : nat) : string :=
  String.concat "" (map (fun l => (prefix +:+ l) +:+ nl) (take n (drop k f))).

(** The normal format: [N1,N2dM] and the deleted lines after [< ], or
    [NaM1,M2] and the inserted lines after [> ]. *)
Definition normal_text (f1 f2 : list string) (st : Z * descr) : string :=
  match st with
  | (fld, (Minus, k, n)) =>
      (range_text (Z.of_nat k + 1) (Z.of_nat (k + n)) +:+ "d" +:+
       str (Z.of_nat k + fld)) +:+ nl +:+ lines_text "< " f1 k n
  | (fld, (Plus, k, n)) =>
      (str (Z.of_nat k - fld) +:+ "a" +:+
       range_text (Z.of_nat k + 1) (Z.of_nat (k + n))) +:+ nl +:+
      lines_text "> " f2 k n
  end.

(** The ed format: [N1,N2d], or [Na], the inserted lines and a dot. *)
Definition ed_text (f2 : list string) (st : Z * descr) : string :=
  match st with
  | (fld, (Minus, k, n)) =>
      (range_text (Z.of_nat k + 1) (Z.of_nat (k + n)) +:+ "d") +:+ nl
  | (fld, (Plus, k, n)) =>
      (str (Z.of_nat k - fld) +:+ "a") +:+ nl +:+
      lines_text "" f2 k n +:+ "." +:+ nl
  end.

(** The reverse ed format: the action first, and the range with a space
    for its comma. *)
Definition reverse_ed_text (f2 : list string) (st : Z * descr) : string :=
  match st with
  | (fld, (Minus, k, n)) =>
      ("d" +:+ replace_char "," " "
                 (range_text (Z.of_nat k + 1) (Z.of_nat (k + n)))) +:+ nl
  | (fld, (Plus, k, n)) =>
      ("a" +:+ replace_char "," " " (str (Z.of_nat k - fld))) +:+ nl +:+
      lines_text "" f2 k n +:+ "." +:+ nl
  end.

(** A block that names lines of its file. *)
Definition fits (f1 f2 : list string) (d : descr) : Prop :=
  let '(s, k, n) := d in
  1 <= n /\ k + n <= length (Changes.side s f1 f2).

(** What a flushed hunk prints in the two formats that print it at once. *)
Definition text (ty : diff_type) (f1 f2 : list string) (st : Z * descr) : string :=
  match ty with
  | OLD => normal_text f1 f2 st
  | REVERSE_ED => reverse_ed_text f2 st
  | _ => ""
  end.

End Render.

(** What the body of a unified hunk holds: the text of its lines that
    start with a given mark, the text of its lines that do not start with
    [+], and the lines of a file at given indices. *)
Module Body.
Import Diff.




End Body.

(** Reading [n] lines from a pushback file, and pushing lines back one
    after the other. *)
Module Stream.
Import Patch.

Fixpoint read_n (n : nat) (pf : PushbackFile.t) : list string * PushbackFile.t :=
  match n with
  | O => ([], pf)
  | S n' =>
      let '(line, pf') := PushbackFile.readline pf in
      let '(lines, pf'') := read_n n' pf' in
      (line :: lines, pf'')
  end.

Definition unread_all (lines : list string) (pf : PushbackFile.t) : PushbackFile.t :=
  foldl (fun pf line => PushbackFile.unread line pf) pf lines.

End Stream.

(** The lines [main] takes for the lines of a hunk, the type specifiers
    of [patch], and whether an option set gives one. *)
Module Marks.
Import Patch.

Definition hunk_line (line : string) : bool :=
  startswith "+" line || startswith "-" line || startswith " " line.

(** The lines of the patch before the first line that starts with
    [--- ]. *)
Fixpoint leading (src : list string) : list string :=
  match src with
  | [] => []
  | line :: src' => if startswith "--- " line then [] else line :: leading src'
  end.

(** What [main] adds to the text [err] of standard error when it meets a
    header: the lines read since the last hunk, if any, and the number of
    the hunk. *)
Definition announcement (garbage : list string) (hunk : Z) (err : string) : string :=
  (if is_nonempty garbage
   then err +:+ ("The text leading up to this was:" +:+ nl +:+ String.concat "" garbage)
   else err) +:+ ("Applying unified diff hunk #" +:+ str hunk +:+ nl).

Definition specifiers : list string := ["context"; "ed"; "normal"; "unified"].

Definition given (opts : gmap string pyval) (t : string) : bool :=
  truthy (default VNone (opts !! t)).

End Marks.

(** What the reads of [find_match] leave of a Patch object: every
    attribute that [apply] goes on to use, the output handle, and an input
    handle in the options. *)
Module Frame.
Import Patch.

Definition keeps (p p' : Patch) : Prop :=
  ifdef p' = ifdef p /\ i_lines p' = i_lines p /\ o_lines p' = o_lines p /\
  hunk p' = hunk p /\ rejects p' = rejects p /\
  options p' !! "o_fh" = options p !! "o_fh" /\
  options p' !! "silent" = options p !! "silent" /\
  exists f', options p' !! "i_fh" = Some (VIn f').

(** The lines of a hunk that [apply] writes, and those it counts as lines
    of the input. *)
Definition new_line (line : string) : bool :=
  startswith "+" line || startswith " " line.

Definition old_line (line : string) : bool :=
  startswith "-" line || startswith " " line.

End Frame.

(** ** Strings *)

Lemma append_empty_r (s : string) : s +:+ "" = s.
Proof.
  induction s as [|c s IH]; [done|].
  change (String c s +:+ "") with (String c (s +:+ "")). by rewrite IH.
Qed.

Lemma append_assoc (s t u : string) : (s +:+ t) +:+ u = s +:+ t +:+ u.
Proof.
  induction s as [|c s IH]; [done|].
  change ((String c s +:+ t) +:+ u) with (String c ((s +:+ t) +:+ u)).
  change (String c s +:+ t +:+ u) with (String c (s +:+ t +:+ u)).
  by rewrite IH.
Qed.

(** ** The LCS table *)

Section LcsTable.
Import Diff Script.
Variables a b : list string.

Lemma lcs_len_0_r i : lcs_len a b i 0 = 0.
Proof. by destruct i. Qed.

Lemma lcs_len_S i j :
  lcs_len a b (S i) (S j) =
  if String.eqb (a !!! i) (b !!! j)
  then 1 + lcs_len a b i j
  else Nat.max (lcs_len a b (S i) j) (lcs_len a b i (S j)).
Proof. reflexivity. Qed.

Lemma mget_mset m i j v i' j' :
  i < length m -> j < length (m !!! i) ->
  mget (mset m i j v) i' j' = if decide (i = i' /\ j = j') then v else mget m i' j'.
Proof.
  intros Hi Hj. unfold mget, mset.
  destruct (decide (i = i')) as [->|Hne].
  - rewrite list_lookup_total_insert_eq by done.
    destruct (decide (j = j')) as [->|Hne'].
    + rewrite list_lookup_total_insert_eq by done.
      by rewrite decide_True.
    + rewrite list_lookup_total_insert_ne by done.
      rewrite decide_False; [done | intros [? ?]; done].
  - rewrite list_lookup_total_insert_ne by done.
    rewrite decide_False; [done | intros [? ?]; done].
Qed.

Lemma shaped_mset m i j v : shaped a b m -> shaped a b (mset m i j v).
Proof.
  intros [Hlen Hrows]. split.
  - unfold mset. by rewrite length_insert.
  - intros i' Hi'. unfold mset.
    destruct (decide (i = i')) as [->|Hne].
    + rewrite list_lookup_total_insert_eq by lia.
      rewrite length_insert. by apply Hrows.
    + rewrite list_lookup_total_insert_ne by done. by apply Hrows.
Qed.

Lemma table_inv_init :
  table_inv a b (replicate (length a + 1) (replicate (length b + 1) 0)) 0 (length b).
Proof.
  assert (Hrow : forall i, i <= length a ->
    replicate (length a + 1) (replicate (length b + 1) 0) !!! i
    = replicate (length b + 1) 0).
  { intros i Hi. apply list_lookup_total_correct, lookup_replicate_2. lia. }
  split.
  - split.
    + rewrite length_replicate. lia.
    + intros i Hi. rewrite Hrow by done. rewrite length_replicate. lia.
  - intros i' j' Hi' Hj'. unfold mget. rewrite Hrow by done.
    rewrite (list_lookup_total_correct _ _ 0) by (apply lookup_replicate_2; lia).
    unfold filled. destruct i'; simpl; [by destruct (j' <=? length b)|done].
Qed.

Lemma table_inv_next_row m i :
  table_inv a b m i (length b) -> table_inv a b m (S i) 0.
Proof.
  intros [Hs Hm]. split; [done|].
  intros i' j' Hi' Hj'. rewrite Hm by done. unfold filled.
  destruct (Nat.ltb_spec i' i), (Nat.ltb_spec i' (S i)),
    (Nat.eqb_spec i' i), (Nat.eqb_spec i' (S i)),
    (Nat.leb_spec j' (length b)), (Nat.leb_spec j' 0); simpl; try done; try lia.
  assert (j' = 0) as -> by lia. by rewrite lcs_len_0_r.
Qed.

Lemma table_inv_cell m i j :
  i < length a -> j < length b ->
  table_inv a b m (S i) j -> table_inv a b (lcs_cell a b (S i) m (S j)) (S i) (S j).
Proof.
  intros Hi Hj [Hs Hm].
  assert (Hget : forall v i' j', i' <= length a -> j' <= length b ->
    mget (mset m (S i) (S j) v) i' j'
    = if filled (S i) (S j) i' j'
      then (if decide (S i = i' /\ S j = j') then v else lcs_len a b i' j')
      else 0).
  { intros v i' j' Hi' Hj'. destruct Hs as [Hl Hr].
    rewrite mget_mset by (rewrite ?Hr; lia). rewrite Hm by done.
    unfold filled. case_decide as Hd.
    - destruct Hd as [<- <-]. rewrite Nat.eqb_refl, Nat.leb_refl.
      by rewrite orb_true_r.
    - destruct (Nat.ltb_spec i' (S i)), (Nat.eqb_spec i' (S i)),
        (Nat.leb_spec j' j), (Nat.leb_spec j' (S j)); simpl; try done; lia. }
  assert (H00 : mget m i j = lcs_len a b i j).
  { rewrite Hm by lia. unfold filled.
    by destruct (Nat.ltb_spec i (S i)); [|lia]. }
  assert (H10 : mget m (S i) j = lcs_len a b (S i) j).
  { rewrite Hm by lia. unfold filled.
    rewrite Nat.eqb_refl, Nat.leb_refl. by rewrite orb_true_r. }
  assert (H01 : mget m i (S j) = lcs_len a b i (S j)).
  { rewrite Hm by lia. unfold filled.
    by destruct (Nat.ltb_spec i (S i)); [|lia]. }
  unfold lcs_cell.
  replace (S i - 1) with i by lia. replace (S j - 1) with j by lia.
  split.
  - destruct (String.eqb _ _); by apply shaped_mset.
  - intros i' j' Hi' Hj'.
    destruct (String.eqb (a !!! i) (b !!! j)) eqn:E; rewrite Hget by done;
      destruct (filled (S i) (S j) i' j'); try done;
      case_decide as Hd; try done; destruct Hd as [<- <-];
      rewrite lcs_len_S, E, ?H00, ?H10, ?H01; done.
Qed.

Lemma foldl_seq_inv {A} (P : nat -> A -> Prop) (f : A -> nat -> A) (x : A) (n : nat) :
  P 0 x ->
  (forall k y, k < n -> P k y -> P (S k) (f y (S k))) ->
  P n (foldl f x (seq 1 n)).
Proof.
  induction n as [|n IH]; intros H0 Hstep; [done|].
  rewrite seq_S, foldl_snoc. apply Hstep; [lia|].
  apply IH; [done|]. intros k y Hk. apply Hstep. lia.
Qed.

Lemma table_inv_row m i :
  i < length a -> table_inv a b m i (length b) ->
  table_inv a b (lcs_row a b m (S i)) (S i) (length b).
Proof.
  intros Hi Hm. unfold lcs_row.
  apply (foldl_seq_inv (fun j m' => table_inv a b m' (S i) j)).
  - by apply table_inv_next_row.
  - intros j m' Hj. by apply table_inv_cell.
Qed.

Lemma table_inv_lcs_matrix : table_inv a b (lcs_matrix a b) (length a) (length b).
Proof.
  unfold lcs_matrix.
  apply (foldl_seq_inv (fun i m' => table_inv a b m' i (length b))).
  - apply table_inv_init.
  - intros i m' Hi. by apply table_inv_row.
Qed.

(** Every cell of the table that [lcs_matrix] returns holds the length of a
    longest common subsequence of the two prefixes. *)
Lemma lcs_matrix_spec i j :
  i <= length a -> j <= length b -> mget (lcs_matrix a b) i j = lcs_len a b i j.
Proof.
  intros Hi Hj. destruct table_inv_lcs_matrix as [_ Hm].
  rewrite Hm by done. unfold filled.
  destruct (Nat.ltb_spec i (length a)); [done|].
  assert (i = length a) as -> by lia.
  rewrite Nat.eqb_refl. by destruct (Nat.leb_spec j (length b)); [|lia].
Qed.

End LcsTable.

(** ** The backtracking loop builds a minimal script *)

Section Comparator.
Import Diff Script.
Variables a b : list string.

Lemma sublist_snoc_inv {A} (s k : list A) (x : A) :
  s `sublist_of` k ++ [x] ->
  s `sublist_of` k \/ exists s', s = s' ++ [x] /\ s' `sublist_of` k.
Proof.
  intros (l1 & l2 & -> & H1 & H2)%sublist_app_r.
  inversion H2 as [|? ? ? H3|? ? ? H3]; subst.
  - apply sublist_nil_r in H3 as ->. right. by exists l1.
  - apply sublist_nil_r in H3 as ->. left. by rewrite app_nil_r.
Qed.

Lemma take_S_total (l : list string) n :
  n < length l -> take (S n) l = take n l ++ [l !!! n].
Proof.
  intros Hn. destruct (lookup_lt_is_Some_2 l n Hn) as [x Hx].
  rewrite (list_lookup_total_correct _ _ _ Hx). by apply take_S_r.
Qed.

(** No common subsequence of two prefixes is longer than [lcs_len]. *)
Lemma lcs_len_upper i : forall j s,
  i <= length a -> j <= length b ->
  s `sublist_of` take i a -> s `sublist_of` take j b ->
  length s <= lcs_len a b i j.
Proof.
  induction i as [|i IHi]; intros j s Hi Hj Ha Hb.
  { apply sublist_nil_r in Ha as ->. simpl. lia. }
  induction j as [|j IHj] in s, Hj, Ha, Hb |- *.
  { apply sublist_nil_r in Hb as ->. simpl. lia. }
  rewrite lcs_len_S.
  rewrite take_S_total in Ha by lia. rewrite take_S_total in Hb by lia.
  destruct (String.eqb_spec (a !!! i) (b !!! j)) as [E|E].
  - apply sublist_snoc_inv in Hb as [Hb|(t & -> & Hb)].
    + apply sublist_snoc_inv in Ha as [Ha|(t & -> & Ha)].
      * pose proof (IHi j s ltac:(lia) ltac:(lia) Ha Hb). lia.
      * assert (Ht : t `sublist_of` take j b).
        { etrans; [|exact Hb]. by apply sublist_inserts_r. }
        pose proof (IHi j t ltac:(lia) ltac:(lia) Ha Ht).
        rewrite length_app. simpl. lia.
    + assert (Ht : t `sublist_of` take i a).
      { apply sublist_snoc_inv in Ha as [Ha|(t' & Heq & Ha)].
        - etrans; [|exact Ha]. by apply sublist_inserts_r.
        - by apply app_inj_tail in Heq as [-> _]. }
      pose proof (IHi j t ltac:(lia) ltac:(lia) Ht Hb).
      rewrite length_app. simpl. lia.
  - apply sublist_snoc_inv in Ha as [Ha|(t & -> & Ha)].
    + assert (length s <= lcs_len a b i (S j)); [|lia].
      apply IHi; [lia|lia|done|]. by rewrite take_S_total by lia.
    + apply sublist_snoc_inv in Hb as [Hb|(t' & Heq & Hb)].
      * assert (length (t ++ [a !!! i]) <= lcs_len a b (S i) j); [|lia].
        apply IHj; [lia| |done].
        rewrite take_S_total by lia. by apply sublist_app.
      * by apply app_inj_tail in Heq as [_ ?].
Qed.

Lemma script_bounds i j ops : script a b i j ops -> i <= length a /\ j <= length b.
Proof. induction 1; lia. Qed.

Lemma script_length i j ops :
  script a b i j ops -> length ops + 2 * lcs_len a b i j = i + j.
Proof.
  induction 1 as [|i j ops Hi Hj E _ IH|i j ops Hj E _ IH|i j ops Hi E _ IH].
  - done.
  - rewrite lcs_len_S, E, String.eqb_refl. lia.
  - rewrite length_app, E. simpl. lia.
  - rewrite length_app, E. simpl. lia.
Qed.

(** The loop terminates within [i + j] rounds and returns such a script,
    reversed, after what it was given. *)
Lemma diff_loop_script fuel : forall i j acc,
  i <= length a -> j <= length b -> i + j <= fuel ->
  exists ops, script a b i j ops /\
    diff_loop fuel a b (lcs_matrix a b) i j acc = Some (acc ++ rev ops).
Proof.
  induction fuel as [|fuel IH]; intros i j acc Hi Hj Hf.
  { assert (i = 0) as -> by lia. assert (j = 0) as -> by lia.
    exists []. split; [constructor|]. simpl. by rewrite app_nil_r. }
  destruct i as [|i], j as [|j].
  - exists []. split; [constructor|]. simpl. by rewrite app_nil_r.
  - simpl diff_loop. rewrite Nat.sub_0_r.
    destruct (IH 0 j (acc ++ [(Plus, j)])) as (ops & Hs & ->); [lia..|].
    exists (ops ++ [(Plus, j)]). split.
    + by constructor.
    + by rewrite rev_unit, <- app_assoc.
  - simpl diff_loop. rewrite Nat.sub_0_r.
    destruct (IH i 0 (acc ++ [(Minus, i)])) as (ops & Hs & ->); [lia..|].
    exists (ops ++ [(Minus, i)]). split.
    + constructor; [lia| |done]. by rewrite !lcs_len_0_r.
    + by rewrite rev_unit, <- app_assoc.
  - cbn [diff_loop]. replace (S i - 1) with i by lia. replace (S j - 1) with j by lia.
    rewrite !lcs_matrix_spec by lia.
    change (0 <? S i) with true. change (0 <? S j) with true.
    change (S i =? 0) with false. change (S j =? 0) with false.
    cbn [orb andb].
    destruct (String.eqb_spec (a !!! i) (b !!! j)) as [E|E].
    { destruct (IH i j acc) as (ops & Hs & ->); [lia..|].
      exists ops. split; [|done]. constructor; [lia|lia|done|done]. }
    assert (Hmax : lcs_len a b (S i) (S j)
                   = Nat.max (lcs_len a b (S i) j) (lcs_len a b i (S j))).
    { rewrite lcs_len_S. by destruct (String.eqb_spec (a !!! i) (b !!! j)). }
    destruct (Nat.leb_spec (lcs_len a b i (S j)) (lcs_len a b (S i) j)) as [L|L].
    + destruct (IH (S i) j (acc ++ [(Plus, j)])) as (ops & Hs & ->); [lia..|].
      exists (ops ++ [(Plus, j)]). split.
      * constructor; [lia|lia|done].
      * by rewrite rev_unit, <- app_assoc.
    + destruct (Nat.ltb_spec (lcs_len a b (S i) j) (lcs_len a b i (S j))); [|lia].
      destruct (IH i (S j) (acc ++ [(Minus, i)])) as (ops & Hs & ->); [lia..|].
      exists (ops ++ [(Minus, i)]). split.
      * constructor; [lia|lia|done].
      * by rewrite rev_unit, <- app_assoc.
Qed.

Lemma exec_app ops1 ops2 st :
  exec a b (ops1 ++ ops2) st =
  match exec a b ops1 st with
  | Some st' => exec a b ops2 st'
  | None => None
  end.
Proof.
  induction ops1 as [|op ops1 IH] in st |- *; [done|].
  simpl. by destruct (exec_op a b st op).
Qed.

Lemma take_drop_S (l : list string) i0 i :
  i0 <= i -> i < length l ->
  take (S i - i0) (drop i0 l) = take (i - i0) (drop i0 l) ++ [l !!! i].
Proof.
  intros H1 H2. replace (S i - i0) with (S (i - i0)) by lia.
  rewrite take_S_total by (rewrite length_drop; lia).
  f_equal. f_equal. rewrite !list_lookup_total_alt, lookup_drop.
  f_equal. f_equal. lia.
Qed.

(** Running a script of the loop consumes a prefix of [a]; together with
    the lines of [a] it has not copied yet, its output is the prefix of
    [b]. *)
Lemma script_exec i j ops :
  script a b i j ops ->
  exists i0 out, exec a b ops (0, []) = Some (i0, out) /\ i0 <= i /\
                 out ++ take (i - i0) (drop i0 a) = take j b.
Proof.
  induction 1 as [|i j ops Hi Hj E Hs IH|i j ops Hj E Hs IH|i j ops Hi E Hs IH].
  - by exists 0, [].
  - destruct IH as (i0 & out & He & Hle & Hout).
    exists i0, out. split; [done|]. split; [lia|].
    rewrite take_drop_S by lia. rewrite app_assoc, Hout, E.
    by rewrite (take_S_total b) by lia.
  - destruct IH as (i0 & out & He & Hle & Hout).
    destruct (script_bounds _ _ _ Hs) as [Hi _].
    assert (Hlen : length out + (i - i0) = j).
    { apply (f_equal length) in Hout.
      rewrite length_app, !length_take, length_drop in Hout. lia. }
    exists i, (take (S j) b). rewrite exec_app, He. cbn [exec exec_op].
    destruct (Nat.leb_spec (length out) j); [|lia].
    destruct (Nat.leb_spec (i0 + (j - length out)) (length a)); [|lia].
    cbn [andb]. destruct (lookup_lt_is_Some_2 b j Hj) as [x Hx]. rewrite Hx.
    replace (j - length out) with (i - i0) by lia.
    replace (i0 + (i - i0)) with i by lia. rewrite app_assoc, Hout.
    rewrite (take_S_r _ _ _ Hx). split; [done|]. split; [lia|].
    rewrite Nat.sub_diag. simpl. by rewrite app_nil_r.
  - destruct IH as (i0 & out & He & Hle & Hout).
    exists (S i), (take j b). rewrite exec_app, He. cbn [exec exec_op].
    destruct (Nat.leb_spec i0 i); [|lia].
    destruct (Nat.ltb_spec i (length a)); [|lia].
    cbn [andb]. rewrite Hout. split; [done|]. split; [lia|].
    rewrite Nat.sub_diag. simpl. by rewrite app_nil_r.
Qed.

Lemma script_apply ops :
  script a b (length a) (length b) ops -> apply_script a b ops = Some b.
Proof.
  intros (i0 & out & He & Hle & Hout)%script_exec.
  unfold apply_script. rewrite He. f_equal.
  rewrite take_ge in Hout by (rewrite length_drop; lia).
  by rewrite Hout, firstn_all.
Qed.

Lemma count_sign_total ops : count_sign Plus ops + count_sign Minus ops = length ops.
Proof.
  unfold count_sign. induction ops as [|[[] k] ops IH]; simpl in *; lia.
Qed.

(** A script that runs keeps a common subsequence of what is left of [a]
    and of what it appends. *)
Lemma exec_keeps ops : forall i out i' out',
  i <= length a ->
  exec a b ops (i, out) = Some (i', out') ->
  exists kept rest,
    out' ++ drop i' a = out ++ rest /\
    kept `sublist_of` drop i a /\ kept `sublist_of` rest /\
    length a - i = length kept + count_sign Minus ops /\
    length rest = length kept + count_sign Plus ops.
Proof.
  induction ops as [|[[] k] ops IH]; intros i out i' out' Hi He.
  - injection He as <- <-. exists (drop i a), (drop i a).
    rewrite length_drop. unfold count_sign. simpl. repeat split; try done; lia.
  - cbn [exec exec_op] in He.
    destruct (Nat.leb_spec (length out) k) as [Hk|]; [|done].
    destruct (Nat.leb_spec (i + (k - length out)) (length a)) as [Hk'|]; [|done].
    cbn [andb] in He. destruct (b !! k) as [x|] eqn:Hx; [|done].
    apply IH in He as (kept & rest & Heq & S1 & S2 & L1 & L2); [|lia].
    set (n := k - length out) in *.
    exists (take n (drop i a) ++ kept), (take n (drop i a) ++ [x] ++ rest).
    split; [by rewrite Heq, <- !app_assoc|].
    split. { rewrite <- (take_drop n (drop i a)) at 2. rewrite drop_drop.
             by apply sublist_app. }
    split. { apply sublist_app; [done|]. by apply sublist_cons. }
    rewrite !length_app, length_take, length_drop. unfold count_sign in *.
    simpl. split; lia.
  - cbn [exec exec_op] in He.
    destruct (Nat.leb_spec i k) as [Hk|]; [|done].
    destruct (Nat.ltb_spec k (length a)) as [Hk'|]; [|done].
    cbn [andb] in He.
    apply IH in He as (kept & rest & Heq & S1 & S2 & L1 & L2); [|lia].
    set (n := k - i) in *.
    exists (take n (drop i a) ++ kept), (take n (drop i a) ++ rest).
    split; [by rewrite Heq, <- !app_assoc|].
    split. { rewrite <- (take_drop n (drop i a)) at 2. rewrite drop_drop.
             apply sublist_app; [done|].
             replace (i + n) with k by lia.
             destruct (lookup_lt_is_Some_2 a k Hk') as [y Hy].
             rewrite (drop_S _ _ _ Hy). by apply sublist_cons. }
    split. { by apply sublist_app. }
    rewrite !length_app, length_take, length_drop. unfold count_sign in *.
    simpl. split; lia.
Qed.

(** Any script that turns [a] into [b] has at least
    [|a| + |b| - 2 lcs] operations. *)
Lemma apply_script_lower_bound ops :
  apply_script a b ops = Some b ->
  length a + length b <= length ops + 2 * lcs_len a b (length a) (length b).
Proof.
  unfold apply_script. intros He.
  destruct (exec a b ops (0, [])) as [[i' out']|] eqn:E; [|done].
  injection He as Hb.
  apply exec_keeps in E as (kept & rest & Heq & S1 & S2 & L1 & L2); [|lia].
  rewrite Hb in Heq. simpl in Heq. subst rest. rewrite drop_0 in S1.
  assert (length kept <= lcs_len a b (length a) (length b)).
  { apply lcs_len_upper; [done|done| |]; by rewrite firstn_all. }
  pose proof (count_sign_total ops). lia.
Qed.

End Comparator.

(** ** Grouping changes into blocks *)

Section Grouping.
Import Diff Runs.

Lemma group_loop_runs rest : forall prev blocks cur0,
  let '(bs, cur) := group_loop prev rest blocks (cur0 ++ [prev]) in
  bs ++ [cur] = blocks ++ (cur0 ++ fst (runs prev rest)) :: snd (runs prev rest).
Proof.
  induction rest as [|curr rest IH]; intros prev blocks cur0; [done|].
  cbn [group_loop runs]. destruct (runs curr rest) as [blk bs'] eqn:E.
  destruct (continuous prev curr).
  - specialize (IH curr blocks (cur0 ++ [prev])). rewrite E in IH.
    destruct (group_loop _ _ _ _) as [bs cur]. rewrite IH. simpl.
    by rewrite <- app_assoc.
  - specialize (IH curr (blocks ++ [cur0 ++ [prev]]) []). rewrite E in IH.
    simpl in IH. destruct (group_loop _ _ _ _) as [bs cur]. rewrite IH. simpl.
    by rewrite <- app_assoc.
Qed.

Lemma group_loop_current rest : forall prev blocks cur,
  is_nonempty cur = true ->
  is_nonempty (snd (group_loop prev rest blocks cur)) = true.
Proof.
  induction rest as [|curr rest IH]; intros prev blocks cur Hc; [done|].
  simpl. destruct (continuous prev curr); apply IH; [|done].
  by destruct cur.
Qed.

(** [group_blocks] returns the runs of its argument. *)
Lemma group_blocks_runs c0 rest :
  group_blocks (c0 :: rest) = fst (runs c0 rest) :: snd (runs c0 rest).
Proof.
  unfold group_blocks.
  pose proof (group_loop_runs rest c0 [] []) as H.
  pose proof (group_loop_current rest c0 [] [c0] eq_refl) as Hne.
  simpl in H. destruct (group_loop c0 rest [] [c0]) as [bs cur].
  simpl in Hne. by rewrite Hne.
Qed.

Lemma runs_concat rest : forall prev,
  fst (runs prev rest) ++ concat (snd (runs prev rest)) = prev :: rest.
Proof.
  induction rest as [|curr rest IH]; intros prev; [done|].
  simpl. specialize (IH curr). destruct (runs curr rest) as [blk bs].
  simpl in IH. destruct (continuous prev curr); simpl; by rewrite IH.
Qed.

(** The blocks, one after the other, are the changes. *)
Lemma group_blocks_concat changes : concat (group_blocks changes) = changes.
Proof.
  destruct changes as [|c0 rest]; [done|].
  rewrite group_blocks_runs. apply runs_concat.
Qed.

Lemma runs_head rest prev : exists l, fst (runs prev rest) = prev :: l.
Proof.
  destruct rest as [|curr rest]; [by exists []|].
  simpl. destruct (runs curr rest) as [blk bs].
  destruct (continuous prev curr); simpl; eauto.
Qed.

Lemma runs_maximal rest : forall prev,
  maximal_runs (fst (runs prev rest) :: snd (runs prev rest)).
Proof.
  induction rest as [|curr rest IH]; intros prev; [done|].
  cbn [runs]. specialize (IH curr).
  destruct (runs_head rest curr) as [l Hl].
  destruct (runs curr rest) as [blk bs]. simpl in Hl. subst blk.
  destruct (continuous prev curr) eqn:E; cbn [fst snd].
  - destruct IH as [[Hc Hb] IH]. split; [|done].
    split; [|done]. simpl. by rewrite E, Hc.
  - split; [|done]. by split.
Qed.

Lemma group_blocks_maximal changes : maximal_runs (group_blocks changes).
Proof.
  destruct changes as [|c0 rest]; [done|].
  rewrite group_blocks_runs. apply runs_maximal.
Qed.

End Grouping.

(** ** The comparator *)

Section DiffScript.
Import Diff Script.

(** [diff] always returns, and what it returns is a grouping of a script of
    the backtracking loop. *)
Lemma diff_script (a b : list string) :
  exists ops, script a b (length a) (length b) ops /\
              diff a b = Some (group_blocks ops).
Proof.
  destruct (diff_loop_script a b (length a + length b) (length a) (length b) [])
    as (ops & Hs & Hd); [lia..|].
  exists ops. split; [done|]. unfold diff. rewrite Hd. simpl.
  by rewrite rev_involutive.
Qed.

(** With no line in [a] the loop only inserts, one line after the other;
    with no line in [b] it only deletes. *)
Lemma script_0_l (a b : list string) j ops :
  script a b 0 j ops -> ops = map (fun k => (Plus, k)) (seq 0 j).
Proof.
  intros H. remember 0 as i eqn:Ei.
  induction H as [|i j ops Hi Hj E _ IH|i j ops Hj E _ IH|i j ops Hi E _ IH];
    try done.
  rewrite seq_S, map_app, <- IH by done. by subst.
Qed.

Lemma script_0_r (a b : list string) i ops :
  script a b i 0 ops -> ops = map (fun k => (Minus, k)) (seq 0 i).
Proof.
  intros H. remember 0 as j eqn:Ej.
  induction H as [|i j ops Hi Hj E _ IH|i j ops Hj E _ IH|i j ops Hi E _ IH];
    try done.
  rewrite seq_S, map_app, <- IH by done. by subst.
Qed.

End DiffScript.

(** ** The comparator returns a minimal edit script *)

(** C1. For every pair of line sequences [a] and [b], [diff] (with
    [lcs_matrix]) returns, and the blocks it returns, read one after the
    other, are a script of deletes and inserts that turns [a] into [b] and
    that no script turning [a] into [b] is shorter than; the script is
    empty when [a = b], consists of the inserts of every line of [b] when
    [a] is empty, and of the deletes of every line of [a] when [b] is
    empty. *)
Theorem diff_minimal_edit_script (a b : list string) :
  exists blocks,
    Diff.diff a b = Some blocks /\
    Script.apply_script a b (concat blocks) = Some b /\
    (forall ops, Script.apply_script a b ops = Some b ->
                 length (concat blocks) <= length ops) /\
    (a = b -> concat blocks = []) /\
    (a = [] -> concat blocks = map (fun j => (Diff.Plus, j)) (seq 0 (length b))) /\
    (b = [] -> concat blocks = map (fun i => (Diff.Minus, i)) (seq 0 (length a))).
Proof.
  destruct (diff_script a b) as (ops & Hs & Hd).
  exists (Diff.group_blocks ops). rewrite group_blocks_concat.
  assert (Hmin : forall ops', Script.apply_script a b ops' = Some b ->
                              length ops <= length ops').
  { intros ops' H'. apply apply_script_lower_bound in H'.
    pose proof (script_length _ _ _ _ _ Hs). lia. }
  repeat split; try done.
  - by apply script_apply.
  - intros <-.
    assert (length ops <= 0) as Hle
      by (apply (Hmin []); unfold Script.apply_script; simpl; by rewrite drop_0).
    destruct ops; [done | simpl in Hle; lia].
  - intros ->. by apply script_0_l in Hs.
  - intros ->. by apply script_0_r in Hs.
Qed.

(** ** Blocks hold changes of one direction *)

Section BlockSign.
Import Diff Runs.

Lemma chained_sign l : forall c,
  chained c l = true -> Forall (fun d : edit => fst d = fst c) l.
Proof.
  induction l as [|d l IH]; intros c H; [constructor|].
  simpl in H. apply andb_prop in H as [Hc Hl].
  assert (fst d = fst c) as Hd.
  { unfold continuous in Hc. apply andb_prop in Hc as [Hs _].
    by destruct (fst c), (fst d). }
  constructor; [done|]. rewrite <- Hd. by apply IH.
Qed.

Lemma filter_same_sign s (blk : list edit) :
  Forall (fun d : edit => fst d = s) blk ->
  List.filter (fun c => sign_eqb (c_sign c) s) (map to_change blk) = map to_change blk.
Proof.
  induction 1 as [|d blk Hd _ IH]; [done|].
  simpl. rewrite Hd, IH. by destruct s.
Qed.

Lemma filter_other_sign s t (blk : list edit) :
  s <> t ->
  Forall (fun d : edit => fst d = s) blk ->
  List.filter (fun c => sign_eqb (c_sign c) t) (map to_change blk) = [].
Proof.
  intros Hne. induction 1 as [|d blk Hd _ IH]; [done|].
  simpl. rewrite Hd, IH. by destruct s, t.
Qed.

(** A non-empty block of one direction is a pure insert or a pure delete,
    never a change. *)
Lemma op_same_sign s c l :
  Forall (fun d : edit => fst d = s) (c :: l) ->
  op (new_Block (c :: l)) = match s with Plus => "+" | Minus => "-" end.
Proof.
  intros H. unfold op, remove_count, insert_count, new_Block.
  cbn [changes].
  destruct s.
  - rewrite (filter_same_sign Plus) by done.
    rewrite (filter_other_sign Plus Minus) by done. done.
  - rewrite (filter_same_sign Minus) by done.
    rewrite (filter_other_sign Minus Plus) by done. done.
Qed.

Lemma maximal_runs_op bs :
  maximal_runs bs ->
  Forall (fun blk => op (new_Block blk) = "+" \/ op (new_Block blk) = "-") bs.
Proof.
  induction bs as [|blk bs IH]; intros H; [constructor|].
  destruct H as [Hb Hbs]. constructor; [|by apply IH].
  destruct blk as [|c l]; [done|]. destruct Hb as [Hc _].
  assert (Forall (fun d : edit => fst d = fst c) (c :: l)) as Hs.
  { constructor; [done|]. by apply chained_sign. }
  rewrite (op_same_sign (fst c)) by done. destruct (fst c); auto.
Qed.

End BlockSign.

(** C7, as the code has it.  The blocks [diff] returns are the maximal runs
    of neighbouring changes that have the same sign and indices one apart:
    a delete followed at once by an insert ends one block and starts the
    next.  So every block is a pure insert or a pure delete, no hunk of the
    normal format has the action [c], and the replacement of one line, [b]
    by [x] in [a b c], renders as the two hunks [2d1] and [2a2]. *)
Theorem blocks_are_same_sign_runs (a b : list string) :
  exists blocks,
    Diff.diff a b = Some blocks /\
    Runs.maximal_runs blocks /\
    Forall (fun blk => Diff.op (Diff.new_Block blk) = "+" \/
                       Diff.op (Diff.new_Block blk) = "-") blocks /\
    Diff.diff ["a"; "b"; "c"] ["a"; "x"; "c"]
      = Some [[(Diff.Minus, 1)]; [(Diff.Plus, 1)]] /\
    Scenario.printed
      (Diff.main Scenario.plain
         (Scenario.files ["a"; "b"; "c"] ["a"; "x"; "c"]) Diff.initial_world)
      = unlines ["2d1"; "< b"; "2a2"; "> x"].
Proof.
  destruct (diff_script a b) as (ops & _ & Hd).
  exists (Diff.group_blocks ops). split; [done|].
  pose proof (group_blocks_maximal ops) as Hm.
  split; [done|]. split; [by apply maximal_runs_op|].
  split; vm_compute; reflexivity.
Qed.

(** C7 as stated fails: the delete of [b] and the insert of [x] at the same
    place are two blocks, and the normal format shows two hunks, not the one
    hunk [2c2] with a [---] separator. *)
Lemma replacement_is_two_hunks :
  Diff.diff ["a"; "b"; "c"] ["a"; "x"; "c"]
    <> Some [[(Diff.Minus, 1); (Diff.Plus, 1)]] /\
  Scenario.printed
    (Diff.main Scenario.plain
       (Scenario.files ["a"; "b"; "c"] ["a"; "x"; "c"]) Diff.initial_world)
    <> unlines ["2c2"; "< b"; "---"; "> x"].
Proof. split; vm_compute; discriminate. Qed.

(** ** The scenario of the specification *)

(** C3, as the code has it.  For [a b c] against [a x c] the comparator
    returns two blocks, the delete of [b] (index 1, line 2) and the insert
    of [x] (index 1, line 2); with three lines of context the grouper
    merges them into one hunk over lines 1 to 3 of both files; the unified
    rendering of that hunk is the five lines [@@ -1,3 +1,3 @@], [ a],
    [-b], [+x], [ c], which the program prints after the two file
    headers. *)
Theorem scenario_unified :
  let f1 := ["a"; "b"; "c"] in
  let f2 := ["a"; "x"; "c"] in
  let hunk :=
    {| Diff.start1 := 0; Diff.end1 := 2; Diff.start2 := 0; Diff.end2 := 2;
       Diff.blocks := [Diff.new_Block [(Diff.Minus, 1)];
                       Diff.new_Block [(Diff.Plus, 1)]] |} in
  Diff.diff f1 f2 = Some [[(Diff.Minus, 1)]; [(Diff.Plus, 1)]] /\
  Diff.hunk_loop Diff.UNIFIED 3 f1 f2 [[(Diff.Minus, 1)]; [(Diff.Plus, 1)]] None
    Diff.initial_world = (Ok (Some hunk), Diff.initial_world) /\
  Diff.output_unified_diff hunk f1 f2 Diff.initial_world
    = (Ok tt,
       {| Diff.file_length_difference := 0; Diff.ed_hunks := [];
          Diff.stdout := unlines ["@@ -1,3 +1,3 @@"; " a"; "-b"; "+x"; " c"] |}) /\
  Diff.main Scenario.with_u (Scenario.files f1 f2) Diff.initial_world
    = (Raise (SystemExit 1),
       {| Diff.file_length_difference := 0; Diff.ed_hunks := [];
          Diff.stdout :=
            unlines ["--- old" +:+ Diff.tab +:+ "2024-01-01 00:00:00";
                     "+++ new" +:+ Diff.tab +:+ "2024-01-02 00:00:00";
                     "@@ -1,3 +1,3 @@"; " a"; "-b"; "+x"; " c"] |}).
Proof. repeat split; vm_compute; reflexivity. Qed.

(** C3 as stated fails at its first part: the comparator and the grouper do
    not make one block of the delete and the insert. *)
Lemma scenario_has_two_blocks :
  Diff.diff ["a"; "b"; "c"] ["a"; "x"; "c"]
    = Some [[(Diff.Minus, 1)]; [(Diff.Plus, 1)]] /\
  length [[(Diff.Minus, 1)]; [(Diff.Plus, 1)]] <> 1.
Proof. split; [vm_compute; reflexivity | discriminate]. Qed.

(** ** Merging hunks *)

Section Merge.
Import Diff.

Lemma does_overlap_spec (hunk old : Hunk) :
  does_overlap hunk (Some old) = true <->
  (start1 hunk - end1 old <= 1 \/ start2 hunk - end2 old <= 1)%Z.
Proof.
  unfold does_overlap. rewrite orb_true_iff, !Z.leb_le. tauto.
Qed.

(** The hunk [new_Hunk] returns is the value of [flag_context]: with a
    positive context its range lies inside the two files. *)
Lemma new_Hunk_clamped piece context_lines f1 f2 w hunk w' :
  new_Hunk piece context_lines f1 f2 w = (Ok hunk, w') ->
  (0 < context_lines)%Z ->
  (0 <= start1 hunk /\ 0 <= start2 hunk /\
   end1 hunk <= Z.of_nat (length f1) - 1 /\
   end2 hunk <= Z.of_nat (length f2) - 1)%Z.
Proof.
  unfold new_Hunk, bind, gets, modify, lift, ret. cbn [fst snd].
  intros H Hc.
  repeat match type of H with
         | context [match ?r with Ok _ => _ | Raise _ => _ end] =>
             destruct r; cbn [rbind] in H; [|discriminate]
         | context [if ?c then _ else _] => destruct c; cbn [rbind] in H
         end;
    injection H as <- _; unfold flag_context;
    destruct (Z.eqb_spec context_lines 0); try lia; cbn; lia.
Qed.

Lemma hunk_step_unfold ty context_lines f1 f2 old piece w :
  hunk_step ty context_lines f1 f2 (Some old) piece w =
  match new_Hunk piece context_lines f1 f2 w with
  | (Ok hunk, w') =>
      (if (0 <? context_lines)%Z && does_overlap hunk (Some old)
       then ret (Some (prepend_hunk hunk old))
       else output_hunk ty old f1 f2 ;;; ret (Some hunk)) w'
  | (Raise e, w') => (Raise e, w')
  end.
Proof. reflexivity. Qed.

End Merge.

(** C5, as the code has it.  Blocks are processed left to right; the hunk
    built from the next block has its context clamped to the two files;
    when the context length is positive and that hunk starts within one
    line of the end of the pending hunk, in the first or in the second
    file, the two are merged (the start of the pending hunk, the end of the
    new one, the blocks of both) and nothing is printed; otherwise the
    pending hunk is flushed on its own.  With three lines of context,
    changes of lines 5 and 8 of a file of 20 lines give one hunk, changes
    of lines 5 and 20 give two. *)
Theorem merge_when_context_overlaps
    (ty : Diff.diff_type) (context_lines : Z) (f1 f2 : list string)
    (old : Diff.Hunk) (piece : list Diff.edit) (w : Diff.world) :
  match Diff.new_Hunk piece context_lines f1 f2 w with
  | (Ok hunk, w') =>
      ((0 < context_lines)%Z ->
       (0 <= Diff.start1 hunk /\ 0 <= Diff.start2 hunk /\
        Diff.end1 hunk <= Z.of_nat (length f1) - 1 /\
        Diff.end2 hunk <= Z.of_nat (length f2) - 1)%Z) /\
      ((0 < context_lines)%Z /\
       (Diff.start1 hunk - Diff.end1 old <= 1 \/
        Diff.start2 hunk - Diff.end2 old <= 1)%Z ->
       Diff.hunk_step ty context_lines f1 f2 (Some old) piece w
       = (Ok (Some {| Diff.start1 := Diff.start1 old; Diff.end1 := Diff.end1 hunk;
                      Diff.start2 := Diff.start2 old; Diff.end2 := Diff.end2 hunk;
                      Diff.blocks := Diff.blocks old ++ Diff.blocks hunk |}), w')) /\
      (~ ((0 < context_lines)%Z /\
          (Diff.start1 hunk - Diff.end1 old <= 1 \/
           Diff.start2 hunk - Diff.end2 old <= 1)%Z) ->
       Diff.hunk_step ty context_lines f1 f2 (Some old) piece w
       = (Diff.output_hunk ty old f1 f2 ;;; ret (Some hunk)) w')
  | (Raise e, w') =>
      Diff.hunk_step ty context_lines f1 f2 (Some old) piece w = (Raise e, w')
  end /\
  (let out := Scenario.printed
                (Diff.main Scenario.with_u
                   (Scenario.files (Scenario.numbered 20)
                      (<[4 := "X"]> (<[7 := "Y"]> (Scenario.numbered 20))))
                   Diff.initial_world) in
   Scenario.hunk_headers out = 1 /\
   out = unlines ["--- old" +:+ Diff.tab +:+ "2024-01-01 00:00:00";
                  "+++ new" +:+ Diff.tab +:+ "2024-01-02 00:00:00";
                  "@@ -2,10 +2,10 @@"; " l2"; " l3"; " l4"; "-l5"; "+X"; " l6";
                  " l7"; "-l8"; "+Y"; " l9"; " l10"; " l11"]) /\
  (let out := Scenario.printed
                (Diff.main Scenario.with_u
                   (Scenario.files (Scenario.numbered 20)
                      (<[4 := "X"]> (<[19 := "Y"]> (Scenario.numbered 20))))
                   Diff.initial_world) in
   Scenario.hunk_headers out = 2 /\
   out = unlines ["--- old" +:+ Diff.tab +:+ "2024-01-01 00:00:00";
                  "+++ new" +:+ Diff.tab +:+ "2024-01-02 00:00:00";
                  "@@ -2,7 +2,7 @@"; " l2"; " l3"; " l4"; "-l5"; "+X"; " l6";
                  " l7"; " l8";
                  "@@ -17,4 +17,4 @@"; " l17"; " l18"; " l19"; "-l20"; "+Y"]).
Proof.
  split; [|split; split; vm_compute; reflexivity].
  destruct (Diff.new_Hunk piece context_lines f1 f2 w) as [[hunk|e] w'] eqn:E.
  - split; [intros Hc; by eapply new_Hunk_clamped|].
    rewrite !hunk_step_unfold, E. split.
    + intros [Hc Ho]. apply does_overlap_spec in Ho.
      apply Z.ltb_lt in Hc. by rewrite Hc, Ho.
    + intros Hn.
      destruct (Z.ltb_spec 0 context_lines) as [Hc|Hc]; [|reflexivity].
      destruct (Diff.does_overlap hunk (Some old)) eqn:Ho; [|reflexivity].
      apply does_overlap_spec in Ho. tauto.
  - by rewrite hunk_step_unfold, E.
Qed.

(** C5 as stated fails without context: in the normal format (context 0)
    the insert of [x] starts within one line of the end of the delete of
    [b], yet the delete is flushed on its own and the insert stays a hunk of
    its own. *)
Lemma overlap_without_context_is_not_merged :
  let f1 := ["a"; "b"; "c"] in
  let f2 := ["a"; "x"; "c"] in
  let old := {| Diff.start1 := 1; Diff.end1 := 1; Diff.start2 := 1; Diff.end2 := 0;
                Diff.blocks := [Diff.new_Block [(Diff.Minus, 1)]] |} in
  let new := {| Diff.start1 := 2; Diff.end1 := 1; Diff.start2 := 1; Diff.end2 := 1;
                Diff.blocks := [Diff.new_Block [(Diff.Plus, 1)]] |} in
  let w1 := {| Diff.file_length_difference := -1; Diff.ed_hunks := [];
               Diff.stdout := "" |} in
  Diff.hunk_loop Diff.OLD 0 f1 f2 [[(Diff.Minus, 1)]] None Diff.initial_world
    = (Ok (Some old), w1) /\
  fst (Diff.new_Hunk [(Diff.Plus, 1)] 0 f1 f2 w1) = Ok new /\
  Diff.does_overlap new (Some old) = true /\
  Diff.hunk_step Diff.OLD 0 f1 f2 (Some old) [(Diff.Plus, 1)] w1
    = (Ok (Some new),
       {| Diff.file_length_difference := 0; Diff.ed_hunks := [];
          Diff.stdout := unlines ["2d1"; "< b"] |}) /\
  new <> Diff.prepend_hunk new old.
Proof. repeat split; try (vm_compute; reflexivity). vm_compute. discriminate. Qed.

(** ** The unified renderer *)

Section UnifiedLoop.
Import Diff Unified.

Lemma index_cases {A} (l : list A) (i : Z) :
  (exists x, index l i = Ok x) \/ index l i = Raise IndexError.
Proof.
  unfold index. destruct (_ <? 0)%Z; [by right|].
  destruct (l !! _); [left; eauto | by right].
Qed.

Lemma index_in_range {A} (l : list A) (i : Z) :
  (0 <= i < Z.of_nat (length l))%Z -> exists x, index l i = Ok x.
Proof.
  intros Hi. unfold index.
  destruct (Z.ltb_spec i 0); [lia|]. destruct (Z.ltb_spec i 0); [lia|].
  destruct (lookup_lt_is_Some_2 l (Z.to_nat i)) as [x Hx]; [lia|].
  rewrite Hx. eauto.
Qed.

Lemma range_nil (lo hi : Z) : (hi <= lo)%Z -> range lo hi = [].
Proof. intros H. unfold range. by replace (Z.to_nat (hi - lo)) with 0 by lia. Qed.

Lemma range_cons (lo hi : Z) : (lo < hi)%Z -> range lo hi = lo :: range (lo + 1) hi.
Proof.
  intros H. unfold range.
  replace (Z.to_nat (hi - lo)) with (S (Z.to_nat (hi - (lo + 1)))) by lia.
  cbn [seq map]. f_equal; [lia|].
  rewrite <- seq_shift, map_map. apply map_ext. intros k. lia.
Qed.

Lemma unchanged_nil changed (lo hi : Z) : (hi < lo)%Z -> unchanged changed lo hi = 0.
Proof. intros H. unfold unchanged. by rewrite range_nil by lia. Qed.

Lemma unchanged_cons changed (lo hi : Z) :
  (lo <= hi)%Z ->
  unchanged changed lo hi
  = (if changed lo then 0 else 1) + unchanged changed (lo + 1) hi.
Proof.
  intros H. unfold unchanged. rewrite range_cons by lia.
  simpl. by destruct (changed lo).
Qed.

Variables (h : Hunk) (f1 f2 : list string).

(** The loop ends within its fuel, and the only exception it can raise is
    the IndexError of a line index outside a file. *)
Lemma unified_loop_ends fuel : forall i1 i2 outlist,
  remaining h i1 i2 <= fuel ->
  (exists l, unified_loop fuel h f1 f2 i1 i2 outlist = Ok l) \/
  unified_loop fuel h f1 f2 i1 i2 outlist = Raise IndexError.
Proof.
  unfold remaining.
  induction fuel as [|fuel IH]; intros i1 i2 outlist Hf.
  { simpl. destruct (Z.leb_spec i1 (end1 h)); [lia|].
    destruct (Z.leb_spec i2 (end2 h)); [lia|]. left. eauto. }
  cbn [unified_loop].
  destruct (Z.leb_spec i1 (end1 h)) as [L1|L1];
    destruct (Z.leb_spec i2 (end2 h)) as [L2|L2]; cbn [orb andb];
    try (left; eauto; fail);
    repeat match goal with
      | |- context [if ?c then _ else _] => destruct c
      | |- context [index ?l ?i] =>
          destruct (index_cases l i) as [[? ->]| ->]; cbn [rbind];
          [|by right]
      end;
    apply IH; lia.
Qed.

(** On a balanced hunk inside the files every line the loop reads
    exists. *)
Lemma unified_loop_total fuel : forall i1 i2 outlist,
  in_files h f1 f2 ->
  remaining h i1 i2 <= fuel ->
  (start1 h <= i1)%Z -> (start2 h <= i2)%Z ->
  unchanged (removed h) i1 (end1 h) = unchanged (inserted h) i2 (end2 h) ->
  exists l, unified_loop fuel h f1 f2 i1 i2 outlist = Ok l.
Proof.
  unfold remaining. intros i1 i2 outlist (B1 & B2 & B3 & B4).
  revert i1 i2 outlist.
  induction fuel as [|fuel IH]; intros i1 i2 outlist Hf S1 S2 Hb.
  { simpl. destruct (Z.leb_spec i1 (end1 h)); [lia|].
    destruct (Z.leb_spec i2 (end2 h)); [lia|]. eauto. }
  cbn [unified_loop]. fold (removed h i1). fold (inserted h i2).
  pose proof (unchanged_cons (removed h) i1 (end1 h)) as C1.
  pose proof (unchanged_cons (inserted h) i2 (end2 h)) as C2.
  pose proof (unchanged_nil (removed h) i1 (end1 h)) as N1.
  pose proof (unchanged_nil (inserted h) i2 (end2 h)) as N2.
  destruct (Z.leb_spec i1 (end1 h)) as [L1|L1];
    destruct (Z.leb_spec i2 (end2 h)) as [L2|L2]; cbn [orb andb]; [| | |eauto];
    try specialize (C1 L1); try specialize (C2 L2);
    try specialize (N1 L1); try specialize (N2 L2);
    destruct (removed h i1), (inserted h i2); cbn [andb];
    try (exfalso; lia);
    repeat match goal with
      | |- context [index ?l ?i] =>
          destruct (index_in_range l i) as [? ->]; [lia|]; cbn [rbind]
      end;
    apply IH; lia.
Qed.

End UnifiedLoop.

Section UnifiedHeader.
Import Diff Unified.

Lemma unified_range_long (h : Hunk) (f : flag) :
  (1 < getattr_end h f - getattr_start h f + 1)%Z ->
  unified_range h f
  = Ok (str (getattr_start h f + 1) +:+ "," +:+
        str (getattr_end h f - getattr_start h f + 1)).
Proof.
  intros H. unfold unified_range.
  replace (getattr_end h f + 1 - (getattr_start h f + 1) + 1)%Z
    with (getattr_end h f - getattr_start h f + 1)%Z by lia.
  by destruct (Z.ltb_spec 1 (getattr_end h f - getattr_start h f + 1)); [|lia].
Qed.

(** On a range of one line or none the method reads the unbound name
    [first]. *)
Lemma unified_range_short (h : Hunk) (f : flag) :
  (getattr_end h f - getattr_start h f + 1 <= 1)%Z ->
  unified_range h f = Raise (NameError "first").
Proof.
  intros H. unfold unified_range.
  by destruct (Z.ltb_spec 1 (getattr_end h f + 1 - (getattr_start h f + 1) + 1));
    [lia|].
Qed.

Lemma output_unified_diff_long (h : Hunk) (f1 f2 : list string) (w : world) :
  (1 < end1 h - start1 h + 1)%Z -> (1 < end2 h - start2 h + 1)%Z ->
  output_unified_diff h f1 f2 w =
  match unified_loop (unified_fuel h) h f1 f2 (start1 h) (start2 h) [] with
  | Ok outlist =>
      (Ok tt, {| file_length_difference := file_length_difference w;
                 ed_hunks := ed_hunks w;
                 stdout := (stdout w +:+ header h +:+ nl) +:+ join nl outlist +:+ nl |})
  | Raise e =>
      (Raise e, {| file_length_difference := file_length_difference w;
                   ed_hunks := ed_hunks w;
                   stdout := stdout w +:+ header h +:+ nl |})
  end.
Proof.
  intros H1 H2. unfold output_unified_diff.
  rewrite (unified_range_long h F1), (unified_range_long h F2) by done.
  unfold bind, lift, print, modify. cbn [getattr_start getattr_end].
  by destruct (unified_loop _ _ _ _ _ _ _).
Qed.

End UnifiedHeader.

(** X17. For every hunk whose two ranges each cover more than one line,
    the unified header is exactly [@@ -a1,lenA +b1,lenB @@], a start and a
    length for each side; the rendering prints it first and then either
    prints the body and returns, or raises IndexError for a line outside
    the files; it returns whenever both ranges lie inside the files and
    hold equally many unchanged lines. *)
Theorem unified_header_for_long_ranges
    (h : Diff.Hunk) (f1 f2 : list string) (w : Diff.world)
    (H1 : (1 < Diff.end1 h - Diff.start1 h + 1)%Z)
    (H2 : (1 < Diff.end2 h - Diff.start2 h + 1)%Z) :
  Diff.unified_range h Diff.F1
    = Ok (str (Diff.start1 h + 1) +:+ "," +:+ str (Diff.end1 h - Diff.start1 h + 1)) /\
  Diff.unified_range h Diff.F2
    = Ok (str (Diff.start2 h + 1) +:+ "," +:+ str (Diff.end2 h - Diff.start2 h + 1)) /\
  (exists r w' rest,
     Diff.output_unified_diff h f1 f2 w = (r, w') /\
     (r = Ok tt \/ r = Raise IndexError) /\
     Diff.stdout w' = (Diff.stdout w +:+ Unified.header h +:+ nl) +:+ rest) /\
  (Unified.in_files h f1 f2 -> Unified.balanced h ->
   fst (Diff.output_unified_diff h f1 f2 w) = Ok tt).
Proof.
  split; [by apply (unified_range_long h Diff.F1)|].
  split; [by apply (unified_range_long h Diff.F2)|].
  rewrite output_unified_diff_long by done. split.
  - destruct (unified_loop_ends h f1 f2 (Diff.unified_fuel h)
                (Diff.start1 h) (Diff.start2 h) []) as [[l ->]| ->].
    + unfold Unified.remaining, Diff.unified_fuel. lia.
    + eexists _, _, _. split; [done|]. split; [by left|done].
    + eexists _, _, "". split; [done|]. split; [by right|].
      simpl. by rewrite append_empty_r.
  - intros Hin Hb.
    destruct (unified_loop_total h f1 f2 (Diff.unified_fuel h)
                (Diff.start1 h) (Diff.start2 h) []) as [l ->]; done.
Qed.

(** The theorem at the hunk of the scenario [a b c] against [a x c]. *)
Lemma unified_header_for_long_ranges_witness :
  let h := {| Diff.start1 := 0; Diff.end1 := 2; Diff.start2 := 0; Diff.end2 := 2;
              Diff.blocks := [Diff.new_Block [(Diff.Minus, 1)];
                              Diff.new_Block [(Diff.Plus, 1)]] |} in
  let f1 := ["a"; "b"; "c"] in
  let f2 := ["a"; "x"; "c"] in
  ((1 < Diff.end1 h - Diff.start1 h + 1)%Z /\
   (1 < Diff.end2 h - Diff.start2 h + 1)%Z) /\
  Diff.unified_range h Diff.F1
    = Ok (str (Diff.start1 h + 1) +:+ "," +:+ str (Diff.end1 h - Diff.start1 h + 1)) /\
  Diff.unified_range h Diff.F2
    = Ok (str (Diff.start2 h + 1) +:+ "," +:+ str (Diff.end2 h - Diff.start2 h + 1)) /\
  (exists r w' rest,
     Diff.output_unified_diff h f1 f2 Diff.initial_world = (r, w') /\
     (r = Ok tt \/ r = Raise IndexError) /\
     Diff.stdout w'
     = (Diff.stdout Diff.initial_world +:+ Unified.header h +:+ nl) +:+ rest) /\
  (Unified.in_files h f1 f2 -> Unified.balanced h ->
   fst (Diff.output_unified_diff h f1 f2 Diff.initial_world) = Ok tt).
Proof.
  split; [split; reflexivity|].
  apply (unified_header_for_long_ranges _ _ _ _); reflexivity.
Defined.

(** C8 at a concrete input.  For [c] against [n c] with [-u] the
    comparator returns the insert of [n], and the hunk built from it with
    three lines of context covers line 1 of the first file and lines 1 to
    2 of the second.  The range of the second side is rendered, [1,2]; on
    the range of the first side, which covers exactly one line,
    [unified_range] reads the name [first], which is bound nowhere, and
    raises NameError, where the sibling [context_range] returns [1] for
    the same range.  So the rendering of the hunk prints no header and is
    not total, and the program ends with NameError after the two file
    header lines. *)
Theorem unified_range_of_one_line :
  let h := {| Diff.start1 := 0; Diff.end1 := 0; Diff.start2 := 0; Diff.end2 := 1;
              Diff.blocks := [Diff.new_Block [(Diff.Plus, 0)]] |} in
  Diff.diff ["c"] ["n"; "c"] = Some [[(Diff.Plus, 0)]] /\
  Diff.hunk_loop Diff.UNIFIED 3 ["c"] ["n"; "c"] [[(Diff.Plus, 0)]] None
    Diff.initial_world
    = (Ok (Some h), {| Diff.file_length_difference := 1; Diff.ed_hunks := [];
                       Diff.stdout := "" |}) /\
  Diff.unified_range h Diff.F2 = Ok "1,2" /\
  Diff.unified_range h Diff.F1 = Raise (NameError "first") /\
  Diff.context_range h Diff.F1 = "1" /\
  Diff.output_unified_diff h ["c"] ["n"; "c"] Diff.initial_world
    = (Raise (NameError "first"), Diff.initial_world) /\
  Diff.main Scenario.with_u (Scenario.files ["c"] ["n"; "c"]) Diff.initial_world
    = (Raise (NameError "first"),
       {| Diff.file_length_difference := 1; Diff.ed_hunks := [];
          Diff.stdout := unlines ["--- old" +:+ Diff.tab +:+ "2024-01-01 00:00:00";
                                  "+++ new" +:+ Diff.tab +:+ "2024-01-02 00:00:00"] |}).
Proof. repeat split; vm_compute; reflexivity. Qed.

(** ** Computations that only print *)

Section Writes.
Import Diff Order.

Lemma append_out_empty w : append_out w "" = w.
Proof. destruct w. unfold append_out. simpl. by rewrite append_empty_r. Qed.

Lemma append_out_append w s t : append_out (append_out w s) t = append_out w (s +:+ t).
Proof. unfold append_out. simpl. by rewrite append_assoc. Qed.

Lemma writes_ret {A} (a : A) : writes (ret a).
Proof. exists (Ok a), "". intros w. by rewrite append_out_empty. Qed.

Lemma writes_lift {A} (r : result A) : writes (lift r).
Proof. exists r, "". intros w. by rewrite append_out_empty. Qed.

Lemma writes_print s : writes (print s).
Proof. by exists (Ok tt), (s +:+ nl). Qed.

Lemma writes_bind {A B} (m : M world A) (k : A -> M world B) :
  writes m -> (forall a, writes (k a)) -> writes (bind m k).
Proof.
  intros (r & text & Hm) Hk. destruct r as [a|e].
  - destruct (Hk a) as (r' & text' & Hk').
    exists r', (text +:+ text'). intros w. unfold bind.
    by rewrite Hm, Hk', append_out_append.
  - exists (Raise e), text. intros w. unfold bind. by rewrite Hm.
Qed.

Lemma writes_for_each {A} (l : list A) (body : A -> M world unit) :
  (forall x, writes (body x)) -> writes (for_each l body).
Proof.
  intros Hb. induction l as [|x l IH]; [apply writes_ret|].
  simpl. apply writes_bind; [apply Hb|]. by intros _.
Qed.

Lemma writes_output_ed_diff h f1 f2 ty : writes (output_ed_diff h f1 f2 ty).
Proof.
  unfold output_ed_diff. apply writes_bind; [apply writes_lift|]. intros block.
  apply writes_bind.
  { destruct (diff_type_eqb ty REVERSE_ED); apply writes_print. }
  intros _. destruct (is_nonempty _); [|apply writes_ret].
  apply writes_bind; [|intros _; apply writes_print].
  apply writes_for_each. intros i.
  apply writes_bind; [apply writes_lift|]. intros l. apply writes_print.
Qed.

(** What a printing computation returns and prints depends on the text
    already printed only. *)
Lemma writes_same {A} (m : M world A) w w' :
  writes m -> stdout w = stdout w' ->
  fst (m w) = fst (m w') /\ stdout (snd (m w)) = stdout (snd (m w')) /\
  file_length_difference (snd (m w)) = file_length_difference w /\
  ed_hunks (snd (m w)) = ed_hunks w.
Proof.
  intros (r & text & Hm) Hs. rewrite !Hm. simpl. by rewrite Hs.
Qed.

Lemma bind_ok {S A B} (m : M S A) (k : A -> M S B) (s s' : S) (a : A) :
  m s = (Ok a, s') -> bind m k s = k a s'.
Proof. intros H. unfold bind. by rewrite H. Qed.

Lemma bind_raise {S A B} (m : M S A) (k : A -> M S B) (s s' : S) (e : exn) :
  m s = (Raise e, s') -> bind m k s = (Raise e, s').
Proof. intros H. unfold bind. by rewrite H. Qed.

Lemma bind_assoc {S A B C} (m : M S A) (f : A -> M S B) (g : B -> M S C) (s : S) :
  bind (bind m f) g s = bind m (fun x => bind (f x) g) s.
Proof. unfold bind. by destruct (m s) as [[a|e] s']. Qed.

Lemma for_each_app {S A} (l1 l2 : list A) (body : A -> M S unit) (s : S) :
  for_each (l1 ++ l2) body s = (for_each l1 body ;;; for_each l2 body) s.
Proof.
  induction l1 as [|x l1 IH] in s |- *; [done|].
  simpl. rewrite bind_assoc. unfold bind.
  destruct (body x s) as [[[]|e] s']; [|done].
  by rewrite IH.
Qed.

End Writes.

(** ** The blocks of the comparator, by numbers *)

Section Tracking.
Import Diff Script Runs Order.

Lemma exec_track (a b : list string) ops : forall i out st,
  i <= length a ->
  exec a b ops (i, out) = Some st ->
  track ops (i, length out) = Some (fst st, length (snd st)).
Proof.
  induction ops as [|[[] k] ops IH]; intros i out st Hi He.
  - by injection He as <-.
  - cbn [exec exec_op] in He. cbn [track track_op].
    destruct (Nat.leb_spec (length out) k) as [Hk|]; [|done].
    destruct (Nat.leb_spec (i + (k - length out)) (length a)) as [Hk'|]; [|done].
    cbn [andb] in He. destruct (b !! k) as [x|]; [|done].
    apply IH in He; [|lia]. rewrite <- He. f_equal. f_equal.
    rewrite !length_app, length_take, length_drop. simpl. lia.
  - cbn [exec exec_op] in He. cbn [track track_op].
    destruct (Nat.leb_spec i k) as [Hk|]; [|done].
    destruct (Nat.ltb_spec k (length a)) as [Hk'|]; [|done].
    cbn [andb] in He. apply IH in He; [|lia]. rewrite <- He. f_equal. f_equal.
    rewrite !length_app, length_take, length_drop. lia.
Qed.

Lemma track_app ops1 ops2 st :
  track (ops1 ++ ops2) st =
  match track ops1 st with
  | Some st' => track ops2 st'
  | None => None
  end.
Proof.
  induction ops1 as [|op ops1 IH] in st |- *; [done|].
  simpl. by destruct (track_op st op).
Qed.

(** Two neighbours of a script that runs, if they pass the continuity
    test, have the same sign and indices that follow each other. *)
Lemma continuous_track c d st st' :
  continuous c d = true ->
  track_op st c = Some st' -> is_Some (track_op st' d) ->
  d = (fst c, S (snd c)).
Proof.
  unfold continuous. intros [Hs Hd]%andb_prop Hc [st'' Hd'].
  apply Z.eqb_eq in Hd. destruct c as [s k], d as [s' k'], st as [i m].
  cbn [fst snd] in *. assert (s' = s) as -> by (by destruct s, s').
  destruct s; cbn [track_op] in *.
  - destruct (Nat.leb_spec m k); [|done]. injection Hc as <-.
    cbn [track_op] in Hd'.
    destruct (Nat.leb_spec (S k) k'); [|done]. f_equal. lia.
  - destruct (Nat.leb_spec i k); [|done]. injection Hc as <-.
    cbn [track_op] in Hd'.
    destruct (Nat.leb_spec (S k) k'); [|done]. f_equal. lia.
Qed.

Lemma chain_track l : forall c st st',
  chained c l = true -> track (c :: l) st = Some st' ->
  c :: l = block_of (fst c, snd c, S (length l)).
Proof.
  induction l as [|d l IH]; intros c st st' Hc Ht.
  { by destruct c. }
  cbn [chained] in Hc. apply andb_prop in Hc as [Hcd Hl].
  cbn [track] in Ht. destruct (track_op st c) as [st1|] eqn:E1; [|done].
  assert (d = (fst c, S (snd c))) as Hd.
  { apply (continuous_track c d st st1); [done|done|].
    cbn [track] in Ht. destruct (track_op st1 d); [eauto|done]. }
  specialize (IH d st1 st' Hl Ht). destruct c as [s k].
  cbn [fst snd] in *. subst d. rewrite IH at 1. reflexivity.
Qed.

Lemma track_block s k n i m st' :
  1 <= n -> track (block_of (s, k, n)) (i, m) = Some st' ->
  match s with
  | Minus => i <= k /\ st' = (k + n, m + (k - i))
  | Plus => m <= k /\ st' = (i + (k - m), k + n)
  end.
Proof.
  intros Hn. destruct n as [|n]; [lia|]. clear Hn. unfold block_of.
  induction n as [|n IH] in k, i, m, st' |- *.
  - simpl. destruct s.
    + destruct (Nat.leb_spec m k); [|done]. intros [= <-]. split; [done|].
      f_equal; lia.
    + destruct (Nat.leb_spec i k); [|done]. intros [= <-]. split; [done|].
      f_equal; lia.
  - cbn [seq map track]. destruct s; cbn [track_op].
    + destruct (Nat.leb_spec m k); [|done]. intros Ht.
      apply (IH (S k)) in Ht as [Hle ->]. split; [done|]. f_equal; lia.
    + destruct (Nat.leb_spec i k); [|done]. intros Ht.
      apply (IH (S k)) in Ht as [Hle ->]. split; [done|]. f_equal; lia.
Qed.

(** The blocks of a script that runs are blocks of one sign with indices
    that follow each other. *)
Lemma maximal_runs_descr bs : forall st st',
  maximal_runs bs -> track (concat bs) st = Some st' ->
  exists ds, bs = map block_of ds /\ Forall (fun d => 1 <= size d) ds.
Proof.
  induction bs as [|blk bs IH]; intros st st' Hm Ht.
  { by exists []. }
  destruct Hm as [Hb Hm]. destruct blk as [|c l]; [done|].
  destruct Hb as [Hc _]. cbn [concat] in Ht. rewrite track_app in Ht.
  destruct (track (c :: l) st) as [st1|] eqn:E1; [|done].
  destruct (IH st1 st' Hm Ht) as (ds & -> & Hds).
  exists ((fst c, snd c, S (length l)) :: ds). split.
  - simpl map. f_equal. by eapply chain_track.
  - constructor; [simpl; lia|done].
Qed.

(** Built one after the other from the start of the files, the hunks of
    such blocks are in the order of the first file. *)
Lemma hunks_of_in_file_order ds : forall i m st',
  Forall (fun d => 1 <= size d) ds ->
  track (concat (map block_of ds)) (i, m) = Some st' ->
  in_file_order (Z.of_nat i) (hunks_of (Z.of_nat m - Z.of_nat i) ds).
Proof.
  induction ds as [|[[s k] n] ds IH]; intros i m st' Hds Ht; [done|].
  inversion Hds as [|? ? Hn Hds']; subst. unfold size in Hn. simpl in Hn.
  cbn [map concat] in Ht. rewrite track_app in Ht.
  destruct (track (block_of (s, k, n)) (i, m)) as [st1|] eqn:E1; [|done].
  apply track_block in E1; [|done].
  destruct s; destruct E1 as [Hle ->]; cbn [hunks_of hunk_of in_file_order start1 end1].
  - split; [lia|]. split; [lia|].
    apply IH in Ht; [|done].
    replace (Z.of_nat (k + n - 1) - (Z.of_nat m - Z.of_nat i + Z.of_nat n) + 1)%Z
      with (Z.of_nat (i + (k - m))) by lia.
    replace (Z.of_nat m - Z.of_nat i + delta (Plus, k, n))%Z
      with (Z.of_nat (k + n) - Z.of_nat (i + (k - m)))%Z by (simpl; lia).
    done.
  - split; [lia|]. split; [lia|].
    apply IH in Ht; [|done].
    replace (Z.of_nat (k + n - 1) + 1)%Z with (Z.of_nat (k + n)) by lia.
    replace (Z.of_nat m - Z.of_nat i + delta (Minus, k, n))%Z
      with (Z.of_nat (m + (k - i)) - Z.of_nat (k + n))%Z by (simpl; lia).
    done.
Qed.

End Tracking.

(** ** The hunk of a block *)

Section HunkOfBlock.
Import Diff Order.

Lemma block_of_sign s k n : Forall (fun d : edit => fst d = s) (block_of (s, k, n)).
Proof.
  unfold block_of. induction n as [|n IH] in k |- *; simpl; by constructor.
Qed.

Lemma index_first {A} (x : A) (l : list A) : index (x :: l) 0 = Ok x.
Proof. reflexivity. Qed.

Lemma index_last {A} (l : list A) (x : A) : index (l ++ [x]) (-1) = Ok x.
Proof.
  unfold index. rewrite length_app. simpl length.
  destruct (Z.ltb_spec (-1) 0); [|lia].
  destruct (Z.ltb_spec (-1 + Z.of_nat (length l + 1)) 0); [lia|].
  replace (Z.to_nat (-1 + Z.of_nat (length l + 1))) with (length l) by lia.
  by rewrite list_lookup_middle.
Qed.

Lemma block_of_snoc s k n :
  block_of (s, k, S n) = block_of (s, k, n) ++ [(s, k + n)].
Proof. unfold block_of. by rewrite seq_S, map_app. Qed.

Lemma block_of_cons s k n :
  block_of (s, k, S n) = (s, k) :: block_of (s, S k, n).
Proof. reflexivity. Qed.

Lemma length_diff_block d : length_diff (new_Block (block_of d)) = delta d.
Proof.
  destruct d as [[s k] n]. unfold new_Block, insert_count, remove_count.
  cbn [changes length_diff]. pose proof (block_of_sign s k n) as Hs.
  assert (length (map to_change (block_of (s, k, n))) = n) as Hl
    by (unfold block_of; by rewrite !length_map, length_seq).
  destruct s; simpl delta.
  - rewrite (filter_same_sign Plus), (filter_other_sign Plus Minus) by done.
    rewrite Hl. simpl. lia.
  - rewrite (filter_same_sign Minus), (filter_other_sign Minus Plus) by done.
    rewrite Hl. simpl. lia.
Qed.

Lemma index_block_first s k n :
  index (map to_change (block_of (s, k, S n))) 0 = Ok (to_change (s, k)).
Proof. reflexivity. Qed.

Lemma index_block_last s k n :
  index (map to_change (block_of (s, k, S n))) (-1) = Ok (to_change (s, k + n)).
Proof. rewrite block_of_snoc, map_app. apply index_last. Qed.

Lemma is_nonempty_block s k n :
  is_nonempty (map to_change (block_of (s, k, S n))) = true.
Proof. reflexivity. Qed.

Lemma removes_block s k n :
  removes (new_Block (block_of (s, k, n)))
  = match s with
    | Minus => map to_change (block_of (s, k, n))
    | Plus => []
    end.
Proof.
  pose proof (block_of_sign s k n) as Hs.
  unfold removes, new_Block. cbn [changes]. destruct s.
  - by rewrite (filter_other_sign Plus Minus).
  - by rewrite (filter_same_sign Minus).
Qed.

Lemma inserts_block s k n :
  inserts (new_Block (block_of (s, k, n)))
  = match s with
    | Plus => map to_change (block_of (s, k, n))
    | Minus => []
    end.
Proof.
  pose proof (block_of_sign s k n) as Hs.
  unfold inserts, new_Block. cbn [changes]. destruct s.
  - by rewrite (filter_same_sign Plus).
  - by rewrite (filter_other_sign Minus Plus).
Qed.

(** Without context, [Hunk.__init__] on a block of the comparator returns
    [hunk_of] and adds the block's delta to the global. *)
Lemma new_Hunk_descr d f1 f2 w :
  1 <= size d ->
  new_Hunk (block_of d) 0 f1 f2 w
  = (Ok (hunk_of (file_length_difference w) d),
     set_fld w (file_length_difference w + delta d)).
Proof.
  destruct d as [[s k] n]. unfold size. simpl snd. intros Hn.
  destruct n as [|n]; [lia|]. clear Hn.
  unfold new_Hunk. unfold bind at 1, gets at 1. unfold bind at 1, modify at 1.
  unfold bind at 1, gets at 1. cbn [file_length_difference].
  rewrite length_diff_block, !removes_block, !inserts_block.
  destruct s;
    rewrite !is_nonempty_block, !index_block_first, !index_block_last;
    cbn [is_nonempty rbind lift bind ret]; unfold flag_context, hunk_of, set_fld;
    cbn [Z.eqb to_change item_no fst snd delta]; unfold ret;
    replace (k + S n - 1) with (k + n) by lia; repeat f_equal; lia.
Qed.

End HunkOfBlock.

(** ** The main loop without context *)

Section EdLoop.
Import Diff Order.
Variables f1 f2 : list string.

Lemma hunk_step_descr ty d old w :
  1 <= size d ->
  hunk_step ty 0 f1 f2 old (block_of d) w
  = match old with
    | Some o =>
        (output_hunk ty o f1 f2 ;;; ret (Some (hunk_of (file_length_difference w) d)))
          (set_fld w (file_length_difference w + delta d))
    | None =>
        (Ok (Some (hunk_of (file_length_difference w) d)),
         set_fld w (file_length_difference w + delta d))
    end.
Proof.
  intros Hd. unfold hunk_step. unfold bind at 1.
  rewrite new_Hunk_descr by done. by destruct old.
Qed.

(** In the ed format every hunk is stored, none is printed: after the loop
    the store holds the flushed hunks, the last one first. *)
Lemma hunk_loop_ed ds : forall old w,
  Forall (fun d => 1 <= size d) ds ->
  hunk_loop ED 0 f1 f2 (map block_of ds) old w
  = (Ok (pending old (hunks_of (file_length_difference w) ds)),
     {| file_length_difference := fld_after (file_length_difference w) ds;
        ed_hunks := rev (flushed old (hunks_of (file_length_difference w) ds))
                    ++ ed_hunks w;
        stdout := stdout w |}).
Proof.
  induction ds as [|d ds IH]; intros old w Hds.
  { by destruct w. }
  inversion Hds as [|? ? Hd Hds']; subst.
  cbn [map hunk_loop]. unfold bind at 1. rewrite hunk_step_descr by done.
  destruct old as [o|].
  - cbn [output_hunk]. unfold bind at 1, store_ed_diff, modify, ret.
    rewrite IH by done. cbn [file_length_difference ed_hunks stdout set_fld].
    cbn [hunks_of pending flushed olist fld_after fold_left].
    by rewrite rev_app_distr, <- app_assoc.
  - rewrite IH by done. cbn [file_length_difference ed_hunks stdout set_fld].
    cbn [hunks_of pending flushed olist fld_after fold_left].
    by rewrite app_nil_l.
Qed.

Lemma writes_out_red l : writes (for_each l (fun h => output_ed_diff h f1 f2 REVERSE_ED)).
Proof. apply writes_for_each. intros h. apply writes_output_ed_diff. Qed.

Lemma hunk_loop_cons ty d ds old w :
  1 <= size d ->
  hunk_loop ty 0 f1 f2 (map block_of (d :: ds)) old w
  = let w1 := set_fld w (file_length_difference w + delta d) in
    let h := hunk_of (file_length_difference w) d in
    match old with
    | Some o =>
        match output_hunk ty o f1 f2 w1 with
        | (Ok _, w2) => hunk_loop ty 0 f1 f2 (map block_of ds) (Some h) w2
        | (Raise e, w2) => (Raise e, w2)
        end
    | None => hunk_loop ty 0 f1 f2 (map block_of ds) (Some h) w1
    end.
Proof.
  intros Hd. cbn [map hunk_loop]. unfold bind at 1.
  rewrite hunk_step_descr by done. destruct old as [o|]; [|done].
  unfold bind. by destruct (output_hunk ty o f1 f2 _) as [[[]|e] w2].
Qed.

Lemma for_each_cons {S A} (x : A) (l : list A) (body : A -> M S unit) (s : S) :
  for_each (x :: l) body s
  = match body x s with
    | (Ok _, s') => for_each l body s'
    | (Raise e, s') => (Raise e, s')
    end.
Proof. reflexivity. Qed.

(** In the reverse ed format every flushed hunk is printed at once: the
    loop prints what printing the flushed hunks in their order prints. *)
Lemma hunk_loop_red ds : forall old w,
  Forall (fun d => 1 <= size d) ds ->
  exists r w' r' w'',
    hunk_loop REVERSE_ED 0 f1 f2 (map block_of ds) old w = (r, w') /\
    for_each (flushed old (hunks_of (file_length_difference w) ds)) (fun h => output_ed_diff h f1 f2 REVERSE_ED) w
      = (r', w'') /\
    stdout w' = stdout w'' /\
    match r with
    | Ok p => p = pending old (hunks_of (file_length_difference w) ds) /\ r' = Ok tt
    | Raise e => r' = Raise e
    end.
Proof.
  induction ds as [|d ds IH]; intros old w Hds.
  { by exists (Ok old), w, (Ok tt), w. }
  inversion Hds as [|? ? Hd Hds']; subst.
  rewrite hunk_loop_cons by done. cbn zeta. cbn [hunks_of flushed pending].
  set (w1 := set_fld w (file_length_difference w + delta d)).
  set (h := hunk_of (file_length_difference w) d).
  assert (Hmove : forall wa wb, stdout wa = stdout wb ->
            file_length_difference wa = (file_length_difference w + delta d)%Z ->
            exists r w' r' w'',
              hunk_loop REVERSE_ED 0 f1 f2 (map block_of ds) (Some h) wa = (r, w') /\
              for_each (flushed (Some h)
                          (hunks_of (file_length_difference w + delta d) ds))
                (fun h => output_ed_diff h f1 f2 REVERSE_ED) wb = (r', w'') /\
              stdout w' = stdout w'' /\
              match r with
              | Ok p => p = pending (Some h)
                              (hunks_of (file_length_difference w + delta d) ds)
                        /\ r' = Ok tt
              | Raise e => r' = Raise e
              end).
  { intros wa wb Hs Hf.
    destruct (IH (Some h) wa Hds') as (r & w' & r' & w'' & E1 & E2 & Hs' & Hr).
    rewrite Hf in E2, Hr.
    destruct (writes_same (for_each (flushed (Some h)
                (hunks_of (file_length_difference w + delta d) ds)) (fun h => output_ed_diff h f1 f2 REVERSE_ED)) wa wb)
      as (Hr' & Hs'' & _); [apply writes_out_red|done|].
    rewrite E2 in Hr', Hs''. cbn [fst snd] in Hr', Hs''.
    destruct (for_each _ (fun h => output_ed_diff h f1 f2 REVERSE_ED) wb) as [rb wb'] eqn:Eb.
    cbn [fst snd] in Hr', Hs''. subst rb.
    exists r, w', r', wb'. repeat split; try done. congruence. }
  destruct old as [o|]; cbn [olist app].
  - rewrite for_each_cons. cbn [output_hunk].
    destruct (writes_same (output_ed_diff o f1 f2 REVERSE_ED) w1 w)
      as (Hr & Hs & Hf & _); [apply writes_output_ed_diff|done|].
    destruct (output_ed_diff o f1 f2 REVERSE_ED w1) as [[[]|e] w2];
      destruct (output_ed_diff o f1 f2 REVERSE_ED w) as [r2' w2'];
      cbn [fst snd] in Hr, Hs, Hf; subst r2'.
    + by apply Hmove.
    + by exists (Raise e), w2, (Raise e), w2'.
  - by apply Hmove.
Qed.

Lemma flushed_pending old hs : flushed old hs ++ olist (pending old hs) = olist old ++ hs.
Proof.
  induction hs as [|h hs IH] in old |- *; [by rewrite app_nil_r|].
  cbn [flushed pending]. rewrite <- app_assoc, IH. by destruct old.
Qed.

End EdLoop.

(** ** The ed formats *)

Section EdMain.
Import Diff Order.

(** The program in the two ed formats, from the comparison on. *)
Lemma main_ed_formats (o : options) (ty : diff_type) (inp : inputs) (w : world) diffs :
  configure o = Ok (0%Z, ty) -> opt_q o = false ->
  ty = ED \/ ty = REVERSE_ED ->
  diff (map strip (lines1 inp)) (map strip (lines2 inp)) = Some diffs ->
  main o inp w =
  if is_nonempty diffs then
    (let* old_hunk := hunk_loop ty 0 (map strip (lines1 inp)) (map strip (lines2 inp))
                        diffs None in
     (match old_hunk with
      | Some old => output_hunk ty old (map strip (lines1 inp)) (map strip (lines2 inp))
      | None => ret tt
      end) ;;;
     (if diff_type_eqb ty ED
      then let* hs := gets ed_hunks in
           for_each hs (fun hunk => output_ed_diff hunk (map strip (lines1 inp))
                                      (map strip (lines2 inp)) ED)
      else ret tt) ;;;
     raise (SystemExit EX_DIFFERENT)) w
  else identical w.
Proof.
  intros Hc Hq Hty Hd. unfold main. unfold bind at 1, lift at 1.
  rewrite Hc, Hd, Hq. unfold bind at 1, ret at 1.
  destruct (is_nonempty diffs); [|done].
  unfold bind at 1 2, ret at 1 2. by destruct Hty as [-> | ->].
Qed.

(** The blocks of [diff], as descriptions, with the file order of their
    hunks. *)
Lemma diff_descr (a b : list string) :
  exists ds,
    diff a b = Some (map block_of ds) /\
    Forall (fun d => 1 <= size d) ds /\
    in_file_order 0 (hunks_of 0 ds).
Proof.
  destruct (diff_script a b) as (ops & Hs & Hd).
  destruct (script_exec a b _ _ _ Hs) as (i0 & out & He & _ & _).
  apply exec_track in He; [|lia]. simpl in He.
  pose proof (group_blocks_maximal ops) as Hm.
  destruct (maximal_runs_descr (group_blocks ops) (0, 0) (i0, length out) Hm)
    as (ds & Hds & Hn).
  { rewrite group_blocks_concat. exact He. }
  exists ds. rewrite Hd, Hds. split; [done|]. split; [done|].
  apply (hunks_of_in_file_order ds 0 0 (i0, length out)); [done|].
  by rewrite <- Hds, group_blocks_concat.
Qed.

End EdMain.

Section EdOutput.
Import Diff Order.

Lemma map_block_of_nil ds : map block_of ds = [] -> ds = [].
Proof. by destruct ds. Qed.

Lemma writes_out_ed f1 f2 ty l :
  writes (for_each l (fun h => output_ed_diff h f1 f2 ty)).
Proof. apply writes_for_each. intros h. apply writes_output_ed_diff. Qed.

(** With [-e] the hunks are stored while the loop runs and printed after
    it from the store, the last hunk first. *)
Lemma main_ed (inp : inputs) ds :
  let f1 := map strip (lines1 inp) in
  let f2 := map strip (lines2 inp) in
  diff f1 f2 = Some (map block_of ds) ->
  Forall (fun d => 1 <= size d) ds ->
  let hs := hunks_of 0 ds in
  exists r w,
    main Scenario.with_e inp initial_world = (r, w) /\
    ed_hunks w = rev hs /\
    stdout w = stdout (snd (for_each (rev hs) (fun h => output_ed_diff h f1 f2 ED)
                              initial_world)).
Proof.
  intros f1 f2 Hd Hds hs.
  rewrite (main_ed_formats Scenario.with_e ED inp initial_world (map block_of ds));
    [|done|done|by left|done].
  destruct (is_nonempty (map block_of ds)) eqn:En.
  2:{ assert (ds = []) as -> by (by destruct ds). by eexists _, _. }
  fold f1 f2. unfold bind at 1. rewrite hunk_loop_ed by done.
  cbn [file_length_difference ed_hunks stdout initial_world]. fold hs.
  set (w1 := {| file_length_difference := fld_after 0 ds;
                ed_hunks := rev (flushed None hs) ++ [];
                stdout := "" |}).
  assert (exists w2, (match pending None hs with
                      | Some old => output_hunk ED old f1 f2
                      | None => ret tt
                      end) w1 = (Ok tt, w2) /\
                     ed_hunks w2 = rev hs /\ stdout w2 = "") as (w2 & E2 & Hh & Hs).
  { pose proof (flushed_pending None hs) as Hfp. cbn [olist app] in Hfp.
    destruct (pending None hs) as [p|]; cbn [olist] in Hfp.
    - eexists. split; [reflexivity|]. simpl.
      split; [|done].
      by rewrite app_nil_r, <- (f_equal (@rev _) Hfp), rev_app_distr.
    - eexists. split; [reflexivity|]. simpl.
      split; [|done]. rewrite !app_nil_r in *. by rewrite Hfp. }
  unfold bind at 1. rewrite E2. cbn [diff_type_eqb].
  unfold bind at 1 2, gets at 1. rewrite Hh.
  destruct (writes_same (for_each (rev hs) (fun h => output_ed_diff h f1 f2 ED))
              w2 initial_world) as (_ & Hs' & _ & Hh');
    [apply writes_out_ed|by rewrite Hs|].
  destruct (for_each (rev hs) _ w2) as [[[]|e] w3]; cbn [fst snd] in *;
    eexists _, _; (split; [reflexivity|]); by rewrite Hh', Hh, Hs'.
Qed.

(** With [-f] every hunk is printed when it is flushed, the first hunk
    first. *)
Lemma main_red (inp : inputs) ds :
  let f1 := map strip (lines1 inp) in
  let f2 := map strip (lines2 inp) in
  diff f1 f2 = Some (map block_of ds) ->
  Forall (fun d => 1 <= size d) ds ->
  let hs := hunks_of 0 ds in
  exists r w,
    main Scenario.with_f inp initial_world = (r, w) /\
    stdout w
    = stdout (snd (for_each hs (fun h => output_ed_diff h f1 f2 REVERSE_ED)
                     initial_world)).
Proof.
  intros f1 f2 Hd Hds hs.
  rewrite (main_ed_formats Scenario.with_f REVERSE_ED inp initial_world
             (map block_of ds)); [|done|done|by right|done].
  destruct (is_nonempty (map block_of ds)) eqn:En.
  2:{ assert (ds = []) as -> by (by destruct ds). by eexists _, _. }
  fold f1 f2.
  destruct (hunk_loop_red f1 f2 ds None initial_world Hds)
    as (r & w' & r' & w'' & E1 & E2 & Hs & Hr).
  cbn [file_length_difference initial_world] in E2, Hr. fold hs in E2, Hr.
  assert (Hsplit :
    for_each hs (fun h => output_ed_diff h f1 f2 REVERSE_ED) initial_world
    = (for_each (flushed None hs) (fun h => output_ed_diff h f1 f2 REVERSE_ED) ;;;
       for_each (olist (pending None hs))
         (fun h => output_ed_diff h f1 f2 REVERSE_ED)) initial_world).
  { rewrite <- for_each_app. by rewrite (flushed_pending None hs). }
  rewrite Hsplit. destruct r as [p|e].
  - destruct Hr as [-> ->].
    rewrite (bind_ok _ _ _ _ _ E1), (bind_ok _ _ _ _ _ E2). cbn [diff_type_eqb].
    destruct (pending None hs) as [p|]; cbn [olist for_each output_hunk].
    + destruct (writes_same (output_ed_diff p f1 f2 REVERSE_ED) w' w'')
        as (Hr' & Hs' & _); [apply writes_output_ed_diff|done|].
      unfold bind.
      destruct (output_ed_diff p f1 f2 REVERSE_ED w') as [[[]|e] w1];
        destruct (output_ed_diff p f1 f2 REVERSE_ED w'') as [[[]|e'] w1'];
        cbn [fst snd] in *; try done; by eexists _, _.
    + by eexists _, _.
  - subst r'. rewrite (bind_raise _ _ _ _ _ E1), (bind_raise _ _ _ _ _ E2).
    by eexists _, _.
Qed.

(** One hunk in the two formats: the same result and the same body after
    a header that is the range and the action with [-e], and the action
    and the range, its comma turned into a space, with [-f]. *)
Lemma output_ed_diff_headers (h : Hunk) (f1 f2 : list string) (block : Block) :
  index (blocks h) 0 = Ok block ->
  exists r body, forall w,
    output_ed_diff h f1 f2 ED w
    = (r, append_out w ((context_range h F1 +:+ op_hash_get (op block)) +:+ nl
                        +:+ body)) /\
    output_ed_diff h f1 f2 REVERSE_ED w
    = (r, append_out w ((op_hash_get (op block) +:+
                         replace_char "," " " (context_range h F1)) +:+ nl
                        +:+ body)).
Proof.
  intros Hb.
  assert (writes (if is_nonempty (inserts block)
                  then for_each (range (start2 h) (end2 h + 1))
                         (fun i => let* l := lift (index f2 i) in print l) ;;;
                       print "."
                  else ret tt)) as (r & body & Hbody).
  { destruct (is_nonempty _); [|apply writes_ret].
    apply writes_bind; [|intros _; apply writes_print].
    apply writes_for_each. intros i.
    apply writes_bind; [apply writes_lift|]. intros l. apply writes_print. }
  assert (Hprint : forall s w, print s w = (Ok tt, append_out w (s +:+ nl)))
    by done.
  exists r, body. intros w. unfold output_ed_diff.
  split.
  - rewrite (bind_ok _ _ w w block) by (unfold lift; by rewrite Hb).
    cbn [diff_type_eqb]. rewrite (bind_ok _ _ _ _ _ (Hprint _ w)).
    by rewrite Hbody, append_out_append, append_assoc.
  - rewrite (bind_ok _ _ w w block) by (unfold lift; by rewrite Hb).
    cbn [diff_type_eqb]. rewrite (bind_ok _ _ _ _ _ (Hprint _ w)).
    by rewrite Hbody, append_out_append, append_assoc.
Qed.

End EdOutput.

(** C6, as the code has it.  The hunks of a comparison are produced in the
    order of the first file.  With [-e] they are stored and then printed
    from the store in the reverse of that order, the hunk lowest in the
    file first.  With [-f] each hunk is printed as it is flushed, so in
    the order of the file, the hunk highest in the file first.  The two
    renderings of one hunk have the same body; the header is the range
    followed by the action with [-e], and the action followed by the
    range, its comma turned into a space, with [-f]. *)
Theorem ed_output_order (inp : Diff.inputs) :
  let f1 := map strip (Diff.lines1 inp) in
  let f2 := map strip (Diff.lines2 inp) in
  exists hs : list Diff.Hunk,
    Order.in_file_order 0 hs /\
    (let w := snd (Diff.main Scenario.with_e inp Diff.initial_world) in
     Diff.ed_hunks w = rev hs /\
     Diff.stdout w
     = Diff.stdout (snd (for_each (rev hs)
                           (fun h => Diff.output_ed_diff h f1 f2 Diff.ED)
                           Diff.initial_world))) /\
    Diff.stdout (snd (Diff.main Scenario.with_f inp Diff.initial_world))
    = Diff.stdout (snd (for_each hs
                          (fun h => Diff.output_ed_diff h f1 f2 Diff.REVERSE_ED)
                          Diff.initial_world)) /\
    (forall h block,
       index (Diff.blocks h) 0 = Ok block ->
       exists r body, forall w,
         Diff.output_ed_diff h f1 f2 Diff.ED w
         = (r, Order.append_out w
                 ((Diff.context_range h Diff.F1 +:+ Diff.op_hash_get (Diff.op block))
                  +:+ nl +:+ body)) /\
         Diff.output_ed_diff h f1 f2 Diff.REVERSE_ED w
         = (r, Order.append_out w
                 ((Diff.op_hash_get (Diff.op block) +:+
                   replace_char "," " " (Diff.context_range h Diff.F1))
                  +:+ nl +:+ body))).
Proof.
  intros f1 f2. destruct (diff_descr f1 f2) as (ds & Hd & Hds & Ho).
  exists (Order.hunks_of 0 ds). split; [done|].
  destruct (main_ed inp ds Hd Hds) as (r & w & -> & He).
  destruct (main_red inp ds Hd Hds) as (r' & w' & -> & Hf).
  split; [done|]. split; [done|].
  intros h block. apply output_ed_diff_headers.
Qed.

(** C6 as stated fails for the reverse ed format: for [a b c d e f]
    against [a d e] the ed script deletes line 6 and then lines 2 to 3,
    while the reverse ed script names lines 2 to 3 first, not in the
    descending order of the ed script, and writes the range with a space
    for the comma. *)
Lemma reverse_ed_is_ascending :
  let inp := Scenario.files ["a"; "b"; "c"; "d"; "e"; "f"] ["a"; "d"; "e"] in
  Scenario.printed (Diff.main Scenario.with_e inp Diff.initial_world)
    = unlines ["6d"; "2,3d"] /\
  Scenario.printed (Diff.main Scenario.with_f inp Diff.initial_world)
    = unlines ["d2 3"; "d6"] /\
  Scenario.printed (Diff.main Scenario.with_f inp Diff.initial_world)
    <> unlines ["d6"; "d2,3"].
Proof.
  split; [vm_compute; reflexivity|]. split; [vm_compute; reflexivity|].
  vm_compute. discriminate.
Qed.

(** ** Lines are compared after stripping *)

Section Exactness.
Import Diff Script.

Lemma group_blocks_nil ops : group_blocks ops = [] -> ops = [].
Proof.
  intros H. rewrite <- (group_blocks_concat ops). by rewrite H.
Qed.

(** [diff] itself compares lines exactly: it finds no change only between
    equal sequences. *)
Lemma diff_nil_iff (a b : list string) : diff a b = Some [] <-> a = b.
Proof.
  destruct (diff_script a b) as (ops & Hs & Hd). rewrite Hd. split.
  - intros H. injection H as H. apply group_blocks_nil in H. subst ops.
    apply script_apply in Hs. unfold apply_script in Hs. simpl in Hs.
    rewrite drop_0 in Hs. by injection Hs.
  - intros <-. f_equal.
    assert (length ops + 2 * lcs_len a a (length a) (length a)
            = length a + length a) by (by apply script_length).
    assert (length a + length a
            <= 0 + 2 * lcs_len a a (length a) (length a)).
    { apply (apply_script_lower_bound a a []).
      unfold apply_script. simpl. by rewrite drop_0. }
    assert (ops = []) as -> by (destruct ops; [done | simpl in *; lia]).
    done.
Qed.

End Exactness.

Section FindMatch.
Import Patch Matching.

Lemma in_readline_spec (p : Patch) (f : infile) :
  options p !! "i_fh" = Some (VIn f) ->
  exists p' pos',
    in_readline p = (Ok (hd "" (drop (in_pos f) (in_lines f))), p') /\
    options p' !! "i_fh" = Some (VIn {| in_lines := in_lines f; in_pos := pos' |}) /\
    drop pos' (in_lines f) = tl (drop (in_pos f) (in_lines f)).
Proof.
  intros Hf. unfold in_readline, get_in_fh, bind, gets, ret, modify. rewrite Hf.
  destruct (in_lines f !! in_pos f) as [l|] eqn:El.
  - eexists _, (S (in_pos f)). split; [|split].
    + by rewrite (drop_S _ _ _ El).
    + simpl. by rewrite lookup_insert_eq.
    + by rewrite (drop_S _ _ _ El).
  - exists p, (in_pos f). apply lookup_ge_None in El.
    rewrite drop_ge by done. split; [done|]. split; [by destruct f|done].
Qed.

Lemma skip_lines_spec (l : list Z) : forall (p : Patch) (f : infile),
  options p !! "i_fh" = Some (VIn f) ->
  exists p' pos',
    for_each l (fun _ => in_readline ;;; ret tt) p = (Ok tt, p') /\
    options p' !! "i_fh" = Some (VIn {| in_lines := in_lines f; in_pos := pos' |}) /\
    drop pos' (in_lines f) = drop (length l) (drop (in_pos f) (in_lines f)).
Proof.
  induction l as [|x l IH]; intros p f Hf.
  - exists p, (in_pos f). by destruct f.
  - destruct (in_readline_spec p f Hf) as (p1 & pos1 & Hr & Hf1 & Hd1).
    destruct (IH p1 _ Hf1) as (p2 & pos2 & Hr2 & Hf2 & Hd2).
    exists p2, pos2. cbn [for_each]. unfold bind at 1 2. rewrite Hr.
    unfold ret at 1. split; [done|]. split; [done|].
    simpl in Hd2. rewrite Hd2, Hd1.
    destruct (drop (in_pos f) (in_lines f)); simpl; [by rewrite !drop_nil|done].
Qed.

Lemma match_context_spec (context_lines : list string) : forall (p : Patch) (f : infile),
  options p !! "i_fh" = Some (VIn f) ->
  fst (match_context context_lines p)
  = Ok (context_matches context_lines (drop (in_pos f) (in_lines f))).
Proof.
  induction context_lines as [|line rest IH]; intros p f Hf; [done|].
  destruct (in_readline_spec p f Hf) as (p1 & pos1 & Hr & Hf1 & Hd1).
  cbn [match_context context_matches]. unfold bind at 1. rewrite Hr.
  destruct (String.eqb _ _); [|done]. simpl.
  rewrite (IH p1 _ Hf1). simpl. by rewrite Hd1.
Qed.

(** [find_match] answers with the nominal position exactly when every
    context line of the hunk equals, after stripping, the line of the file
    at the same distance from line [i_start]. *)
Lemma find_match_spec (p : Patch) (f : infile) (i_start : Z) (hunk : list string) :
  options p !! "i_fh" = Some (VIn f) ->
  fst (find_match i_start hunk p)
  = Ok (if context_matches (map tail (List.filter (startswith " ") hunk))
             (drop (Z.to_nat (i_start - 1)) (in_lines f))
        then Some [i_start - 1; 0]%Z else None).
Proof.
  intros Hf. unfold find_match. unfold bind at 1, get_in_fh at 1, bind at 1, gets at 1.
  rewrite Hf. unfold ret at 1.
  unfold bind at 1, in_seek0, bind at 1, get_in_fh, bind at 1, gets at 1.
  rewrite Hf. unfold ret at 1, modify at 1.
  set (p0 := with_options _ p).
  assert (Hf0 : options p0 !! "i_fh"
                = Some (VIn {| in_lines := in_lines f; in_pos := 0 |})).
  { subst p0. simpl. by rewrite lookup_insert_eq. }
  destruct (skip_lines_spec (range 0 (i_start - 1)) p0 _ Hf0)
    as (p1 & pos1 & Hs & Hf1 & Hd1).
  unfold bind at 1. rewrite Hs.
  unfold bind at 1, in_tell, bind at 1, get_in_fh, bind at 1, gets at 1.
  rewrite Hf1. unfold ret at 1 2.
  pose proof (match_context_spec (map tail (List.filter (startswith " ") hunk))
                p1 _ Hf1) as Hm.
  unfold bind at 1.
  destruct (match_context _ p1) as [[ok|e] p2]; simpl in Hm; [|done].
  injection Hm as ->. cbn [in_lines in_pos] in *.
  rewrite Hd1, drop_0. unfold range.
  rewrite length_map, length_seq, Z.sub_0_r.
  by destruct (context_matches _ _).
Qed.

End FindMatch.

(** C9, as the code has it.  [diff] compares the lines it is given exactly:
    it reports no change only for equal sequences.  But the program strips
    leading and trailing white space from every line it reads, so two files
    whose lines are equal after stripping are found identical: nothing is
    printed and the run ends in [identical].  The applier likewise accepts
    a context line when it equals the line of the file after both are
    stripped. *)
Theorem lines_compared_after_strip (inp : Diff.inputs) :
  (forall a b, Diff.diff a b = Some [] <-> a = b) /\
  (map strip (Diff.lines1 inp) = map strip (Diff.lines2 inp) ->
   forall o w cfg, Diff.configure o = Ok cfg ->
     Diff.main o inp w = Diff.identical w /\ Diff.stdout (snd (Diff.main o inp w)) = Diff.stdout w) /\
  (forall p f i_start hunk,
     Patch.options p !! "i_fh" = Some (Patch.VIn f) ->
     fst (Patch.find_match i_start hunk p)
     = Ok (if Matching.context_matches
                (map tail (List.filter (startswith " ") hunk))
                (drop (Z.to_nat (i_start - 1)) (Patch.in_lines f))
           then Some [i_start - 1; 0]%Z else None)).
Proof.
  split; [apply diff_nil_iff|]. split; [|apply find_match_spec].
  intros Heq o w [context_lines ty] Hc.
  assert (Hm : Diff.main o inp w = Diff.identical w).
  { unfold Diff.main. unfold bind at 1, lift. rewrite Hc, Heq.
    rewrite (proj2 (diff_nil_iff _ _) eq_refl). reflexivity. }
  by rewrite Hm.
Qed.

(** C9 as stated fails: two files that differ only in the white space
    around a line are not reported as different, and a context line matches
    a line of the target that differs from it in white space. *)
Lemma whitespace_difference_is_not_reported :
  let inp := Scenario.files ["  a "] ["a"] in
  Diff.lines1 inp <> Diff.lines2 inp /\
  Diff.main Scenario.plain inp Diff.initial_world
    = Diff.identical Diff.initial_world /\
  Scenario.printed (Diff.main Scenario.plain inp Diff.initial_world) = "" /\
  fst (Patch.find_match 1 (readlines (unlines [" a"]))
         (Patch.new_Patch (Scenario.with_handles ["  a "]) ""))
    = Ok (Some [0; 0]%Z).
Proof.
  split; [vm_compute; discriminate|].
  repeat split; vm_compute; reflexivity.
Qed.

(** ** Runs of the applier *)

(** C2 at a concrete input.  The unified rendering of [a b c] against
    [a x c] is given to [patch.py].  As [main] builds the Patch object its
    options hold no input handle, and the first hunk ends the run with
    KeyError.  Given handles on the target and on an empty output, [main]
    takes the line [+++ new ...] for the body of a hunk, drops the [@@]
    line and treats the five lines of the hunk as garbage: the output is
    not [a x c].  The normal rendering holds no line starting with [--- ],
    so nothing of it is applied. *)
Theorem round_trip_scenario :
  let f1 := ["a"; "b"; "c"] in
  let f2 := ["a"; "x"; "c"] in
  let unified := Scenario.printed
                   (Diff.main Scenario.with_u (Scenario.files f1 f2)
                      Diff.initial_world) in
  let normal := Scenario.printed
                  (Diff.main Scenario.plain (Scenario.files f1 f2)
                     Diff.initial_world) in
  fst (Patch.main Patch.default_options (readlines unified))
    = Raise (KeyError "i_fh") /\
  (let r := Patch.main (Scenario.with_handles f1) (readlines unified) in
   fst r = Raise (SystemExit 0) /\
   Scenario.output (snd r)
     = Some (Patch.VOut {| Patch.written :=
                             unlines ["++ new" +:+ Diff.tab +:+ "2024-01-02 00:00:00"] |})) /\
  (let r := Patch.main (Scenario.with_handles f1) (readlines normal) in
   fst r = Raise (SystemExit 0) /\
   Scenario.output (snd r) = Some (Patch.VOut {| Patch.written := "" |})).
Proof. repeat split; vm_compute; reflexivity. Qed.

(** C4 at a concrete input.  The target is [z a]; the hunk has the context
    line [a] and adds [n].  The default fuzz is 2 and the context matches
    at line 2, one line below the nominal line 1; [find_match] at line 1
    answers [None] without trying any other position, [apply] then calls
    the method [throw], which the class does not have, and the run of
    [main] ends there with AttributeError: no reject is recorded and the
    second hunk, which matches, is never tried.  With the options [main]
    itself builds, which hold no input handle, the run ends at the first
    hunk with KeyError. *)
Theorem mismatch_ends_the_run :
  let target := ["z"; "a"] in
  let hunk := readlines (unlines [" a"; "+n"]) in
  let p := Patch.new_Patch (Scenario.with_handles target) "" in
  let patch_text := ["--- old"; " a"; "+n"; "@@"; "--- old"; " z"; "+m"] in
  Patch.fuzz p = Patch.VInt 2 /\
  fst (Patch.find_match 2 hunk p) = Ok (Some [1; 0]%Z) /\
  fst (Patch.find_match 1 hunk p) = Ok None /\
  fst (Patch.apply 1 1 hunk p) = Raise (AttributeError "throw") /\
  Patch.rejects (snd (Patch.apply 1 1 hunk p)) = [] /\
  (let r := Patch.main (Scenario.with_handles target)
              (readlines (unlines patch_text)) in
   fst r = Raise (AttributeError "throw") /\
   Patch.rejects (snd r) = [] /\
   Patch.hunk (snd r) = 1%Z /\
   Scenario.output (snd r) = Some (Patch.VOut {| Patch.written := "" |})) /\
  fst (Patch.apply 1 1 (readlines (unlines [" z"; "+m"])) p) = Ok true /\
  fst (Patch.main Patch.default_options (readlines (unlines patch_text)))
    = Raise (KeyError "i_fh").
Proof. repeat split; vm_compute; reflexivity. Qed.

(** ** Reversing a hunk *)

(** Appending to a string that starts with known characters. *)
Ltac norm_append :=
  repeat match goal with
    | |- context [String ?c ?x +:+ ?y] =>
        change (String c x +:+ y) with (String c (x +:+ y))
    | |- context [EmptyString +:+ ?y] => change (EmptyString +:+ y) with y
    end.

Section ReverseHunk.
Import Patch.
Local Arguments startswith : simpl never.

Lemma startswith_char (p c : ascii) (s : string) :
  startswith (String p EmptyString) (String c s) = Ascii.eqb p c.
Proof.
  unfold startswith. cbn [String.prefix].
  destruct (ascii_dec p c) as [->|Hne].
  - rewrite Ascii.eqb_refl. by destruct s.
  - symmetry. by apply Ascii.eqb_neq.
Qed.

(** What [reverse_hunk] does to one line. *)
Lemma reverse_line_cases (line : string) :
  let line' := if startswith "+" line then "-" +:+ tail line
               else if startswith "-" line then "+" +:+ tail line
               else line in
  (startswith "+" line = true -> line' = "-" +:+ tail line) /\
  (startswith "-" line = true -> line' = "+" +:+ tail line) /\
  (startswith "+" line = false -> startswith "-" line = false -> line' = line) /\
  (if startswith "+" line' then "-" +:+ tail line'
   else if startswith "-" line' then "+" +:+ tail line'
   else line') = line.
Proof.
  destruct line as [|c s]; [done|].
  cbn zeta. rewrite !startswith_char.
  destruct (Ascii.eqb_spec "+" c) as [<-|H1].
  { simpl. norm_append. rewrite !startswith_char. by repeat split. }
  destruct (Ascii.eqb_spec "-" c) as [<-|H2].
  { simpl. norm_append. rewrite !startswith_char. by repeat split. }
  rewrite !startswith_char.
  apply Ascii.eqb_neq in H1, H2. by rewrite H1, H2.
Qed.

End ReverseHunk.

(** C10. For every hunk, a list of lines, [reverse_hunk] turns the prefix
    ['+'] of a line into ['-'], the prefix ['-'] into ['+'], leaves every
    other line as it is, and applied twice gives the hunk back. *)
Theorem reverse_hunk_involution (hunk : list string) :
  Patch.reverse_hunk (Patch.reverse_hunk hunk) = hunk /\
  Forall2
    (fun line line' =>
       (startswith "+" line = true -> line' = "-" +:+ tail line) /\
       (startswith "-" line = true -> line' = "+" +:+ tail line) /\
       (startswith "+" line = false -> startswith "-" line = false -> line' = line))
    hunk (Patch.reverse_hunk hunk).
Proof.
  split.
  - unfold Patch.reverse_hunk. rewrite map_map.
    induction hunk as [|line hunk IH]; [done|]. simpl.
    rewrite IH. f_equal. apply (reverse_line_cases line).
  - induction hunk as [|line hunk IH]; [constructor|].
    simpl. constructor; [|done].
    pose proof (reverse_line_cases line) as H. cbn zeta in H. tauto.
Qed.

(** ** More on the comparator *)

Section LcsWitness.
Import Diff Script.
Variables a b : list string.

(** Some common subsequence of two prefixes has the length [lcs_len]. *)
Lemma lcs_len_reached i : forall j,
  i <= length a -> j <= length b ->
  exists s, s `sublist_of` take i a /\ s `sublist_of` take j b /\
            length s = lcs_len a b i j.
Proof.
  induction i as [|i IHi]; intros j Hi Hj.
  { exists []. split; [apply sublist_nil_l|]. split; [apply sublist_nil_l|done]. }
  induction j as [|j IHj].
  { exists []. split; [apply sublist_nil_l|]. split; [apply sublist_nil_l|].
    by rewrite lcs_len_0_r. }
  rewrite lcs_len_S, !take_S_total by lia.
  destruct (String.eqb_spec (a !!! i) (b !!! j)) as [E|E].
  - destruct (IHi j) as (s & Sa & Sb & Hl); [lia..|].
    exists (s ++ [a !!! i]). split; [by apply sublist_app|].
    split; [rewrite E; by apply sublist_app|].
    rewrite length_app, Hl. simpl. lia.
  - destruct (Nat.max_spec (lcs_len a b (S i) j) (lcs_len a b i (S j)))
      as [[_ ->]|[_ ->]].
    + destruct (IHi (S j)) as (s & Sa & Sb & Hl); [lia..|].
      exists s. split; [by apply sublist_inserts_r|].
      split; [|done]. by rewrite take_S_total in Sb by lia.
    + destruct IHj as (s & Sa & Sb & Hl); [lia|].
      exists s. split; [by rewrite take_S_total in Sa by lia|].
      split; [by apply sublist_inserts_r|done].
Qed.

End LcsWitness.

(** X1. [lcs_matrix] returns a table of [len(a) + 1] rows of [len(b) + 1]
    cells, and the cell [i][j] holds the length of a longest common
    subsequence of the first [i] lines of [a] and the first [j] lines of
    [b]: some common subsequence of the two prefixes has that length and
    none is longer. *)
Theorem lcs_matrix_longest_common_subsequence
    (a b : list string) (i j : nat) (Hi : i <= length a) (Hj : j <= length b) :
  length (Diff.lcs_matrix a b) = S (length a) /\
  length (Diff.lcs_matrix a b !!! i) = S (length b) /\
  (exists s, s `sublist_of` take i a /\ s `sublist_of` take j b /\
             length s = Diff.mget (Diff.lcs_matrix a b) i j) /\
  (forall s, s `sublist_of` take i a -> s `sublist_of` take j b ->
             length s <= Diff.mget (Diff.lcs_matrix a b) i j).
Proof.
  destruct (table_inv_lcs_matrix a b) as [[Hlen Hrows] _].
  split; [done|]. split; [by apply Hrows|].
  rewrite lcs_matrix_spec by done. split.
  - by apply lcs_len_reached.
  - intros s Sa Sb. by apply lcs_len_upper.
Qed.

(** The theorem at the last cell of the table of [a b c d] against
    [b x d]. *)
Lemma lcs_matrix_longest_common_subsequence_witness :
  let a := ["a"; "b"; "c"; "d"] in
  let b := ["b"; "x"; "d"] in
  (4 <= length a /\ 3 <= length b) /\
  length (Diff.lcs_matrix a b) = S (length a) /\
  length (Diff.lcs_matrix a b !!! 4) = S (length b) /\
  (exists s, s `sublist_of` take 4 a /\ s `sublist_of` take 3 b /\
             length s = Diff.mget (Diff.lcs_matrix a b) 4 3) /\
  (forall s, s `sublist_of` take 4 a -> s `sublist_of` take 3 b ->
             length s <= Diff.mget (Diff.lcs_matrix a b) 4 3).
Proof.
  split; [split; simpl; lia|].
  apply (lcs_matrix_longest_common_subsequence _ _ 4 3); simpl; lia.
Defined.

Section ChangesInOrder.
Import Diff Script Order Changes.

(** A script that runs names lines that exist. *)
Lemma exec_in_bounds (a b : list string) ops : forall st st',
  exec a b ops st = Some st' ->
  Forall (fun op : edit => snd op < length (side (fst op) a b)) ops.
Proof.
  induction ops as [|[[] k] ops IH]; intros [i out] st' He; [constructor|..];
    cbn [exec exec_op] in He.
  - destruct (_ && _); [|done].
    destruct (b !! k) as [x|] eqn:Hx; [|done].
    constructor; [|by eapply IH]. simpl. by eapply lookup_lt_Some.
  - destruct (Nat.leb_spec i k); [|done].
    destruct (Nat.ltb_spec k (length a)); [|done].
    cbn [andb] in He. constructor; [simpl; lia|]. by eapply IH.
Qed.

(** Followed by numbers, a script that runs names the lines of each file
    in increasing order. *)
Lemma track_sorted ops : forall i m st',
  track ops (i, m) = Some st' ->
  StronglySorted lt (indices Minus ops) /\ Forall (le i) (indices Minus ops) /\
  StronglySorted lt (indices Plus ops) /\ Forall (le m) (indices Plus ops).
Proof.
  unfold indices.
  induction ops as [|[[] k] ops IH]; intros i m st' Ht.
  - repeat split; constructor.
  - cbn [track track_op] in Ht. destruct (Nat.leb_spec m k); [|done].
    apply IH in Ht as (S1 & F1 & S2 & F2). cbn [List.filter fst sign_eqb map snd].
    split; [done|]. split.
    { eapply Forall_impl; [exact F1|]. intros x Hx. simpl in Hx. lia. }
    split.
    { constructor; [done|]. eapply Forall_impl; [exact F2|].
      intros x Hx. simpl in Hx. lia. }
    constructor; [done|]. eapply Forall_impl; [exact F2|].
    intros x Hx. simpl in Hx. lia.
  - cbn [track track_op] in Ht. destruct (Nat.leb_spec i k); [|done].
    apply IH in Ht as (S1 & F1 & S2 & F2). cbn [List.filter fst sign_eqb map snd].
    split.
    { constructor; [done|]. eapply Forall_impl; [exact F1|].
      intros x Hx. simpl in Hx. lia. }
    split.
    { constructor; [done|]. eapply Forall_impl; [exact F1|].
      intros x Hx. simpl in Hx. lia. }
    split; [done|].
    eapply Forall_impl; [exact F2|]. intros x Hx. simpl in Hx. lia.
Qed.

Lemma block_of_last s k n : (s, k + n) ∈ block_of (s, k, S n).
Proof. rewrite block_of_snoc. set_solver. Qed.

(** The blocks of [diff], as descriptions, with the lines they name. *)
Lemma diff_descr_bounds (a b : list string) :
  exists ds i0 out,
    diff a b = Some (map block_of ds) /\
    Forall (fun d => 1 <= size d) ds /\
    exec a b (concat (map block_of ds)) (0, []) = Some (i0, out) /\
    out ++ drop i0 a = b /\ i0 <= length a.
Proof.
  destruct (diff_script a b) as (ops & Hs & Hd).
  destruct (script_exec a b _ _ _ Hs) as (i0 & out & He & Hle & Hout).
  pose proof (exec_track a b ops 0 [] _ ltac:(lia) He) as Ht. simpl in Ht.
  pose proof (group_blocks_maximal ops) as Hm.
  destruct (maximal_runs_descr (group_blocks ops) (0, 0) (i0, length out) Hm)
    as (ds & Hds & Hn).
  { by rewrite group_blocks_concat. }
  exists ds, i0, out. rewrite Hd, Hds. split; [done|]. split; [done|].
  rewrite <- Hds, group_blocks_concat. split; [done|]. split; [|done].
  rewrite take_ge in Hout by (rewrite length_drop; lia).
  by rewrite Hout, firstn_all.
Qed.

Lemma descr_in_bounds (a b : list string) ds :
  Forall (fun op : edit => snd op < length (side (fst op) a b))
    (concat (map block_of ds)) ->
  Forall (fun d => 1 <= size d) ds ->
  Forall (fun '(s, k, n) => 1 <= n /\ k + n <= length (side s a b)) ds.
Proof.
  induction ds as [|[[s k] n] ds IH]; intros Hb Hn; [constructor|].
  inversion Hn as [|? ? Hn1 Hn']; subst. unfold size in Hn1. simpl in Hn1.
  cbn [map concat] in Hb. apply Forall_app in Hb as [Hb1 Hb2].
  constructor; [|by apply IH]. split; [done|].
  destruct n as [|n]; [lia|].
  rewrite Forall_forall in Hb1. specialize (Hb1 _ (block_of_last s k n)).
  simpl in Hb1. lia.
Qed.

End ChangesInOrder.

(** X2. Every block [diff] returns is a non-empty run of changes of one
    sign whose indices go up by one, [(s, k), (s, k + 1), ...], and names
    lines that exist: a [-] block lines of [a], a [+] block lines of [b].
    Across the blocks the indices of the deletions increase strictly, and
    so do the indices of the insertions. *)
Theorem diff_blocks_are_ascending_runs (a b : list string) :
  exists ds,
    Diff.diff a b = Some (map Order.block_of ds) /\
    Forall (fun '(s, k, n) => 1 <= n /\ k + n <= length (Changes.side s a b)) ds /\
    StronglySorted lt (Changes.indices Diff.Minus (concat (map Order.block_of ds))) /\
    StronglySorted lt (Changes.indices Diff.Plus (concat (map Order.block_of ds))).
Proof.
  destruct (diff_descr_bounds a b) as (ds & i0 & out & Hd & Hn & He & _ & _).
  exists ds. split; [done|]. split.
  - apply descr_in_bounds; [|done]. by eapply exec_in_bounds.
  - apply exec_track in He; [|lia].
    apply track_sorted in He as (S1 & _ & S2 & _). by split.
Qed.

Section LengthDifference.
Import Diff Script Order Changes.

Lemma length_diff_count (chunk : list edit) :
  length_diff (new_Block chunk)
  = (Z.of_nat (count_sign Plus chunk) - Z.of_nat (count_sign Minus chunk))%Z.
Proof.
  unfold new_Block, insert_count, remove_count, count_sign. cbn [length_diff changes].
  assert (H : forall s, length (List.filter (fun c => sign_eqb (c_sign c) s)
                                  (map to_change chunk))
                        = length (List.filter (fun op : edit => sign_eqb (fst op) s) chunk)).
  { intros s. induction chunk as [|[t k] chunk IH]; [done|].
    simpl. destruct (sign_eqb t s); simpl; by rewrite IH. }
  by rewrite !H.
Qed.

Lemma count_sign_app s (l1 l2 : list edit) :
  count_sign s (l1 ++ l2) = count_sign s l1 + count_sign s l2.
Proof. unfold count_sign. by rewrite List.filter_app, length_app. Qed.

Lemma total_length_diff_count (chunks : list (list edit)) :
  total_length_diff chunks
  = (Z.of_nat (count_sign Plus (concat chunks))
     - Z.of_nat (count_sign Minus (concat chunks)))%Z.
Proof.
  unfold total_length_diff.
  induction chunks as [|chunk chunks IH]; [done|].
  cbn [map foldr concat]. rewrite IH, length_diff_count, !count_sign_app. lia.
Qed.

(** A script that turns [a] into [b] inserts [len(b) - len(a)] lines more
    than it deletes. *)
Lemma apply_script_balance (a b : list string) ops :
  apply_script a b ops = Some b ->
  (Z.of_nat (count_sign Plus ops) - Z.of_nat (count_sign Minus ops)
   = Z.of_nat (length b) - Z.of_nat (length a))%Z.
Proof.
  unfold apply_script. intros He.
  destruct (exec a b ops (0, [])) as [[i' out']|] eqn:E; [|done].
  injection He as Hb.
  apply exec_keeps in E as (kept & rest & Heq & _ & _ & L1 & L2); [|lia].
  rewrite Hb in Heq. simpl in Heq. subst rest. lia.
Qed.

End LengthDifference.

(** X3. The [length_diff] of a block is the number of its insertions less
    the number of its deletions, and over the blocks [diff] returns these
    add up to [len(b) - len(a)]: the amount by which [Hunk.__init__] has
    moved the global [file_length_difference] once every block has been
    made a hunk. *)
Theorem length_diffs_add_up (a b : list string) :
  exists blocks,
    Diff.diff a b = Some blocks /\
    Changes.total_length_diff blocks
    = (Z.of_nat (length b) - Z.of_nat (length a))%Z /\
    (forall (w : Diff.world) (c : Z) (f1 f2 : list string) (chunk : list Diff.edit),
       Diff.file_length_difference (snd (Diff.new_Hunk chunk c f1 f2 w))
       = (Diff.file_length_difference w
          + Diff.length_diff (Diff.new_Block chunk))%Z).
Proof.
  destruct (diff_script a b) as (ops & Hs & Hd).
  exists (Diff.group_blocks ops). split; [done|]. split.
  - rewrite total_length_diff_count, group_blocks_concat.
    apply apply_script_balance. by apply script_apply.
  - intros w c f1 f2 chunk. unfold Diff.new_Hunk.
    unfold bind at 1, gets at 1. unfold bind at 1, modify at 1.
    unfold bind at 1, gets at 1. cbn [Diff.file_length_difference].
    generalize (Diff.length_diff (Diff.new_Block chunk)). intros z.
    unfold bind, lift, ret.
    repeat match goal with
           | |- context [match ?r with Ok _ => _ | Raise _ => _ end] =>
               destruct r; cbn [rbind]
           | |- context [if ?c then _ else _] => destruct c; cbn [rbind]
           end; reflexivity.
Qed.

(** ** The formats without context, from end to end *)

Section PrintLines.
Import Diff Order Render.

Lemma concat_cons (x : string) (l : list string) :
  String.concat "" (x :: l) = x +:+ String.concat "" l.
Proof. destruct l; [by rewrite append_empty_r|done]. Qed.

Lemma concat_app (l1 l2 : list string) :
  String.concat "" (l1 ++ l2) = String.concat "" l1 +:+ String.concat "" l2.
Proof.
  induction l1 as [|x l1 IH]; [done|].
  rewrite <- app_comm_cons, !concat_cons, IH. by rewrite append_assoc.
Qed.

Lemma print_spec s w : print s w = (Ok tt, append_out w (s +:+ nl)).
Proof. reflexivity. Qed.

Lemma index_lookup {A} (l : list A) (k : nat) (x : A) :
  l !! k = Some x -> index l (Z.of_nat k) = Ok x.
Proof.
  intros Hx. unfold index.
  destruct (Z.ltb_spec (Z.of_nat k) 0); [lia|].
  destruct (Z.ltb_spec (Z.of_nat k) 0); [lia|].
  by rewrite Nat2Z.id, Hx.
Qed.

(** Printing the lines [k] to [k + n - 1] of a file that has them. *)
Lemma for_each_print_lines prefix (f : list string) n : forall k w,
  k + n <= length f ->
  for_each (range (Z.of_nat k) (Z.of_nat (k + n)))
    (fun i => let* l := lift (index f i) in print (prefix +:+ l)) w
  = (Ok tt, append_out w (lines_text prefix f k n)).
Proof.
  induction n as [|n IH]; intros k w Hk.
  { rewrite range_nil by lia. unfold lines_text. simpl.
    rewrite append_out_empty. reflexivity. }
  rewrite range_cons by lia. rewrite for_each_cons.
  destruct (lookup_lt_is_Some_2 f k) as [x Hx]; [lia|].
  unfold bind at 1, lift at 1. rewrite (index_lookup _ _ _ Hx), print_spec.
  replace (Z.of_nat k + 1)%Z with (Z.of_nat (S k)) by lia.
  replace (k + S n) with (S k + n) by lia.
  rewrite IH by lia. rewrite append_out_append. do 2 f_equal.
  unfold lines_text. rewrite (drop_S _ _ _ Hx). cbn [take map].
  by rewrite concat_cons.
Qed.

End PrintLines.
Section RenderHunk.
Import Diff Order Render.
Variables f1 f2 : list string.

Lemma op_block s k n :
  op (new_Block (block_of (s, k, S n))) = match s with Plus => "+" | Minus => "-" end.
Proof.
  rewrite block_of_cons. apply op_same_sign.
  rewrite <- block_of_cons. apply block_of_sign.
Qed.

Lemma context_range_minus fld k n :
  context_range (hunk_of fld (Minus, k, S n)) F1
  = range_text (Z.of_nat k + 1) (Z.of_nat (k + S n)) /\
  context_range (hunk_of fld (Minus, k, S n)) F2 = str (Z.of_nat k + fld).
Proof.
  unfold context_range, range_text. cbn [hunk_of getattr_start getattr_end start1 end1 start2 end2].
  replace (Z.of_nat (k + S n - 1) + 1)%Z with (Z.of_nat (k + S n)) by lia.
  split; [done|].
  destruct (Z.ltb_spec (Z.of_nat k + fld + 1)
              (Z.of_nat (k + S n - 1) + (fld - Z.of_nat (S n)) + 1)); [lia|].
  f_equal. lia.
Qed.

Lemma context_range_plus fld k n :
  context_range (hunk_of fld (Plus, k, S n)) F1 = str (Z.of_nat k - fld) /\
  context_range (hunk_of fld (Plus, k, S n)) F2
  = range_text (Z.of_nat k + 1) (Z.of_nat (k + S n)).
Proof.
  unfold context_range, range_text. cbn [hunk_of getattr_start getattr_end start1 end1 start2 end2].
  replace (Z.of_nat (k + S n - 1) + 1)%Z with (Z.of_nat (k + S n)) by lia.
  split; [|done].
  destruct (Z.ltb_spec (Z.of_nat k - fld + 1)
              (Z.of_nat (k + S n - 1) - (fld + Z.of_nat (S n)) + 1)); [lia|].
  f_equal. lia.
Qed.

(** A hunk made of one block of the comparator, in the normal format. *)
Lemma output_old_diff_descr fld s k n w :
  k + S n <= length (Changes.side s f1 f2) ->
  output_old_diff (hunk_of fld (s, k, S n)) f1 f2 w
  = (Ok tt, append_out w (normal_text f1 f2 (fld, (s, k, S n)))).
Proof.
  intros Hb. unfold output_old_diff.
  assert (Hblk : blocks (hunk_of fld (s, k, S n)) = [new_Block (block_of (s, k, S n))])
    by (by destruct s).
  rewrite Hblk. unfold bind at 1, lift at 1. rewrite index_first.
  rewrite op_block, removes_block, inserts_block.
  destruct s; cbn [Changes.side] in Hb.
  - destruct (context_range_plus fld k n) as [-> ->].
    change (op_hash_get "+") with "a". change (String.eqb "+" "!") with false.
    rewrite is_nonempty_block. cbn [is_nonempty hunk_of start2 end2].
    replace (Z.of_nat (k + S n - 1) + 1)%Z with (Z.of_nat (k + S n)) by lia.
    unfold bind at 1. rewrite print_spec.
    unfold bind at 1, ret at 1. unfold bind at 1, ret at 1.
    rewrite for_each_print_lines by done.
    by rewrite append_out_append, append_assoc.
  - destruct (context_range_minus fld k n) as [-> ->].
    change (op_hash_get "-") with "d". change (String.eqb "-" "!") with false.
    rewrite is_nonempty_block. cbn [is_nonempty hunk_of start1 end1].
    replace (Z.of_nat (k + S n - 1) + 1)%Z with (Z.of_nat (k + S n)) by lia.
    unfold bind at 1. rewrite print_spec.
    unfold bind at 1. rewrite for_each_print_lines by done.
    unfold bind at 1, ret at 1. unfold ret.
    by rewrite append_out_append, append_assoc.
Qed.

Lemma for_each_print_plain (f : list string) n k w :
  k + n <= length f ->
  for_each (range (Z.of_nat k) (Z.of_nat (k + n)))
    (fun i => let* l := lift (index f i) in print l) w
  = (Ok tt, append_out w (lines_text "" f k n)).
Proof. exact (for_each_print_lines "" f n k w). Qed.

(** The same hunk in the two ed formats. *)
Lemma output_ed_diff_descr ty fld s k n w :
  k + S n <= length (Changes.side s f1 f2) ->
  output_ed_diff (hunk_of fld (s, k, S n)) f1 f2 ty w
  = (Ok tt, append_out w (if diff_type_eqb ty REVERSE_ED
                          then reverse_ed_text f2 (fld, (s, k, S n))
                          else ed_text f2 (fld, (s, k, S n)))).
Proof.
  intros Hb. unfold output_ed_diff.
  assert (Hblk : blocks (hunk_of fld (s, k, S n)) = [new_Block (block_of (s, k, S n))])
    by (by destruct s).
  rewrite Hblk. unfold bind at 1, lift at 1. rewrite index_first.
  rewrite op_block, inserts_block.
  assert (Hhead : forall w',
    (if diff_type_eqb ty REVERSE_ED
     then print (op_hash_get (match s with Plus => "+" | Minus => "-" end) +:+
                 replace_char "," " " (context_range (hunk_of fld (s, k, S n)) F1))
     else print (context_range (hunk_of fld (s, k, S n)) F1 +:+
                 op_hash_get (match s with Plus => "+" | Minus => "-" end))) w'
    = (Ok tt, append_out w'
        ((if diff_type_eqb ty REVERSE_ED
          then op_hash_get (match s with Plus => "+" | Minus => "-" end) +:+
               replace_char "," " " (context_range (hunk_of fld (s, k, S n)) F1)
          else context_range (hunk_of fld (s, k, S n)) F1 +:+
               op_hash_get (match s with Plus => "+" | Minus => "-" end)) +:+ nl))).
  { intros w'. by destruct (diff_type_eqb ty REVERSE_ED). }
  unfold bind at 1. rewrite Hhead.
  destruct s; cbn [Changes.side] in Hb.
  - destruct (context_range_plus fld k n) as [-> _].
    change (op_hash_get "+") with "a".
    rewrite is_nonempty_block. cbn [hunk_of start2 end2].
    replace (Z.of_nat (k + S n - 1) + 1)%Z with (Z.of_nat (k + S n)) by lia.
    unfold bind at 1. rewrite for_each_print_plain by done.
    rewrite print_spec, !append_out_append.
    destruct (diff_type_eqb ty REVERSE_ED); cbn [ed_text reverse_ed_text];
      by rewrite !append_assoc.
  - destruct (context_range_minus fld k n) as [-> _].
    change (op_hash_get "-") with "d". cbn [is_nonempty]. unfold ret.
    by destruct (diff_type_eqb ty REVERSE_ED).
Qed.

End RenderHunk.

Section FlushLoop.
Import Diff Order Render Changes.
Variables f1 f2 : list string.

Local Abbreviation fits := (Render.fits f1 f2).
Local Abbreviation text ty := (Render.text ty f1 f2).

Lemma fits_size d : fits d -> 1 <= size d.
Proof. destruct d as [[s k] n]. by intros [? _]. Qed.

Lemma hunks_of_stamps fld ds :
  hunks_of fld ds = map (fun st => hunk_of (fst st) (snd st)) (stamps fld ds).
Proof.
  induction ds as [|d ds IH] in fld |- *; [done|].
  cbn [hunks_of stamps map fst snd]. by rewrite IH.
Qed.

Lemma output_hunk_descr ty fld d w :
  ty = OLD \/ ty = REVERSE_ED -> fits d ->
  output_hunk ty (hunk_of fld d) f1 f2 w = (Ok tt, append_out w (text ty (fld, d))).
Proof.
  destruct d as [[s k] n]. intros Hty [Hn Hb].
  destruct n as [|n]; [lia|].
  destruct Hty as [-> | ->]; cbn [output_hunk Render.text].
  - by apply output_old_diff_descr.
  - by rewrite output_ed_diff_descr.
Qed.

Lemma set_fld_append w x t y u :
  append_out (set_fld (append_out (set_fld w x) t) y) u
  = append_out (set_fld w y) (t +:+ u).
Proof. unfold append_out, set_fld. simpl. by rewrite append_assoc. Qed.

(** The loop and the flush that follows it print every hunk, the pending
    one first, in the order of the blocks. *)
Lemma flush_loop ty ds : forall fld0 d0 w,
  ty = OLD \/ ty = REVERSE_ED -> fits d0 -> Forall fits ds ->
  (let* old_hunk := hunk_loop ty 0 f1 f2 (map block_of ds) (Some (hunk_of fld0 d0)) in
   match old_hunk with
   | Some old => output_hunk ty old f1 f2
   | None => ret tt
   end) w
  = (Ok tt,
     append_out (set_fld w (fld_after (file_length_difference w) ds))
       (String.concat ""
          (map (text ty) ((fld0, d0) :: stamps (file_length_difference w) ds)))).
Proof.
  induction ds as [|d ds IH]; intros fld0 d0 w Hty H0 Hds.
  { cbn [map hunk_loop stamps fld_after fold_left]. unfold bind, ret.
    rewrite output_hunk_descr by done. cbn [String.concat].
    by destruct w. }
  inversion Hds as [|? ? Hd Hds']; subst.
  unfold bind at 1. rewrite hunk_loop_cons by (by apply fits_size). cbn zeta.
  rewrite output_hunk_descr by done.
  specialize (IH (file_length_difference w) d
                (append_out (set_fld w (file_length_difference w + delta d))
                   (text ty (fld0, d0))) Hty Hd Hds').
  unfold bind at 1 in IH. cbn [file_length_difference append_out set_fld] in IH.
  cbn [file_length_difference append_out set_fld].
  destruct (hunk_loop ty 0 f1 f2 (map block_of ds) _ _) as [[o|e] w'].
  - rewrite IH. f_equal. cbn [stamps fld_after fold_left map].
    rewrite (concat_cons (text ty (fld0, d0))).
    unfold append_out, set_fld. simpl. by rewrite append_assoc.
  - done.
Qed.

(** Printing stored hunks in the ed format. *)
Lemma for_each_ed ps : forall w,
  Forall (fun st => fits (snd st)) ps ->
  for_each (map (fun st => hunk_of (fst st) (snd st)) ps)
    (fun h => output_ed_diff h f1 f2 ED) w
  = (Ok tt, append_out w (String.concat "" (map (ed_text f2) ps))).
Proof.
  induction ps as [|[fld [[s k] n]] ps IH]; intros w Hps.
  { simpl. by rewrite append_out_empty. }
  inversion Hps as [|? ? Hf Hps']; subst. cbn [fst snd] in *.
  destruct Hf as [Hn Hb].
  destruct n as [|n]; [lia|].
  cbn [map]. rewrite for_each_cons. cbn [fst snd].
  rewrite output_ed_diff_descr by done. cbn [diff_type_eqb].
  rewrite IH by done. by rewrite append_out_append, concat_cons.
Qed.

Lemma stamps_fits fld ds : Forall fits ds -> Forall (fun st => fits (snd st)) (stamps fld ds).
Proof.
  induction 1 as [|d ds Hd _ IH] in fld |- *; cbn [stamps]; constructor; auto.
Qed.

End FlushLoop.

Section NoContextMain.
Import Diff Script Order Render Changes.

(** The program in the three formats that print no file header, from the
    comparison on, when the files differ and [-q] is not given. *)
Lemma main_without_header (o : options) (ty : diff_type) (inp : inputs) (w : world) diffs :
  configure o = Ok (0%Z, ty) -> opt_q o = false ->
  ty <> CONTEXT -> ty <> UNIFIED ->
  diff (map strip (lines1 inp)) (map strip (lines2 inp)) = Some diffs ->
  is_nonempty diffs = true ->
  main o inp w =
  ((let* old_hunk := hunk_loop ty 0 (map strip (lines1 inp)) (map strip (lines2 inp))
                       diffs None in
    match old_hunk with
    | Some old => output_hunk ty old (map strip (lines1 inp)) (map strip (lines2 inp))
    | None => ret tt
    end) ;;;
   (if diff_type_eqb ty ED
    then let* hs := gets ed_hunks in
         for_each hs (fun hunk => output_ed_diff hunk (map strip (lines1 inp))
                                    (map strip (lines2 inp)) ED)
    else ret tt) ;;;
   raise (SystemExit EX_DIFFERENT)) w.
Proof.
  intros Hc Hq Hc1 Hc2 Hd Hne. unfold main. unfold bind at 1, lift at 1.
  rewrite Hc, Hd, Hq. unfold bind at 1, ret at 1. rewrite Hne.
  unfold bind at 1 2, ret at 1 2. rewrite bind_assoc.
  by destruct ty.
Qed.

(** The blocks of [diff], as descriptions that fit the files; there is one
    at least when the sequences differ, and their deltas add up to the
    difference of the lengths. *)
Lemma diff_fits (a b : list string) :
  exists ds,
    diff a b = Some (map block_of ds) /\ Forall (fits a b) ds /\
    fld_after 0 ds = (Z.of_nat (length b) - Z.of_nat (length a))%Z /\
    (a <> b -> ds <> []).
Proof.
  destruct (diff_descr_bounds a b) as (ds & i0 & out & Hd & Hn & He & Hout & Hi).
  exists ds. split; [done|]. split; [|split].
  - apply descr_in_bounds; [|done]. by eapply exec_in_bounds.
  - assert (Hsum : forall fld, fld_after fld ds
                               = (fld + total_length_diff (map block_of ds))%Z).
    { clear. induction ds as [|d ds IH]; intros fld.
      - unfold total_length_diff. simpl. lia.
      - unfold fld_after in *. cbn [fold_left]. rewrite IH.
        unfold total_length_diff. cbn [map foldr]. rewrite length_diff_block. lia. }
    rewrite Hsum, total_length_diff_count, Z.add_0_l.
    apply apply_script_balance. unfold apply_script. by rewrite He, Hout.
  - intros Hne ->. apply Hne. by apply diff_nil_iff.
Qed.

End NoContextMain.

Section NoContextRun.
Import Diff Script Order Render Changes.

(** From the first block on: the loop, then the flush of the last hunk. *)
Lemma flush_run ty f1 f2 d ds :
  ty = OLD \/ ty = REVERSE_ED -> fits f1 f2 d -> Forall (fits f1 f2) ds ->
  (let* old_hunk := hunk_loop ty 0 f1 f2 (map block_of (d :: ds)) None in
   match old_hunk with
   | Some old => output_hunk ty old f1 f2
   | None => ret tt
   end) initial_world
  = (Ok tt,
     {| file_length_difference := fld_after 0 (d :: ds);
        ed_hunks := [];
        stdout := String.concat "" (map (text ty f1 f2) (stamps 0 (d :: ds))) |}).
Proof.
  intros Hty Hd Hds. unfold bind at 1.
  rewrite hunk_loop_cons by (by apply (fits_size f1 f2)). cbn zeta.
  pose proof (flush_loop f1 f2 ty ds 0 d (set_fld initial_world (0 + delta d))
                Hty Hd Hds) as H.
  unfold bind at 1 in H. cbn [file_length_difference initial_world] in *.
  rewrite H. reflexivity.
Qed.

End NoContextRun.

(** X4. The normal format from end to end.  When no format option and no
    [-q] is given and the two files differ in a line (after the strip of
    every line), the program prints, for every block of [diff] in order,
    the header [N1,N2dM] and the deleted lines after [< ], or the header
    [NaM1,M2] and the inserted lines after [> ]; it raises no exception
    on the way, leaves [len(f2) - len(f1)] in [file_length_difference] and
    ends with exit status 1. *)
Theorem normal_format_run (o : Diff.options) (inp : Diff.inputs) :
  let f1 := map strip (Diff.lines1 inp) in
  let f2 := map strip (Diff.lines2 inp) in
  Diff.configure o = Ok (0%Z, Diff.OLD) -> Diff.opt_q o = false -> f1 <> f2 ->
  exists ds,
    Diff.diff f1 f2 = Some (map Order.block_of ds) /\
    Diff.main o inp Diff.initial_world
    = (Raise (SystemExit 1),
       {| Diff.file_length_difference :=
            Z.of_nat (length f2) - Z.of_nat (length f1);
          Diff.ed_hunks := [];
          Diff.stdout :=
            String.concat "" (map (Render.normal_text f1 f2) (Render.stamps 0 ds)) |}).
Proof.
  intros f1 f2 Hc Hq Hne.
  destruct (diff_fits f1 f2) as (ds & Hd & Hfits & Hfld & Hds).
  exists ds. split; [done|].
  destruct ds as [|d ds]; [by destruct (Hds Hne)|].
  inversion Hfits as [|? ? Hf Hfits']; subst.
  rewrite (main_without_header o Diff.OLD inp _ _ Hc Hq) by done.
  fold f1 f2. unfold bind at 1.
  rewrite (flush_run Diff.OLD) by (done || by left). cbn [Diff.diff_type_eqb].
  by rewrite Hfld.
Qed.

(** The theorem at [a b c] against [a x c]. *)
Lemma normal_format_run_witness :
  let o := Scenario.plain in
  let inp := Scenario.files ["a"; "b"; "c"] ["a"; "x"; "c"] in
  let f1 := map strip (Diff.lines1 inp) in
  let f2 := map strip (Diff.lines2 inp) in
  (Diff.configure o = Ok (0%Z, Diff.OLD) /\ Diff.opt_q o = false /\ f1 <> f2) /\
  exists ds,
    Diff.diff f1 f2 = Some (map Order.block_of ds) /\
    Diff.main o inp Diff.initial_world
    = (Raise (SystemExit 1),
       {| Diff.file_length_difference :=
            Z.of_nat (length f2) - Z.of_nat (length f1);
          Diff.ed_hunks := [];
          Diff.stdout :=
            String.concat "" (map (Render.normal_text f1 f2) (Render.stamps 0 ds)) |}).
Proof.
  split.
  - split; [reflexivity|]. split; [reflexivity|]. vm_compute. discriminate.
  - apply (normal_format_run Scenario.plain
             (Scenario.files ["a"; "b"; "c"] ["a"; "x"; "c"]));
      [reflexivity|reflexivity|vm_compute; discriminate].
Defined.

Section EdRun.
Import Diff Script Order Render Changes.

(** With [-e]: the loop stores, the flush stores the last hunk, and the
    store is printed from its left end. *)
Lemma ed_run f1 f2 ds :
  Forall (fits f1 f2) ds ->
  ((let* old_hunk := hunk_loop ED 0 f1 f2 (map block_of ds) None in
    match old_hunk with
    | Some old => output_hunk ED old f1 f2
    | None => ret tt
    end) ;;;
   let* hs := gets ed_hunks in
   for_each hs (fun hunk => output_ed_diff hunk f1 f2 ED)) initial_world
  = (Ok tt,
     {| file_length_difference := fld_after 0 ds;
        ed_hunks := rev (hunks_of 0 ds);
        stdout := String.concat "" (map (ed_text f2) (rev (stamps 0 ds))) |}).
Proof.
  intros Hds. unfold bind at 1 2.
  rewrite hunk_loop_ed by (eapply Forall_impl; [exact Hds|apply fits_size]).
  cbn [file_length_difference ed_hunks stdout initial_world].
  set (hs := hunks_of 0 ds).
  pose proof (flushed_pending None hs) as Hfp. cbn [olist app] in Hfp.
  assert (Hstore :
    (match pending None hs with
     | Some old => output_hunk ED old f1 f2
     | None => ret tt
     end) {| file_length_difference := fld_after 0 ds;
             ed_hunks := rev (flushed None hs) ++ [];
             stdout := "" |}
    = (Ok tt, {| file_length_difference := fld_after 0 ds;
                 ed_hunks := rev hs; stdout := "" |})).
  { rewrite app_nil_r.
    destruct (pending None hs) as [p|]; cbn [olist] in Hfp.
    - rewrite <- (f_equal (@rev _) Hfp), rev_app_distr. reflexivity.
    - rewrite app_nil_r in Hfp. by rewrite Hfp. }
  rewrite Hstore. unfold bind at 1, gets at 1. cbn [ed_hunks].
  subst hs. rewrite hunks_of_stamps, <- map_rev.
  rewrite for_each_ed by (apply Forall_rev, stamps_fits; done).
  unfold append_out. cbn [file_length_difference ed_hunks stdout]. reflexivity.
Qed.

End EdRun.

(** X5. The ed format from end to end.  With [-e] and no [-q], when the
    two files differ, the program prints for every block of [diff], the
    last block first, the header [N1,N2d], or the header [Na], the
    inserted lines and a line holding a dot; it raises no exception and
    ends with exit status 1. *)
Theorem ed_format_run (o : Diff.options) (inp : Diff.inputs) :
  let f1 := map strip (Diff.lines1 inp) in
  let f2 := map strip (Diff.lines2 inp) in
  Diff.configure o = Ok (0%Z, Diff.ED) -> Diff.opt_q o = false -> f1 <> f2 ->
  exists ds,
    Diff.diff f1 f2 = Some (map Order.block_of ds) /\
    Diff.main o inp Diff.initial_world
    = (Raise (SystemExit 1),
       {| Diff.file_length_difference :=
            Z.of_nat (length f2) - Z.of_nat (length f1);
          Diff.ed_hunks := rev (Order.hunks_of 0 ds);
          Diff.stdout :=
            String.concat "" (map (Render.ed_text f2) (rev (Render.stamps 0 ds))) |}).
Proof.
  intros f1 f2 Hc Hq Hne.
  destruct (diff_fits f1 f2) as (ds & Hd & Hfits & Hfld & Hds).
  exists ds. split; [done|].
  rewrite (main_without_header o Diff.ED inp _ (map Order.block_of ds) Hc Hq);
    [|done|done|done|by destruct ds; [destruct (Hds Hne)|]].
  fold f1 f2. cbn [Diff.diff_type_eqb].
  pose proof (ed_run f1 f2 ds Hfits) as H.
  unfold bind at 1 in H. unfold bind at 1.
  destruct ((let* old_hunk := Diff.hunk_loop Diff.ED 0 f1 f2 (map Order.block_of ds) None in
             match old_hunk with
             | Some old => Diff.output_hunk Diff.ED old f1 f2
             | None => ret tt
             end) Diff.initial_world) as [[[]|e] w1]; [|done].
  unfold bind at 1. rewrite H. by rewrite Hfld.
Qed.

(** The theorem at [a b c d e f] against [a d e]. *)
Lemma ed_format_run_witness :
  let o := Scenario.with_e in
  let inp := Scenario.files ["a"; "b"; "c"; "d"; "e"; "f"] ["a"; "d"; "e"] in
  let f1 := map strip (Diff.lines1 inp) in
  let f2 := map strip (Diff.lines2 inp) in
  (Diff.configure o = Ok (0%Z, Diff.ED) /\ Diff.opt_q o = false /\ f1 <> f2) /\
  exists ds,
    Diff.diff f1 f2 = Some (map Order.block_of ds) /\
    Diff.main o inp Diff.initial_world
    = (Raise (SystemExit 1),
       {| Diff.file_length_difference :=
            Z.of_nat (length f2) - Z.of_nat (length f1);
          Diff.ed_hunks := rev (Order.hunks_of 0 ds);
          Diff.stdout :=
            String.concat "" (map (Render.ed_text f2) (rev (Render.stamps 0 ds))) |}).
Proof.
  split.
  - split; [reflexivity|]. split; [reflexivity|]. vm_compute. discriminate.
  - apply (ed_format_run Scenario.with_e
             (Scenario.files ["a"; "b"; "c"; "d"; "e"; "f"] ["a"; "d"; "e"]));
      [reflexivity|reflexivity|vm_compute; discriminate].
Defined.

(** X6. The reverse ed format from end to end.  With [-f] and no [-q],
    when the two files differ, the program prints for every block of
    [diff], in the order of the blocks, the header [dN1 N2], or the header
    [aN], the inserted lines and a line holding a dot; it raises no
    exception and ends with exit status 1. *)
Theorem reverse_ed_format_run (o : Diff.options) (inp : Diff.inputs) :
  let f1 := map strip (Diff.lines1 inp) in
  let f2 := map strip (Diff.lines2 inp) in
  Diff.configure o = Ok (0%Z, Diff.REVERSE_ED) -> Diff.opt_q o = false -> f1 <> f2 ->
  exists ds,
    Diff.diff f1 f2 = Some (map Order.block_of ds) /\
    Diff.main o inp Diff.initial_world
    = (Raise (SystemExit 1),
       {| Diff.file_length_difference :=
            Z.of_nat (length f2) - Z.of_nat (length f1);
          Diff.ed_hunks := [];
          Diff.stdout :=
            String.concat "" (map (Render.reverse_ed_text f2) (Render.stamps 0 ds)) |}).
Proof.
  intros f1 f2 Hc Hq Hne.
  destruct (diff_fits f1 f2) as (ds & Hd & Hfits & Hfld & Hds).
  exists ds. split; [done|].
  destruct ds as [|d ds]; [by destruct (Hds Hne)|].
  inversion Hfits as [|? ? Hf Hfits']; subst.
  rewrite (main_without_header o Diff.REVERSE_ED inp _ _ Hc Hq) by done.
  fold f1 f2. unfold bind at 1.
  rewrite (flush_run Diff.REVERSE_ED) by (done || by right).
  cbn [Diff.diff_type_eqb]. by rewrite Hfld.
Qed.

(** The theorem at [a b c d e f] against [a d e]. *)
Lemma reverse_ed_format_run_witness :
  let o := Scenario.with_f in
  let inp := Scenario.files ["a"; "b"; "c"; "d"; "e"; "f"] ["a"; "d"; "e"] in
  let f1 := map strip (Diff.lines1 inp) in
  let f2 := map strip (Diff.lines2 inp) in
  (Diff.configure o = Ok (0%Z, Diff.REVERSE_ED) /\ Diff.opt_q o = false /\ f1 <> f2) /\
  exists ds,
    Diff.diff f1 f2 = Some (map Order.block_of ds) /\
    Diff.main o inp Diff.initial_world
    = (Raise (SystemExit 1),
       {| Diff.file_length_difference :=
            Z.of_nat (length f2) - Z.of_nat (length f1);
          Diff.ed_hunks := [];
          Diff.stdout :=
            String.concat "" (map (Render.reverse_ed_text f2) (Render.stamps 0 ds)) |}).
Proof.
  split.
  - split; [reflexivity|]. split; [reflexivity|]. vm_compute. discriminate.
  - apply (reverse_ed_format_run Scenario.with_f
             (Scenario.files ["a"; "b"; "c"; "d"; "e"; "f"] ["a"; "d"; "e"]));
      [reflexivity|reflexivity|vm_compute; discriminate].
Defined.

(** ** The option cascade and the brief mode *)

(** X7. With [-q], whatever the format options, when the two files differ
    in a line (after the strip of every line) the program prints the one
    line [Files F1 and F2 differ] and ends with exit status 1; no hunk is
    built. *)
Theorem brief_mode_prints_one_line
    (o : Diff.options) (inp : Diff.inputs) (w : Diff.world) (cfg : Z * Diff.diff_type) :
  Diff.configure o = Ok cfg -> Diff.opt_q o = true ->
  map strip (Diff.lines1 inp) <> map strip (Diff.lines2 inp) ->
  Diff.main o inp w
  = (Raise (SystemExit 1),
     Order.append_out w
       (("Files " +:+ Diff.file1 inp +:+ " and " +:+ Diff.file2 inp +:+ " differ")
        +:+ nl)).
Proof.
  intros Hc Hq Hne.
  destruct (diff_fits (map strip (Diff.lines1 inp)) (map strip (Diff.lines2 inp)))
    as (ds & Hd & _ & _ & Hds).
  destruct cfg as [context_lines ty].
  unfold Diff.main. unfold bind at 1, lift at 1. rewrite Hc, Hd, Hq.
  unfold bind at 1, ret at 1.
  destruct ds as [|d ds]; [by destruct (Hds Hne)|].
  reflexivity.
Qed.

(** The theorem at [a b] against [a c] with [-q] and [-u]. *)
Lemma brief_mode_prints_one_line_witness :
  let o := {| Diff.opt_C := None; Diff.opt_c := false; Diff.opt_e := false;
              Diff.opt_f := false; Diff.opt_q := true; Diff.opt_s := false;
              Diff.opt_U := None; Diff.opt_u := true |} in
  let inp := Scenario.files ["a"; "b"] ["a"; "c"] in
  (Diff.configure o = Ok (3%Z, Diff.UNIFIED) /\ Diff.opt_q o = true /\
   map strip (Diff.lines1 inp) <> map strip (Diff.lines2 inp)) /\
  Diff.main o inp Diff.initial_world
  = (Raise (SystemExit 1),
     Order.append_out Diff.initial_world
       (("Files " +:+ Diff.file1 inp +:+ " and " +:+ Diff.file2 inp +:+ " differ")
        +:+ nl)).
Proof.
  split.
  - split; [reflexivity|]. split; [reflexivity|]. vm_compute. discriminate.
  - apply (brief_mode_prints_one_line _ _ _ (3%Z, Diff.UNIFIED));
      [reflexivity|reflexivity|vm_compute; discriminate].
Defined.

(** X8. The option cascade takes the first of [-C], [-c], [-e], [-f],
    [-U], [-u] that is given and ignores the others, so it never reports
    incompatible options; it fails only on a negative length, and then by
    the call of [usage], a name the module does not define.  The context
    length it returns is never negative, and it is 0 for the normal format
    and the two ed formats: only the context and unified formats can merge
    hunks. *)
Theorem configure_takes_the_first_option (o : Diff.options) :
  match Diff.configure o with
  | Ok (context_lines, ty) =>
      (0 <= context_lines)%Z /\
      (ty = Diff.OLD \/ ty = Diff.ED \/ ty = Diff.REVERSE_ED -> context_lines = 0%Z) /\
      (ty = Diff.OLD <->
       Diff.opt_C o = None /\ Diff.opt_c o = false /\ Diff.opt_e o = false /\
       Diff.opt_f o = false /\ Diff.opt_U o = None /\ Diff.opt_u o = false)
  | Raise e =>
      e = NameError "usage" /\
      exists n, (n < 0)%Z /\
        (Diff.opt_C o = Some n \/
         (Diff.opt_C o = None /\ Diff.opt_c o = false /\ Diff.opt_e o = false /\
          Diff.opt_f o = false /\ Diff.opt_U o = Some n))
  end /\
  (forall n, Diff.opt_C o = Some n -> (0 <= n)%Z ->
             Diff.configure o = Ok (n, Diff.CONTEXT)) /\
  (Diff.opt_C o = None -> Diff.opt_c o = true ->
   Diff.configure o = Ok (3%Z, Diff.CONTEXT)) /\
  (Diff.opt_C o = None -> Diff.opt_c o = false -> Diff.opt_e o = true ->
   Diff.configure o = Ok (0%Z, Diff.ED)) /\
  (Diff.opt_C o = None -> Diff.opt_c o = false -> Diff.opt_e o = false ->
   Diff.opt_f o = true -> Diff.configure o = Ok (0%Z, Diff.REVERSE_ED)) /\
  (forall n, Diff.opt_C o = None -> Diff.opt_c o = false -> Diff.opt_e o = false ->
             Diff.opt_f o = false -> Diff.opt_U o = Some n -> (0 <= n)%Z ->
             Diff.configure o = Ok (n, Diff.UNIFIED)) /\
  (Diff.opt_C o = None -> Diff.opt_c o = false -> Diff.opt_e o = false ->
   Diff.opt_f o = false -> Diff.opt_U o = None -> Diff.opt_u o = true ->
   Diff.configure o = Ok (3%Z, Diff.UNIFIED)).
Proof.
  destruct o as [oC oc oe of_ oq os oU ou].
  unfold Diff.configure, Diff.checklen, Diff.set_diff_type, Diff.usage.
  cbn [Diff.opt_C Diff.opt_c Diff.opt_e Diff.opt_f Diff.opt_U Diff.opt_u
       Diff.diff_type_eqb negb andb rbind].
  split.
  - destruct oC as [n|].
    { destruct (Z.ltb_spec n 0); cbn [rbind].
      - split; [done|]. exists n. auto.
      - split; [done|]. split; [intros [?|[?|?]]; done|]. split; [done|].
        intros (? & _); done. }
    destruct oc.
    { split; [done|]. split; [intros [?|[?|?]]; done|]. split; [done|].
      intros (_ & ? & _); done. }
    destruct oe.
    { split; [done|]. split; [done|]. split; [done|].
      intros (_ & _ & ? & _); done. }
    destruct of_.
    { split; [done|]. split; [done|]. split; [done|].
      intros (_ & _ & _ & ? & _); done. }
    destruct oU as [n|].
    { destruct (Z.ltb_spec n 0); cbn [rbind].
      - split; [done|]. exists n. split; [done|]. right. done.
      - split; [done|]. split; [intros [?|[?|?]]; done|]. split; [done|].
        intros (_ & _ & _ & _ & ? & _); done. }
    destruct ou.
    { split; [done|]. split; [intros [?|[?|?]]; done|]. split; [done|].
      intros (_ & _ & _ & _ & _ & ?); done. }
    done.
  - repeat split.
    + intros n [= ->] Hn. by destruct (Z.ltb_spec n 0); [lia|].
    + by intros -> ->.
    + by intros -> -> ->.
    + by intros -> -> -> ->.
    + intros n -> -> -> -> [= ->] Hn. by destruct (Z.ltb_spec n 0); [lia|].
    + by intros -> -> -> -> -> ->.
Qed.

(** ** The body of a unified hunk *)

Section UnifiedBody.
Import Diff Unified Body.





Variables (h : Hunk) (f1 f2 : list string).

End UnifiedBody.



(** ** patch.py: the pushback file and the option checks *)

Section PushbackFile.
Import Patch Stream.

Lemma readline_unread (line : string) (pf : PushbackFile.t) :
  PushbackFile.readline (PushbackFile.unread line pf) = (line, pf).
Proof. by destruct pf. Qed.

Lemma unread_all_snoc (lines : list string) (line : string) (pf : PushbackFile.t) :
  unread_all (lines ++ [line]) pf = PushbackFile.unread line (unread_all lines pf).
Proof. unfold unread_all. by rewrite foldl_snoc. Qed.

End PushbackFile.

(** X10. The pushback file.  A line pushed back is the next line read,
    and reading it leaves the object as it was before; lines pushed back
    one after the other are read in the reverse order, before any line of
    the file; with nothing pushed back [readline] reads the file, and
    gives the empty string at its end. *)
Theorem pushback_is_last_in_first_out (lines : list string) (pf : Patch.PushbackFile.t) :
  (forall line, Patch.PushbackFile.readline (Patch.PushbackFile.unread line pf)
                = (line, pf)) /\
  Stream.read_n (length lines) (Stream.unread_all lines pf) = (rev lines, pf) /\
  (forall src,
     Patch.PushbackFile.readline {| Patch.PushbackFile.f := src;
                                    Patch.PushbackFile.queue := [] |}
     = (fst (Patch.readline src),
        {| Patch.PushbackFile.f := snd (Patch.readline src);
           Patch.PushbackFile.queue := [] |})) /\
  Patch.readline [] = ("", []).
Proof.
  split; [intros line; apply readline_unread|]. split; [|split; [|done]].
  - induction lines as [|line lines IH] using rev_ind; [done|].
    rewrite unread_all_snoc, length_app, rev_unit. simpl length.
    replace (length lines + 1) with (S (length lines)) by lia.
    cbn [Stream.read_n]. rewrite readline_unread, IH. done.
  - by intros [|line src].
Qed.

(** X11. [type_conflict] lets an option set through, writing nothing,
    exactly when at most one of [context], [ed], [normal] and [unified] is
    set in it; when two of them are set it names every one that is set, in
    that fixed order, on standard error and ends the program with exit
    status 2. *)
Theorem type_conflict_needs_two_specifiers (opts : gmap string Patch.pyval) (err : string) :
  match Patch.type_conflict opts err with
  | (Ok _, err') =>
      err' = err /\
      forall t1 t2, t1 ∈ Marks.specifiers -> t2 ∈ Marks.specifiers ->
                    Marks.given opts t1 = true -> Marks.given opts t2 = true ->
                    t1 = t2
  | (Raise e, err') =>
      e = SystemExit 2 /\
      (exists t1 t2, t1 ∈ Marks.specifiers /\ t2 ∈ Marks.specifiers /\ t1 <> t2 /\
                     Marks.given opts t1 = true /\ Marks.given opts t2 = true) /\
      err' = err +:+ "patch: incompatible input type specifiers: " +:+
             join ", " (List.filter (Marks.given opts) Marks.specifiers) +:+ nl
  end.
Proof.
  unfold Patch.type_conflict. fold (Marks.given opts).
  change ["context"; "ed"; "normal"; "unified"] with Marks.specifiers.
  unfold Marks.specifiers. cbn [List.filter].
  assert (Hone : forall t1 t2 : string,
            t1 ∈ ["context"; "ed"; "normal"; "unified"] ->
            t2 ∈ ["context"; "ed"; "normal"; "unified"] ->
            Marks.given opts t1 = true -> Marks.given opts t2 = true ->
            length (List.filter (Marks.given opts)
                      ["context"; "ed"; "normal"; "unified"]) <= 1 ->
            t1 = t2).
  { intros t1 t2 H1 H2 G1 G2. cbn [List.filter].
    rewrite !elem_of_cons, elem_of_nil in H1, H2.
    destruct H1 as [->|[->|[->|[->|[]]]]], H2 as [->|[->|[->|[->|[]]]]];
      try done; rewrite ?G1, ?G2;
      repeat match goal with
             | |- context [if Marks.given opts ?t then _ else _] =>
                 destruct (Marks.given opts t)
             end; cbn [length]; lia. }
  destruct (Marks.given opts "context") eqn:Gc, (Marks.given opts "ed") eqn:Ge,
    (Marks.given opts "normal") eqn:Gn, (Marks.given opts "unified") eqn:Gu;
    cbn [length Nat.ltb Nat.leb]; unfold bind, modify, raise, ret;
    first
      [ split; [done|]; intros t1 t2 H1 H2 G1 G2;
        apply (Hone t1 t2 H1 H2 G1 G2); cbn [List.filter];
        rewrite Gc, Ge, Gn, Gu; cbn [length]; lia
      | split; [done|]; split; [|done];
        first
          [ exists "context", "ed"; repeat split; (done || set_solver)
          | exists "context", "normal"; repeat split; (done || set_solver)
          | exists "context", "unified"; repeat split; (done || set_solver)
          | exists "ed", "normal"; repeat split; (done || set_solver)
          | exists "ed", "unified"; repeat split; (done || set_solver)
          | exists "normal", "unified"; repeat split; (done || set_solver) ] ].
Qed.

(** ** patch.py: stripping path components *)

Section SplitJoin.
Variable sep : ascii.

Lemma split_cons_inv (s : string) : exists part parts, split sep s = part :: parts.
Proof.
  induction s as [|c s (part & parts & IH)]; [by eexists _, _|].
  cbn [split]. destruct (Ascii.eqb c sep); [by eexists _, _|].
  rewrite IH. by eexists _, _.
Qed.

Lemma join_cons (x y : string) (l : list string) :
  join (String sep EmptyString) (x :: y :: l)
  = x +:+ String sep EmptyString +:+ join (String sep EmptyString) (y :: l).
Proof. reflexivity. Qed.

(** Joining the parts of a string gives the string back. *)
Lemma join_split (s : string) : join (String sep EmptyString) (split sep s) = s.
Proof.
  induction s as [|c s IH]; [done|]. cbn [split].
  destruct (Ascii.eqb_spec c sep) as [->|Hc].
  - destruct (split_cons_inv s) as (part & parts & E). rewrite E in IH |- *.
    rewrite join_cons, IH. reflexivity.
  - destruct (split_cons_inv s) as (part & parts & E). rewrite E in IH |- *.
    destruct parts as [|y parts].
    + simpl in IH |- *. by rewrite IH.
    + rewrite join_cons in IH |- *. by rewrite <- IH.
Qed.

(** A part holds no separator: it splits into itself. *)
Lemma split_part (s : string) : Forall (fun part => split sep part = [part]) (split sep s).
Proof.
  induction s as [|c s IH]; [by constructor|]. cbn [split].
  destruct (Ascii.eqb_spec c sep) as [->|Hc].
  - by constructor.
  - destruct (split_cons_inv s) as (part & parts & E). rewrite E in IH |- *.
    inversion IH as [|? ? Hp Hps]; subst. constructor; [|done].
    cbn [split]. destruct (Ascii.eqb_spec c sep); [done|]. by rewrite Hp.
Qed.

Lemma split_app_sep (part rest : string) :
  split sep part = [part] ->
  split sep (part +:+ String sep EmptyString +:+ rest) = part :: split sep rest.
Proof.
  induction part as [|c part IH]; intros Hp.
  - change ("" +:+ String sep "" +:+ rest) with (String sep rest).
    cbn [split]. by rewrite Ascii.eqb_refl.
  - change (String c part +:+ String sep "" +:+ rest)
      with (String c (part +:+ String sep "" +:+ rest)).
    cbn [split] in Hp |- *. destruct (Ascii.eqb c sep).
    { destruct (split_cons_inv part) as (p & ps & E). by rewrite E in Hp. }
    destruct (split_cons_inv part) as (p & ps & E). rewrite E in Hp.
    injection Hp as -> ->. by rewrite (IH E).
Qed.

(** Splitting the join of parts that hold no separator gives the parts
    back. *)
Lemma split_join (parts : list string) :
  parts <> [] -> Forall (fun part => split sep part = [part]) parts ->
  split sep (join (String sep EmptyString) parts) = parts.
Proof.
  induction parts as [|x parts IH]; [done|]. intros _ Hps.
  inversion Hps as [|? ? Hx Hps']; subst.
  destruct parts as [|y parts]; [done|].
  rewrite join_cons, split_app_sep by done. f_equal. by apply IH.
Qed.

End SplitJoin.

Section StripPath.
Import Patch.

Lemma slice_to_end {A} (l : list A) (n : Z) :
  (0 <= n <= Z.of_nat (length l))%Z ->
  slice l n (Z.of_nat (length l)) = drop (Z.to_nat n) l.
Proof.
  intros Hn. unfold slice, slice_bound.
  destruct (Z.ltb_spec n 0); [lia|].
  destruct (Z.ltb_spec (Z.of_nat (length l)) 0); [lia|].
  rewrite !Z.min_l by lia. apply take_ge. rewrite length_drop. lia.
Qed.

Lemma index_minus_1 {A} (l : list A) (d : A) :
  l <> [] -> index l (-1) = Ok (List.last l d).
Proof.
  intros Hl. destruct (exists_last Hl) as (l' & x & ->).
  by rewrite index_last, last_last.
Qed.

Lemma last_drop {A} (l : list A) (n : nat) (d : A) :
  n < length l -> List.last (drop n l) d = List.last l d.
Proof.
  induction l as [|x l IH] in n |- *; intros Hn; [simpl in Hn; lia|].
  destruct n as [|n]; [done|]. simpl in Hn. rewrite skipn_cons, IH by lia.
  destruct l; [simpl in Hn; lia|done].
Qed.

Lemma split_nonempty (path : string) : split os_path_sep path <> [].
Proof. by destruct (split_cons_inv os_path_sep path) as (p & ps & ->). Qed.

(** What [strip] returns, by the number of parts of the path. *)
Lemma strip_cases (n : Z) (path : string) :
  (0 <= n)%Z ->
  strip (Some n) path
  = Ok (if (Z.of_nat (length (split os_path_sep path)) <=? n)%Z
        then os_path_basename path
        else join (String os_path_sep EmptyString)
               (drop (Z.to_nat n) (split os_path_sep path))).
Proof.
  intros Hn. unfold strip.
  destruct (Z.leb_spec (Z.of_nat (length (split os_path_sep path))) n).
  - by rewrite (index_minus_1 _ EmptyString) by apply split_nonempty.
  - by rewrite slice_to_end by lia.
Qed.

Lemma basename_part (path : string) :
  split os_path_sep (os_path_basename path) = [os_path_basename path].
Proof.
  unfold os_path_basename.
  pose proof (split_part os_path_sep path) as Hp.
  pose proof (split_nonempty path) as Hne.
  destruct (exists_last Hne) as (l' & x & E). rewrite E in Hp |- *.
  rewrite last_last. apply Forall_app in Hp as [_ Hx].
  by inversion Hx.
Qed.

End StripPath.

(** X12. [Patch.strip] never raises.  With a count of 0 it returns the
    path as it is; with a count that reaches the number of the parts of
    the path between slashes it returns the last part, which is also what
    it returns with no count, the basename; and the basename holds no
    slash. *)
Theorem strip_keeps_the_path_or_its_basename (path : string) :
  Patch.strip (Some 0%Z) path = Ok path /\
  (forall n, (Z.of_nat (length (split os_path_sep path)) <= n)%Z ->
             Patch.strip (Some n) path = Patch.strip None path) /\
  Patch.strip None path = Ok (List.last (split os_path_sep path) EmptyString) /\
  split os_path_sep (List.last (split os_path_sep path) EmptyString)
  = [List.last (split os_path_sep path) EmptyString] /\
  (forall c, exists s, Patch.strip c path = Ok s).
Proof.
  split.
  { rewrite strip_cases by lia.
    destruct (Z.leb_spec (Z.of_nat (length (split os_path_sep path))) 0) as [H|H].
    - pose proof (split_nonempty path) as Hne.
      destruct (split os_path_sep path); [done|simpl in H; lia].
    - by rewrite drop_0, join_split. }
  split.
  { intros n Hn. rewrite strip_cases by lia.
    by destruct (Z.leb_spec (Z.of_nat (length (split os_path_sep path))) n); [|lia]. }
  split; [done|]. split; [apply basename_part|].
  intros [n|]; [|by eexists].
  unfold Patch.strip.
  destruct (Z.leb_spec (Z.of_nat (length (split os_path_sep path))) n); [|by eexists].
  rewrite (index_minus_1 _ EmptyString) by apply split_nonempty. by eexists.
Qed.

(** X13. Stripping composes: for counts that are not negative, to strip
    [n] parts and then [m] parts of the result is to strip [n + m]
    parts. *)
Theorem strip_composes (n m : Z) (path : string) :
  (0 <= n)%Z -> (0 <= m)%Z ->
  (let? stripped := Patch.strip (Some n) path in Patch.strip (Some m) stripped)
  = Patch.strip (Some (n + m)%Z) path.
Proof.
  intros Hn Hm. rewrite !strip_cases by lia. cbn [rbind]. rewrite strip_cases by lia.
  f_equal.
  pose proof (split_nonempty path) as Hne.
  pose proof (split_part os_path_sep path) as Hp.
  set (parts := split os_path_sep path) in *.
  destruct (Z.leb_spec (Z.of_nat (length parts)) n) as [L|L].
  - rewrite basename_part. fold parts. cbn [length].
    destruct (Z.leb_spec (Z.of_nat (length parts)) (n + m)); [|lia].
    destruct (Z.leb_spec (Z.of_nat 1) m).
    + unfold os_path_basename at 1. rewrite basename_part. reflexivity.
    + replace (Z.to_nat m) with 0 by lia. rewrite drop_0. reflexivity.
  - assert (Hd : drop (Z.to_nat n) parts <> []).
    { intros E. apply (f_equal length) in E. rewrite length_drop in E.
      simpl in E. lia. }
    rewrite split_join; [|done|].
    2:{ rewrite <- (take_drop (Z.to_nat n) parts) in Hp.
        by apply Forall_app in Hp as [_ ?]. }
    rewrite length_drop.
    destruct (Z.leb_spec (Z.of_nat (length parts - Z.to_nat n)) m);
      destruct (Z.leb_spec (Z.of_nat (length parts)) (n + m)); try lia.
    + unfold os_path_basename. rewrite split_join; [|done|].
      2:{ rewrite <- (take_drop (Z.to_nat n) parts) in Hp.
          by apply Forall_app in Hp as [_ ?]. }
      fold parts. apply last_drop. lia.
    + rewrite drop_drop. do 2 f_equal. lia.
Qed.

(** The theorem at [a/b/c/d], stripped of one part and then of two. *)
Lemma strip_composes_witness :
  ((0 <= 1)%Z /\ (0 <= 2)%Z) /\
  (let? stripped := Patch.strip (Some 1%Z) "a/b/c/d" in Patch.strip (Some 2%Z) stripped)
  = Patch.strip (Some (1 + 2)%Z) "a/b/c/d".
Proof.
  split; [split; lia|]. apply strip_composes; lia.
Defined.

(** ** patch.py: reading the patch *)

Section ReadHunk.
Import Patch Marks.

Lemma hunk_line_empty : hunk_line "" = false.
Proof. reflexivity. Qed.

Lemma read_hunk_stop (line : string) :
  String.eqb line "" ||
  negb (startswith "+" line || startswith "-" line || startswith " " line)
  = negb (hunk_line line).
Proof. by destruct line. Qed.

Lemma read_hunk_spec (src : list string) : forall acc,
  exists hunk rest,
    read_hunk src acc = (acc ++ hunk, rest) /\
    Forall (fun line => hunk_line line = true) hunk /\
    ((src = hunk /\ rest = []) \/
     exists stop, src = hunk ++ stop :: rest /\ hunk_line stop = false).
Proof.
  induction src as [|line src IH]; intros acc.
  { exists [], []. rewrite app_nil_r. split; [done|]. split; [constructor|by left]. }
  cbn [read_hunk]. rewrite read_hunk_stop.
  destruct (hunk_line line) eqn:E; cbn [negb].
  - destruct (IH (acc ++ [line])) as (hunk & rest & -> & Hh & Hs).
    exists (line :: hunk), rest. rewrite <- app_assoc. split; [done|].
    split; [by constructor|].
    destruct Hs as [[-> ->]|(stop & -> & Hstop)]; [by left|].
    right. by exists stop.
  - exists [], src. rewrite app_nil_r. split; [done|]. split; [constructor|].
    right. by exists line.
Qed.

Lemma header_is_hunk_line (line : string) :
  startswith "--- " line = true -> hunk_line line = true.
Proof.
  destruct line as [|c line]; [done|]. unfold hunk_line.
  rewrite !startswith_char. unfold startswith. cbn [String.prefix].
  destruct (ascii_dec "-" c) as [<-|]; [|done]. intros _.
  by rewrite orb_true_r.
Qed.

End ReadHunk.

(** X14. The lines [main] takes for a hunk are the longest run of lines,
    right after the header, that start with [+], [-] or a space; none of
    them is empty.  The line that stops the run is read and dropped, and a
    line that starts with [--- ] does not stop it: it is taken for a
    removed line of the hunk. *)
Theorem read_hunk_takes_the_marked_lines (src : list string) :
  exists hunk rest,
    Patch.read_hunk src [] = (hunk, rest) /\
    Forall (fun line => Marks.hunk_line line = true /\ line <> "") hunk /\
    ((src = hunk /\ rest = []) \/
     exists stop, src = hunk ++ stop :: rest /\ Marks.hunk_line stop = false) /\
    (forall line, startswith "--- " line = true -> Marks.hunk_line line = true).
Proof.
  destruct (read_hunk_spec src []) as (hunk & rest & Hr & Hh & Hs).
  exists hunk, rest. split; [done|]. split.
  - eapply Forall_impl; [exact Hh|]. intros line Hl. split; [done|].
    intros ->. by rewrite hunk_line_empty in Hl.
  - split; [done|]. apply header_is_hunk_line.
Qed.

(** ** patch.py: what a run can do *)

Section NoHandle.
Import Patch Marks.

(** Without an input handle in the options [apply] stops in [find_match],
    at the lookup of [i_fh], with the object unchanged. *)
Lemma apply_without_handle (i_start o_start : Z) (hunk : list string) (p : Patch) :
  skip p = false -> options p !! "i_fh" = None ->
  apply i_start o_start hunk p = (Raise (KeyError "i_fh"), p).
Proof.
  intros Hs Hf. unfold apply. unfold bind at 1, gets at 1. rewrite Hs.
  unfold bind at 1, ret at 1. unfold bind at 1, gets at 1.
  unfold bind at 1, find_match. unfold bind at 1, get_in_fh.
  unfold bind at 1, gets at 1. by rewrite Hf.
Qed.

Lemma note_writes (message : string) (p : Patch) :
  options p !! "silent" = None ->
  note message p = (Ok tt, with_stderr (fun e => e +:+ message) p).
Proof.
  intros Hs. unfold note, bind, gets, options_get. by rewrite Hs.
Qed.

(** The outer loop when the options hold no input handle: it ends at the
    first header, or reads the whole patch without doing anything. *)
Lemma main_loop_without_handle (src : list string) : forall fuel garbage p,
  length src < fuel -> skip p = false ->
  options p !! "i_fh" = None -> options p !! "silent" = None ->
  Forall (fun line => line <> "") src ->
  main_loop fuel src garbage p
  = if existsb (startswith "--- ") src
    then (Raise (KeyError "i_fh"),
          with_stderr (announcement (garbage ++ leading src) (hunk p)) p)
    else (Ok tt, p).
Proof.
  induction src as [|line src IH]; intros fuel garbage p Hf Hs Hi Hq Hne.
  { destruct fuel as [|fuel]; [simpl in Hf; lia|]. reflexivity. }
  destruct fuel as [|fuel]; [simpl in Hf; lia|].
  inversion Hne as [|? ? Hl Hne']; subst.
  cbn [main_loop readline existsb leading].
  destruct (String.eqb_spec line ""); [done|].
  destruct (startswith "--- " line) eqn:Hh; cbn [orb].
  - rewrite app_nil_r.
    destruct (read_hunk src []) as [hk src'].
    unfold announcement.
    destruct (is_nonempty garbage) eqn:Hg.
    + unfold bind at 1. rewrite note_writes by done.
      unfold bind at 1, gets at 1. unfold bind at 1.
      rewrite note_writes by done. unfold bind at 1.
      rewrite apply_without_handle by done. reflexivity.
    + unfold bind at 1, ret at 1.
      unfold bind at 1, gets at 1. unfold bind at 1.
      rewrite note_writes by done. unfold bind at 1.
      rewrite apply_without_handle by done. reflexivity.
  - rewrite IH by (done || simpl in Hf; lia).
    destruct (existsb (startswith "--- ") src); [|done].
    by rewrite <- app_assoc.
Qed.

End NoHandle.

(** X15. A run of [patch.py] on the options that [parse_args] gives.
    These hold no input handle and no key [silent] (the flag [-s] is
    stored under [quiet]).  If no line of the patch starts with [--- ] the
    run reads the patch, does nothing and ends with exit status 0;
    otherwise it announces the first hunk on standard error, also with
    [-s], and ends there with KeyError for [i_fh].  In both cases nothing
    is applied, no reject is recorded and the hunk counter stays 1. *)
Theorem main_never_applies (opts : gmap string Patch.pyval) (src : list string) :
  opts !! "i_fh" = None -> opts !! "silent" = None ->
  Forall (fun line => line <> "") src ->
  Patch.main opts src
  = if existsb (startswith "--- ") src
    then (Raise (KeyError "i_fh"),
          Patch.with_stderr (Marks.announcement (Marks.leading src) 1)
            (Patch.new_Patch opts ""))
    else (Raise (SystemExit 0), Patch.new_Patch opts "").
Proof.
  intros Hi Hq Hne. unfold Patch.main. unfold bind at 1.
  rewrite (main_loop_without_handle src) by (done || simpl; lia).
  by destruct (existsb (startswith "--- ") src).
Qed.

(** The theorem at the unified rendering of [a b c] against [a x c], with
    [-s] given. *)
Lemma main_never_applies_witness :
  let opts := <["quiet" := Patch.VBool true]> Patch.default_options in
  let src := readlines (unlines ["--- old"; "+++ new"; "@@ -1,3 +1,3 @@";
                                 " a"; "-b"; "+x"; " c"]) in
  (opts !! "i_fh" = None /\ opts !! "silent" = None /\
   Forall (fun line => line <> "") src) /\
  Patch.main opts src
  = if existsb (startswith "--- ") src
    then (Raise (KeyError "i_fh"),
          Patch.with_stderr (Marks.announcement (Marks.leading src) 1)
            (Patch.new_Patch opts ""))
    else (Raise (SystemExit 0), Patch.new_Patch opts "").
Proof.
  assert (Hsrc : Forall (fun line : string => line <> "")
                   (readlines (unlines ["--- old"; "+++ new"; "@@ -1,3 +1,3 @@";
                                        " a"; "-b"; "+x"; " c"]))).
  { vm_compute. repeat constructor; discriminate. }
  split.
  - split; [reflexivity|]. split; [reflexivity|exact Hsrc].
  - apply main_never_applies; [reflexivity|reflexivity|exact Hsrc].
Defined.

(** ** patch.py: what [apply] writes *)

Section ApplyWrites.
Import Patch Matching Frame.

Lemma keeps_refl p f : options p !! "i_fh" = Some (VIn f) -> keeps p p.
Proof. intros Hf. unfold keeps. repeat split; eauto. Qed.

Lemma keeps_trans p1 p2 p3 : keeps p1 p2 -> keeps p2 p3 -> keeps p1 p3.
Proof.
  unfold keeps. intros (A1 & A2 & A3 & A4 & A5 & A6 & A7 & _)
    (B1 & B2 & B3 & B4 & B5 & B6 & B7 & B8).
  repeat split; first [congruence|done].
Qed.

Lemma in_readline_keeps (p : Patch) (f : infile) :
  options p !! "i_fh" = Some (VIn f) ->
  exists l p', in_readline p = (Ok l, p') /\ keeps p p'.
Proof.
  intros Hf. unfold in_readline, get_in_fh, bind, gets, ret, modify. rewrite Hf.
  destruct (in_lines f !! in_pos f) as [l|].
  - eexists _, _. split; [reflexivity|]. unfold keeps. cbn.
    rewrite !lookup_insert_ne by done. rewrite lookup_insert_eq.
    repeat split; eauto.
  - eexists _, _. split; [reflexivity|]. by eapply keeps_refl.
Qed.

Lemma keeps_in_fh p p' : keeps p p' -> exists f', options p' !! "i_fh" = Some (VIn f').
Proof. by intros (_ & _ & _ & _ & _ & _ & _ & ?). Qed.

Lemma skip_lines_keeps (l : list Z) : forall (p : Patch) (f : infile),
  options p !! "i_fh" = Some (VIn f) ->
  exists p', for_each l (fun _ => in_readline ;;; ret tt) p = (Ok tt, p') /\ keeps p p'.
Proof.
  induction l as [|x l IH]; intros p f Hf.
  - exists p. split; [done|]. by eapply keeps_refl.
  - destruct (in_readline_keeps p f Hf) as (line & p1 & Hr & K1).
    destruct (keeps_in_fh _ _ K1) as [f1 Hf1].
    destruct (IH p1 f1 Hf1) as (p2 & Hr2 & K2).
    exists p2. cbn [for_each]. unfold bind at 1 2. rewrite Hr.
    unfold ret at 1. split; [done|]. by eapply keeps_trans.
Qed.

Lemma match_context_keeps (context_lines : list string) : forall (p : Patch) (f : infile),
  options p !! "i_fh" = Some (VIn f) ->
  exists ok p', match_context context_lines p = (Ok ok, p') /\ keeps p p'.
Proof.
  induction context_lines as [|line rest IH]; intros p f Hf.
  - exists true, p. split; [done|]. by eapply keeps_refl.
  - destruct (in_readline_keeps p f Hf) as (l & p1 & Hr & K1).
    destruct (keeps_in_fh _ _ K1) as [f1 Hf1].
    cbn [match_context]. unfold bind at 1. rewrite Hr.
    destruct (negb _).
    + by exists false, p1.
    + destruct (IH p1 f1 Hf1) as (ok & p2 & -> & K2).
      exists ok, p2. split; [done|]. by eapply keeps_trans.
Qed.

Lemma find_match_keeps (p : Patch) (f : infile) (i_start : Z) (hunk : list string) :
  options p !! "i_fh" = Some (VIn f) ->
  exists r p', find_match i_start hunk p = (Ok r, p') /\ keeps p p'.
Proof.
  intros Hf. unfold find_match. unfold bind at 1, get_in_fh at 1, bind at 1, gets at 1.
  rewrite Hf. unfold ret at 1.
  unfold bind at 1, in_seek0, bind at 1, get_in_fh, bind at 1, gets at 1.
  rewrite Hf. unfold ret at 1, modify at 1.
  set (p0 := with_options _ p).
  assert (K0 : keeps p p0).
  { subst p0. unfold keeps. cbn. rewrite !lookup_insert_ne by done.
    rewrite lookup_insert_eq. repeat split; eauto. }
  destruct (keeps_in_fh _ _ K0) as [f0 Hf0].
  destruct (skip_lines_keeps (range 0 (i_start - 1)) p0 f0 Hf0) as (p1 & Hs & K1).
  destruct (keeps_in_fh _ _ K1) as [f1 Hf1].
  unfold bind at 1. rewrite Hs.
  unfold bind at 1, in_tell, bind at 1, get_in_fh, bind at 1, gets at 1.
  rewrite Hf1. unfold ret at 1 2.
  destruct (match_context_keeps (map tail (List.filter (startswith " ") hunk)) p1 f1 Hf1)
    as (ok & p2 & Hm & K2).
  unfold bind at 1. rewrite Hm.
  assert (K : keeps p p2) by (eapply keeps_trans; [|exact K2]; by eapply keeps_trans).
  destruct ok; eexists _, _; (split; [reflexivity|done]).
Qed.

Lemma note_keeps (message : string) (p : Patch) :
  exists p', note message p = (Ok tt, p') /\
    options p' = options p /\ ifdef p' = ifdef p /\ i_lines p' = i_lines p /\
    o_lines p' = o_lines p /\ hunk p' = hunk p /\ rejects p' = rejects p.
Proof.
  unfold note, bind, gets. destruct (truthy _); eexists; (split; [reflexivity|done]).
Qed.

Lemma out_write_spec (s : string) (p : Patch) (g : outfile) :
  options p !! "o_fh" = Some (VOut g) ->
  out_write s p
  = (Ok tt, with_options <["o_fh" := VOut {| written := written g +:+ s |}]> p).
Proof. intros Hg. unfold out_write, get_out_fh, bind, gets. by rewrite Hg. Qed.

Lemma new_line_char (c : ascii) (rest : string) :
  new_line (String c rest) = Ascii.eqb "+" c || Ascii.eqb " " c.
Proof. unfold new_line. by rewrite !startswith_char. Qed.

Lemma old_line_char (c : ascii) (rest : string) :
  old_line (String c rest) = Ascii.eqb "-" c || Ascii.eqb " " c.
Proof. unfold old_line. by rewrite !startswith_char. Qed.

(** The loop over the lines of the hunk, when [-D] is not given: the
    added lines and the context lines are written, without their mark. *)
Lemma apply_lines (hk : list string) : forall (p : Patch) (g : outfile),
  truthy (ifdef p) = false -> options p !! "o_fh" = Some (VOut g) ->
  Forall (fun line => line <> "") hk ->
  exists p',
    for_each hk apply_line p = (Ok tt, p') /\
    options p' !! "o_fh"
    = Some (VOut {| written := written g +:+
                               String.concat "" (map tail (List.filter new_line hk)) |}) /\
    o_lines p' = (o_lines p + Z.of_nat (length (List.filter new_line hk)))%Z /\
    i_lines p' = (i_lines p + Z.of_nat (length (List.filter old_line hk)))%Z /\
    ifdef p' = ifdef p /\ rejects p' = rejects p /\ hunk p' = hunk p /\
    options p' !! "i_fh" = options p !! "i_fh".
Proof.
  induction hk as [|line hk IH]; intros p g Hd Hg Hne.
  { exists p. split; [done|]. cbn. rewrite append_empty_r.
    destruct g. repeat split; try done; lia. }
  inversion Hne as [|? ? Hl Hne']; subst.
  destruct line as [|c rest]; [done|].
  cbn [for_each List.filter]. rewrite new_line_char, old_line_char.
  assert (Hstep : exists p1 g1,
    apply_line (String c rest) p = (Ok tt, p1) /\
    truthy (ifdef p1) = false /\ options p1 !! "o_fh" = Some (VOut g1) /\
    written g1 = written g +:+ (if Ascii.eqb "+" c || Ascii.eqb " " c then rest else "") /\
    o_lines p1 = (o_lines p + (if Ascii.eqb "+" c || Ascii.eqb " " c then 1 else 0))%Z /\
    i_lines p1 = (i_lines p + (if Ascii.eqb "-" c || Ascii.eqb " " c then 1 else 0))%Z /\
    ifdef p1 = ifdef p /\ rejects p1 = rejects p /\ hunk p1 = hunk p /\
    options p1 !! "i_fh" = options p !! "i_fh").
  { unfold apply_line. unfold bind at 1, gets at 1. rewrite Hd.
    destruct (Ascii.eqb_spec c "-") as [->|N1].
    { eexists _, g. split; [reflexivity|]. cbn. rewrite append_empty_r.
      repeat split; try done; lia. }
    destruct (Ascii.eqb_spec c "+") as [->|N2].
    { unfold bind at 1. rewrite (out_write_spec _ _ g Hg). cbn [tail].
      eexists _, _. split; [reflexivity|]. cbn.
      rewrite lookup_insert_eq, lookup_insert_ne by done.
      repeat split; try done; lia. }
    destruct (Ascii.eqb_spec c " ") as [->|N3].
    { unfold bind at 1. rewrite (out_write_spec _ _ g Hg). cbn [tail].
      eexists _, _. split; [reflexivity|]. cbn.
      rewrite lookup_insert_eq, lookup_insert_ne by done.
      repeat split; try done; lia. }
    eexists _, g. split; [reflexivity|].
    destruct (Ascii.eqb_spec "+" c); [congruence|].
    destruct (Ascii.eqb_spec " " c); [congruence|].
    destruct (Ascii.eqb_spec "-" c); [congruence|].
    cbn. rewrite append_empty_r. repeat split; try done; lia. }
  destruct Hstep as (p1 & g1 & Hr & Hd1 & Hg1 & Hw & Ho & Hi & E1 & E2 & E3 & E4).
  unfold bind at 1. rewrite Hr.
  destruct (IH p1 g1 Hd1 Hg1 Hne') as (p2 & Hr2 & Hg2 & Ho2 & Hi2 & F1 & F2 & F3 & F4).
  exists p2. split; [done|]. rewrite Hg2, Ho2, Hi2, Hw, Ho, Hi.
  split.
  { do 3 f_equal. destruct (Ascii.eqb "+" c || Ascii.eqb " " c); cbn [map tail].
    - by rewrite concat_cons, append_assoc.
    - by rewrite append_empty_r. }
  split.
  { destruct (Ascii.eqb "+" c || Ascii.eqb " " c); cbn [length]; lia. }
  split.
  { destruct (Ascii.eqb "-" c || Ascii.eqb " " c); cbn [length]; lia. }
  repeat split; congruence.
Qed.

(** [apply] at line 1, the only line number [main] passes. *)
Lemma apply_at_line_1 (o_start : Z) (hk : list string) (p : Patch) (f : infile) (g : outfile) :
  skip p = false -> truthy (options_get "reverse" VNone p) = false ->
  truthy (ifdef p) = false ->
  options p !! "i_fh" = Some (VIn f) -> options p !! "o_fh" = Some (VOut g) ->
  Forall (fun line => line <> "") hk ->
  context_matches (map tail (List.filter (startswith " ") hk)) (in_lines f) = true ->
  exists p',
    apply 1 o_start hk p = (Ok true, p') /\
    options p' !! "o_fh"
    = Some (VOut {| written := written g +:+
                               String.concat "" (map tail (List.filter new_line hk)) |}) /\
    o_lines p' = (o_lines p + Z.of_nat (length (List.filter new_line hk)))%Z /\
    i_lines p' = (i_lines p + Z.of_nat (length (List.filter old_line hk)))%Z /\
    rejects p' = rejects p /\ hunk p' = hunk p.
Proof.
  intros Hs Hrev Hd Hf Hg Hne Hm.
  destruct (find_match_keeps p f 1 hk Hf) as (r & p1 & Hfm & K1).
  pose proof (find_match_spec p f 1 hk Hf) as Hspec.
  rewrite Hfm in Hspec. cbn [fst] in Hspec.
  change (Z.to_nat (1 - 1)) with 0 in Hspec. rewrite drop_0, Hm in Hspec.
  injection Hspec as ->.
  destruct K1 as (A1 & A2 & A3 & A4 & A5 & A6 & A7 & f1 & Hf1).
  unfold apply. unfold bind at 1, gets at 1. rewrite Hs.
  unfold bind at 1, ret at 1. unfold bind at 1, gets at 1. rewrite Hrev.
  unfold bind at 1. rewrite Hfm.
  unfold bind at 1, ret at 1. unfold bind at 1, lift at 1. cbn [index length].
  change (index [(1 - 1)%Z; 0%Z] 0) with (@Ok Z 0%Z).
  unfold bind at 1, gets at 1. unfold bind at 1, gets at 1.
  destruct (note_keeps ("Hunk #" +:+ str (hunk p1) +:+ " succeeded at line " +:+
                        str (o_lines p1 + 0) +:+ "." +:+ nl) p1)
    as (p2 & Hn & N1 & N2 & N3 & N4 & N5 & N6).
  unfold bind at 1. rewrite Hn.
  unfold bind at 1, get_in_fh at 1. unfold bind at 1, gets at 1.
  rewrite N1, Hf1. unfold ret at 1.
  unfold bind at 1, get_out_fh at 1. unfold bind at 1, gets at 1.
  rewrite N1, A6, Hg. unfold ret at 1.
  change (range 0 0) with (@nil Z). cbn [for_each]. unfold bind at 1, ret at 1.
  destruct (apply_lines hk p2 g) as (p3 & Hr3 & Hg3 & Ho3 & Hi3 & F1 & F2 & F3 & F4);
    [congruence|by rewrite N1, A6|done|].
  unfold bind at 1. rewrite Hr3.
  unfold bind at 1, in_tell. unfold bind at 1, get_in_fh. unfold bind at 1, gets at 1.
  rewrite F4, N1, Hf1. unfold ret at 1 2.
  unfold bind at 1, modify at 1. unfold ret.
  eexists. split; [reflexivity|]. cbn.
  rewrite Hg3, Ho3, Hi3. repeat split; congruence.
Qed.

End ApplyWrites.

(** X16. What [apply] writes.  At line 1, the only line number [main]
    passes, without [-R] and [-D], when the context lines of the hunk
    match the first lines of the target, [apply] succeeds and appends to
    the output the added lines and the context lines of the hunk, without
    their marks, and nothing else: the removed lines of the hunk are
    neither compared with the target nor taken from it, and no line of the
    target is copied.  The two line counters advance by the numbers of
    lines of each side of the hunk. *)
Theorem apply_writes_the_new_side
    (o_start : Z) (hk : list string) (p : Patch.Patch)
    (f : Patch.infile) (g : Patch.outfile) :
  Patch.skip p = false ->
  Patch.truthy (Patch.options_get "reverse" Patch.VNone p) = false ->
  Patch.truthy (Patch.ifdef p) = false ->
  Patch.options p !! "i_fh" = Some (Patch.VIn f) ->
  Patch.options p !! "o_fh" = Some (Patch.VOut g) ->
  Forall (fun line => line <> "") hk ->
  Matching.context_matches (map tail (List.filter (startswith " ") hk))
    (Patch.in_lines f) = true ->
  exists p',
    Patch.apply 1 o_start hk p = (Ok true, p') /\
    Patch.options p' !! "o_fh"
    = Some (Patch.VOut
              {| Patch.written :=
                   Patch.written g +:+
                   String.concat "" (map tail (List.filter Frame.new_line hk)) |}) /\
    Patch.o_lines p'
    = (Patch.o_lines p + Z.of_nat (length (List.filter Frame.new_line hk)))%Z /\
    Patch.i_lines p'
    = (Patch.i_lines p + Z.of_nat (length (List.filter Frame.old_line hk)))%Z /\
    Patch.rejects p' = Patch.rejects p /\ Patch.hunk p' = Patch.hunk p.
Proof. apply apply_at_line_1. Qed.

(** The theorem at the target [a b] and a hunk that keeps [a], removes a
    line [zzz] that the target does not hold, and adds [n]. *)
Lemma apply_writes_the_new_side_witness :
  let hk := readlines (unlines [" a"; "-zzz"; "+n"]) in
  let p := Patch.new_Patch (Scenario.with_handles ["a"; "b"]) "" in
  let f := {| Patch.in_lines := readlines (unlines ["a"; "b"]); Patch.in_pos := 0 |} in
  let g := {| Patch.written := "" |} in
  (Patch.skip p = false /\
   Patch.truthy (Patch.options_get "reverse" Patch.VNone p) = false /\
   Patch.truthy (Patch.ifdef p) = false /\
   Patch.options p !! "i_fh" = Some (Patch.VIn f) /\
   Patch.options p !! "o_fh" = Some (Patch.VOut g) /\
   Forall (fun line => line <> "") hk /\
   Matching.context_matches (map tail (List.filter (startswith " ") hk))
     (Patch.in_lines f) = true) /\
  exists p',
    Patch.apply 1 1 hk p = (Ok true, p') /\
    Patch.options p' !! "o_fh"
    = Some (Patch.VOut
              {| Patch.written :=
                   Patch.written g +:+
                   String.concat "" (map tail (List.filter Frame.new_line hk)) |}) /\
    Patch.o_lines p'
    = (Patch.o_lines p + Z.of_nat (length (List.filter Frame.new_line hk)))%Z /\
    Patch.i_lines p'
    = (Patch.i_lines p + Z.of_nat (length (List.filter Frame.old_line hk)))%Z /\
    Patch.rejects p' = Patch.rejects p /\ Patch.hunk p' = Patch.hunk p.
Proof.
  assert (Hhk : Forall (fun line : string => line <> "")
                  (readlines (unlines [" a"; "-zzz"; "+n"]))).
  { vm_compute. repeat constructor; discriminate. }
  split.
  - repeat split; try reflexivity. exact Hhk.
  - apply (apply_writes_the_new_side 1 _ _
             {| Patch.in_lines := readlines (unlines ["a"; "b"]); Patch.in_pos := 0 |}
             {| Patch.written := "" |});
      try reflexivity. exact Hhk.
Defined.
